(** * Incremental mirror of a Yuque account: a model of [crawl.py]

    The development embeds the synchronisation script [crawl.py] (classes
    [Cache] and [SDK], [save_to_storage], [crawl_repo], [has_update],
    [main]) as executable Rocq functions and states the properties of the
    design document about them.

    - JSON payloads are an inductive type [json]; Python's [None] is
      [JNull].
    - The file system is a finite map from resolved paths to nodes.
    - The script is sequential and raises exceptions that nothing catches:
      a computation is a function from a world (store and event trace) to
      a world and either a value or the exception raised.
    - [dateutil.parser.parse] is a third-party function: the model takes
      it as a section variable. *)

From Stdlib Require Import ZArith Lia Ascii String.
From Stdlib Require OrdersEx.
From stdpp Require Import base strings list gmap sorting pretty.

Local Open Scope list_scope.

(** ** Results and exceptions *)

(** The exceptions the script can raise.  [OutsideModel] is not a Python
    exception: it marks executions that leave the modelled fragment (an
    absolute or [..] path, a file that holds raw text read back as JSON,
    the [str()] of a list or a dict). *)
Inductive exn :=
| KeyError
| TypeError
| ParserError
| RequestFailed
| FileNotFoundError
| FileExistsError
| NotADirectoryError
| IsADirectoryError
| OutsideModel.

Inductive result (A : Type) :=
| Ok (a : A)
| Raise (e : exn).
Arguments Ok {A} a.
Arguments Raise {A} e.

Definition rbind {A B} (r : result A) (k : A -> result B) : result B :=
  match r with
  | Ok a => k a
  | Raise e => Raise e
  end.

Definition of_option {A} (e : exn) (o : option A) : result A :=
  match o with
  | Some a => Ok a
  | None => Raise e
  end.

(** ** JSON values and the Python operations the script applies to them *)

#[warnings="-register-all"]
Inductive json :=
| JNull
| JBool (b : bool)
| JInt (z : Z)
| JStr (s : string)
| JArr (items : list json)
| JObj (fields : list (string * json)).

Fixpoint assoc {A} (k : string) (kvs : list (string * A)) : option A :=
  match kvs with
  | [] => None
  | (k', v) :: kvs' => if String.eqb k k' then Some v else assoc k kvs'
  end.

(** [a == b].  Booleans compare equal to the integers 0 and 1; dicts
    compare by size and per-key lookup, whatever the order of the keys. *)
Fixpoint py_eq (a b : json) : bool :=
  match a, b with
  | JNull, JNull => true
  | JBool x, JBool y => Bool.eqb x y
  | JBool x, JInt y => Z.eqb (Z.b2z x) y
  | JInt x, JBool y => Z.eqb x (Z.b2z y)
  | JInt x, JInt y => Z.eqb x y
  | JStr x, JStr y => String.eqb x y
  | JArr xs, JArr ys =>
      (fix go (xs ys : list json) : bool :=
         match xs, ys with
         | [], [] => true
         | x :: xs', y :: ys' => py_eq x y && go xs' ys'
         | _, _ => false
         end) xs ys
  | JObj xs, JObj ys =>
      Nat.eqb (length xs) (length ys) &&
      (fix go (xs : list (string * json)) : bool :=
         match xs with
         | [] => true
         | (k, v) :: xs' =>
             match assoc k ys with
             | Some v' => py_eq v v'
             | None => false
             end && go xs'
         end) xs
  | _, _ => false
  end.

(** [x in xs] on a list. *)
Definition py_in (x : json) (xs : list json) : bool :=
  existsb (py_eq x) xs.

(** [d[key]] with a string key. *)
Definition py_getitem (d : json) (key : string) : result json :=
  match d with
  | JObj fields => of_option KeyError (assoc key fields)
  | _ => Raise TypeError
  end.

Fixpoint chars (s : string) : list json :=
  match s with
  | EmptyString => []
  | String c s' => JStr (String c EmptyString) :: chars s'
  end.

(** What [for x in v] iterates over: the items of a list, the keys of a
    dict, the characters of a string. *)
Definition py_iter (v : json) : result (list json) :=
  match v with
  | JArr items => Ok items
  | JObj fields => Ok (map (fun kv => JStr (fst kv)) fields)
  | JStr s => Ok (chars s)
  | _ => Raise TypeError
  end.

(** What an f-string inserts for [{v}].  Lists and dicts are left out. *)
Definition py_str (v : json) : result string :=
  match v with
  | JNull => Ok "None"
  | JBool true => Ok "True"
  | JBool false => Ok "False"
  | JInt z => Ok (pretty z)
  | JStr s => Ok s
  | _ => Raise OutsideModel
  end.

(** [[f(x) for x in xs]] where [f] may raise. *)
Fixpoint map_result {A B} (f : A -> result B) (xs : list A) : result (list B) :=
  match xs with
  | [] => Ok []
  | x :: xs' =>
      rbind (f x) (fun y => rbind (map_result f xs') (fun ys => Ok (y :: ys)))
  end.

(** [[x for x in xs if p(x)]] where [p] may raise. *)
Fixpoint filter_result {A} (p : A -> result bool) (xs : list A) : result (list A) :=
  match xs with
  | [] => Ok []
  | x :: xs' =>
      rbind (p x) (fun b =>
      rbind (filter_result p xs') (fun ys => Ok (if b then x :: ys else ys)))
  end.

(** ** Timestamps *)

(** A [datetime]: the wall-clock instant in microseconds since
    1970-01-01T00:00:00, and the UTC offset in microseconds of an aware
    value ([None] for a naive one). *)
Record datetime := Datetime { dt_wall : Z; dt_offset : option Z }.

(** A [timedelta] in its normalised form: [0 <= seconds < 86400] and
    [0 <= microseconds < 1000000], the sign is carried by [days]. *)
Record timedelta := Timedelta { days : Z; seconds : Z; microseconds : Z }.

Definition timedelta_of_us (us : Z) : timedelta :=
  {| days := us / 86400000000;
     seconds := (us mod 86400000000) / 1000000;
     microseconds := us mod 1000000 |}%Z.

(** [a - b] on datetimes: naive values subtract as they are, aware ones
    after conversion to UTC, a mixed pair raises [TypeError]. *)
Definition datetime_sub (a b : datetime) : result timedelta :=
  match dt_offset a, dt_offset b with
  | None, None => Ok (timedelta_of_us (dt_wall a - dt_wall b))
  | Some oa, Some ob =>
      Ok (timedelta_of_us ((dt_wall a - oa) - (dt_wall b - ob)))
  | _, _ => Raise TypeError
  end.

(** *** A parser for the timestamps of the Yuque API

    The API writes timestamps as [2019-01-14T08:53:12.000Z].  [iso_parse]
    reads this layout (fraction optional, one to six digits) the way
    [dateutil.parser.parse] does: an aware datetime at offset zero.  It
    instantiates the section variable in the worked examples. *)

Definition digit (c : ascii) : option Z :=
  let n := Z.of_nat (nat_of_ascii c) in
  if ((48 <=? n) && (n <=? 57))%Z then Some (n - 48)%Z else None.

Fixpoint digits_value (cs : list ascii) (acc : Z) : option Z :=
  match cs with
  | [] => Some acc
  | c :: cs' =>
      match digit c with
      | Some d => digits_value cs' (10 * acc + d)%Z
      | None => None
      end
  end.

Definition is_leap (y : Z) : bool :=
  ((y mod 4 =? 0) && (negb (y mod 100 =? 0) || (y mod 400 =? 0)))%Z.

Definition days_in_month (y m : Z) : Z :=
  (if m =? 2 then (if is_leap y then 29 else 28)
   else if (m =? 4) || (m =? 6) || (m =? 9) || (m =? 11) then 30
   else 31)%Z.

(** Days from 1970-01-01 to the given civil date (proleptic Gregorian). *)
Definition days_from_civil (y m d : Z) : Z :=
  (let y' := if m <=? 2 then y - 1 else y in
   let era := y' / 400 in
   let yoe := y' - era * 400 in
   let mp := if 2 <? m then m - 3 else m + 9 in
   let doy := (153 * mp + 2) / 5 + d - 1 in
   let doe := yoe * 365 + yoe / 4 - yoe / 100 + doy in
   era * 146097 + doe - 719468)%Z.

Definition fraction_us (cs : list ascii) : option Z :=
  let n := length cs in
  if bool_decide (1 <= n <= 6)%nat then
    match digits_value cs 0 with
    | Some v => Some (v * 10 ^ Z.of_nat (6 - n))%Z
    | None => None
    end
  else None.

Definition iso_tail (cs : list ascii) : option Z :=
  match cs with
  | ["Z"%char] => Some 0%Z
  | "."%char :: cs' =>
      match reverse cs' with
      | "Z"%char :: rfrac => fraction_us (reverse rfrac)
      | _ => None
      end
  | _ => None
  end.

Definition iso_parse (s : string) : option datetime :=
  match list_ascii_of_string s with
  | y1 :: y2 :: y3 :: y4 :: "-"%char :: m1 :: m2 :: "-"%char :: d1 :: d2
      :: "T"%char :: h1 :: h2 :: ":"%char :: n1 :: n2 :: ":"%char
      :: s1 :: s2 :: tail =>
      match digits_value [y1; y2; y3; y4] 0, digits_value [m1; m2] 0,
            digits_value [d1; d2] 0, digits_value [h1; h2] 0,
            digits_value [n1; n2] 0, digits_value [s1; s2] 0,
            iso_tail tail with
      | Some y, Some m, Some d, Some h, Some n, Some sec, Some us =>
          if ((1 <=? y) && (1 <=? m) && (m <=? 12) && (1 <=? d)
              && (d <=? days_in_month y m) && (h <=? 23) && (n <=? 59)
              && (sec <=? 59))%Z
          then Some {| dt_wall :=
                         (((days_from_civil y m d * 24 + h) * 60 + n) * 60
                          + sec) * 1000000 + us;
                       dt_offset := Some 0 |}%Z
          else None
      | _, _, _, _, _, _, _ => None
      end
  | _ => None
  end.

(** ** The store: a file system under the working directory *)

(** A resolved path: the names from the working directory down. *)
Abbreviation path := (list string).

(** A file holds either raw text or the JSON text [json.dump] wrote for a
    value; [json.load] on the latter returns the value. *)
Inductive content :=
| CText (s : string)
| CJson (j : json).

Inductive node :=
| NFile (c : content)
| NDir.

(** [s.split('/')]. *)
Fixpoint split_slash (s : string) : list string :=
  match s with
  | EmptyString => [EmptyString]
  | String c s' =>
      if Ascii.eqb c "/" then EmptyString :: split_slash s'
      else match split_slash s' with
           | seg :: segs => String c seg :: segs
           | [] => [String c EmptyString]
           end
  end.

(** A segment that names something: neither empty nor [.]. *)
Definition proper_segment (seg : string) : bool :=
  negb (String.eqb seg "") && negb (String.eqb seg ".").

Definition clean (segs : list string) : path :=
  List.filter proper_segment segs.

Definition is_absolute (s : string) : bool :=
  match s with
  | String c _ => Ascii.eqb c "/"
  | EmptyString => false
  end.

(** How the operating system reads a relative path: empty and [.]
    segments are dropped.  Absolute paths and paths through [..] are
    outside the model. *)
Definition resolve (s : string) : option path :=
  if is_absolute s then None
  else
    let segs := clean (split_slash s) in
    if existsb (String.eqb "..") segs then None else Some segs.

(** [s.rstrip('/')]. *)
Fixpoint rstrip_slash (s : string) : string :=
  match s with
  | EmptyString => EmptyString
  | String c s' =>
      match rstrip_slash s' with
      | EmptyString => if Ascii.eqb c "/" then EmptyString else String c EmptyString
      | r => String c r
      end
  end.

(** [p[:p.rfind('/') + 1]]: [None] stands for the empty head of a path
    without a slash. *)
Fixpoint head_upto_slash (s : string) : option string :=
  match s with
  | EmptyString => None
  | String c s' =>
      match head_upto_slash s' with
      | Some h => Some (String c h)
      | None => if Ascii.eqb c "/" then Some (String c EmptyString) else None
      end
  end.

(** [os.path.dirname]. *)
Definition os_path_dirname (p : string) : string :=
  match head_upto_slash p with
  | None => EmptyString
  | Some head =>
      match rstrip_slash head with
      | EmptyString => head
      | stripped => stripped
      end
  end.

(** [os.path.join(a, b)] for a non-empty [a] that does not end in a
    slash. *)
Definition os_path_join (a b : string) : string :=
  if is_absolute b then b else a +:+ "/" +:+ b.

(** What is left of [k] below [p], when [k] is below [p]. *)
Fixpoint strip_prefix (p k : path) : option path :=
  match p, k with
  | [], _ => Some k
  | x :: p', y :: k' => if String.eqb x y then strip_prefix p' k' else None
  | _ :: _, [] => None
  end.

(** The name of [k] in [dir], when [k] is an entry of [dir]. *)
Definition child_name (dir k : path) : option string :=
  match strip_prefix dir k with
  | Some [x] => Some x
  | _ => None
  end.

(** The node at a path; the working directory itself always exists. *)
Definition node_at (fs : gmap path node) (p : path) : option node :=
  match p with
  | [] => Some NDir
  | _ => fs !! p
  end.

(** [os.listdir]: the names of the entries of a directory. *)
Definition children (fs : gmap path node) (dir : path) : list string :=
  omap (fun kv => child_name dir (fst kv)) (map_to_list fs).

(** The order of [sorted] on strings: by character code. *)
Definition string_le (a b : string) : Prop := String.leb a b = true.

#[global] Instance string_le_dec : RelDecision string_le.
Proof. intros a b. unfold string_le. apply _. Defined.

(** [sorted(names)]. *)
Definition sorted (names : list string) : list string :=
  merge_sort string_le names.

(** [os.makedirs(p, exist_ok=True)] walks down from [pre]: existing
    directories are kept, missing ones created, a file on the way is an
    error. *)
Fixpoint makedirs_from (pre rest : path) (fs : gmap path node)
  : result (gmap path node) :=
  match rest with
  | [] => Ok fs
  | x :: rest' =>
      let q := pre ++ [x] in
      match fs !! q with
      | Some NDir => makedirs_from q rest' fs
      | Some (NFile _) =>
          Raise (match rest' with
                 | [] => FileExistsError
                 | _ => NotADirectoryError
                 end)
      | None => makedirs_from q rest' (<[q := NDir]> fs)
      end
  end.

(** ** Worlds, events and computations *)

(** The call of [save_to_storage] a write comes from. *)
Inductive site :=
| SUser
| SRepoList
| SRepoDetail
| SToc
| SDocList
| SDocDetail.

Inductive level := Info | Warning.

(** The log lines of the script, by format string. *)
Inductive log_msg :=
| MsgDocRemoved (namespace doc_name : string)
| MsgDocNoUpdate (title : string) (i n : nat)
| MsgDoc (title : string) (i n : nat)
| MsgRemoveRepo (login repo_name : string)
| MsgCrawlingRepo (name : string) (i n : nat)
| MsgNoUpdate.

Inductive event :=
| EGet (api : string)
| EWrite (s : site) (file : string) (c : content)
| ERemove (file : string)
| ERmtree (dir : string)
| ELog (l : level) (m : log_msg).

Record world := World { w_fs : gmap path node; w_trace : list event }.

(** A computation runs in a world and leaves a world and either a value
    or the exception it raised. *)
Definition M (A : Type) : Type := world -> world * result A.

Definition ret {A} (a : A) : M A := fun w => (w, Ok a).
Definition raise {A} (e : exn) : M A := fun w => (w, Raise e).
Definition lift {A} (r : result A) : M A := fun w => (w, r).

Definition bind {A B} (m : M A) (k : A -> M B) : M B :=
  fun w =>
    match m w with
    | (w', Ok a) => k a w'
    | (w', Raise e) => (w', Raise e)
    end.

Notation "'let!' x ':=' m 'in' k" := (bind m (fun x => k))
  (at level 10, x binder, m at level 100, k at level 200).
Notation "'do!' m 'in' k" := (bind m (fun _ => k))
  (at level 10, m at level 100, k at level 200).

Definition emit (e : event) : M unit :=
  fun w => (World (w_fs w) (w_trace w ++ [e]), Ok tt).

Definition get_fs : M (gmap path node) := fun w => (w, Ok (w_fs w)).
Definition put_fs (fs : gmap path node) : M unit :=
  fun w => (World fs (w_trace w), Ok tt).

Definition with_path {A} (s : string) (k : path -> M A) : M A :=
  match resolve s with
  | Some p => k p
  | None => raise OutsideModel
  end.

(** [for x in xs: body(x)]. *)
Fixpoint for_each {A} (body : A -> M unit) (xs : list A) : M unit :=
  match xs with
  | [] => ret tt
  | x :: xs' => do! body x in for_each body xs'
  end.

(** [for i, x in enumerate(xs): body(i, x)], counting from [i]. *)
Fixpoint for_enum {A} (body : nat -> A -> M unit) (i : nat) (xs : list A) : M unit :=
  match xs with
  | [] => ret tt
  | x :: xs' => do! body i x in for_enum body (S i) xs'
  end.

(** [[x for x in xs if p(x)]] where [p] reads the store. *)
Fixpoint filter_M {A} (p : A -> M bool) (xs : list A) : M (list A) :=
  match xs with
  | [] => ret []
  | x :: xs' =>
      let! b := p x in
      let! ys := filter_M p xs' in
      ret (if b then x :: ys else ys)
  end.

(** *** File-system calls *)

Definition os_path_exists (s : string) : M bool :=
  with_path s (fun p =>
  let! fs := get_fs in
  ret (match node_at fs p with Some _ => true | None => false end)).

Definition os_path_isdir (s : string) : M bool :=
  with_path s (fun p =>
  let! fs := get_fs in
  ret (match node_at fs p with Some NDir => true | _ => false end)).

Definition os_listdir (s : string) : M (list string) :=
  with_path s (fun p =>
  let! fs := get_fs in
  match node_at fs p with
  | Some NDir => ret (children fs p)
  | Some (NFile _) => raise NotADirectoryError
  | None => raise FileNotFoundError
  end).

Definition os_makedirs (s : string) : M unit :=
  with_path s (fun p =>
  let! fs := get_fs in
  match p with
  | [] => if String.eqb s "" then raise FileNotFoundError else ret tt
  | _ =>
      let! fs' := lift (makedirs_from [] p fs) in
      put_fs fs'
  end).

(** [with open(s, 'rt') as f: return json.load(f)]. *)
Definition json_load (s : string) : M json :=
  with_path s (fun p =>
  let! fs := get_fs in
  match node_at fs p with
  | Some (NFile (CJson j)) => ret j
  | Some (NFile (CText _)) => raise OutsideModel
  | Some NDir => raise IsADirectoryError
  | None => raise FileNotFoundError
  end).

(** [with open(s, 'wt') as f: ...] writing [c], labelled with the call
    site. *)
Definition write_file (st : site) (s : string) (c : content) : M unit :=
  with_path s (fun p =>
  let! fs := get_fs in
  match p with
  | [] => raise IsADirectoryError
  | _ =>
      match node_at fs (removelast p) with
      | None => raise FileNotFoundError
      | Some (NFile _) => raise NotADirectoryError
      | Some NDir =>
          match fs !! p with
          | Some NDir => raise IsADirectoryError
          | _ =>
              do! put_fs (<[p := NFile c]> fs) in
              emit (EWrite st s c)
          end
      end
  end).

Definition os_remove (s : string) : M unit :=
  with_path s (fun p =>
  let! fs := get_fs in
  match node_at fs p with
  | Some (NFile _) =>
      do! put_fs (delete p fs) in
      emit (ERemove s)
  | Some NDir => raise IsADirectoryError
  | None => raise FileNotFoundError
  end).

Definition shutil_rmtree (s : string) : M unit :=
  with_path s (fun p =>
  let! fs := get_fs in
  match node_at fs p with
  | Some NDir =>
      do! put_fs (filter (fun kv => ~ p `prefix_of` fst kv) fs) in
      emit (ERmtree s)
  | Some (NFile _) => raise NotADirectoryError
  | None => raise FileNotFoundError
  end).

Definition log (l : level) (m : log_msg) : M unit := emit (ELog l m).

(** ** The script *)

Definition storage_dir : string := "storage".
Definition meta_dir : string := storage_dir +:+ "/.meta".
Definition repo_id_key : string := "slug".
Definition doc_id_key : string := "slug".

Definition ends_with (suffix s : string) : bool :=
  let n := String.length s in
  let k := String.length suffix in
  (k <=? n)%nat && String.eqb (substring (n - k) k s) suffix.

(** class [Cache], with [self.meta_dir = meta_dir]. *)
Module Cache.

(** [f'{self.meta_dir}/{cache_name or api}.json']. *)
Definition cache_path (api : string) (cache_name : option string) : string :=
  let name :=
    match cache_name with
    | Some (String c s) => String c s
    | _ => api
    end in
  meta_dir +:+ "/" +:+ name +:+ ".json".

Definition request (api : string) (cache_name : option string) : M json :=
  let! found := os_path_exists (cache_path api cache_name) in
  if found then json_load (cache_path api cache_name) else ret JNull.

Definition get_user (user : string) : M json :=
  request "user" None.

Definition get_repos (user : string) : M json :=
  request (user +:+ "/repos") None.

Definition get_repo_detail (namespace : string) : M json :=
  request (namespace +:+ "/repo") None.

Definition get_docs (namespace : string) : M json :=
  request (namespace +:+ "/docs") None.

Definition get_doc_detail (namespace name : string) : M json :=
  request (namespace +:+ "/docs/" +:+ name) None.

Definition get_local_repo_names (user : string) : M (list string) :=
  let dir := meta_dir +:+ "/" +:+ user in
  let! names := os_listdir dir in
  filter_M (fun x => os_path_isdir (dir +:+ "/" +:+ x)) (sorted names).

Definition get_doc_names (namespace : string) : M (list string) :=
  let dir := meta_dir +:+ "/" +:+ namespace +:+ "/docs" in
  let! found := os_path_exists dir in
  let! names := (if found then
                   let! xs := os_listdir dir in ret (sorted xs)
                 else ret []) in
  ret (map (fun x => substring 0 (String.length x - 5) x)
           (List.filter (ends_with ".json") names)).

End Cache.

(** The remote: what [GET {host}/api/v2/{api}] answers in the [data]
    field, or [None] when the request fails (a status other than 200, a
    body that is not JSON). *)
Definition remote := string -> option json.

(** class [SDK], against a remote. *)
Module SDK.

Definition request (r : remote) (api : string) : M json :=
  do! emit (EGet api) in
  lift (of_option RequestFailed (r api)).

Definition get_user (r : remote) (user : string) : M json :=
  request r (match user with
             | EmptyString => "user"
             | _ => "users/" +:+ user
             end).

Definition get_repos (r : remote) (user : string) : M json :=
  request r ("users/" +:+ user +:+ "/repos").

Definition get_repo_detail (r : remote) (namespace : string) : M json :=
  request r ("repos/" +:+ namespace).

Definition get_docs (r : remote) (namespace : string) : M json :=
  request r ("repos/" +:+ namespace +:+ "/docs").

Definition get_doc_detail (r : remote) (namespace name : string) : M json :=
  request r ("repos/" +:+ namespace +:+ "/docs/" +:+ name).

End SDK.

(** [save_to_storage(filepath, content)]: a string is written as it is,
    any other value through [json.dump]. *)
Definition save_to_storage (st : site) (filepath : string) (content : json) : M unit :=
  let path := os_path_join meta_dir filepath in
  do! os_makedirs (os_path_dirname path) in
  match content with
  | JStr s => write_file st path (CText s)
  | _ => write_file st path (CJson content)
  end.

Section Crawl.

(** [dateutil.parser.parse] on a string: the datetime it returns, or
    [None] when it raises [ParserError]. *)
Variable dateutil_parse : string -> option datetime.

(** [dateutil.parser.parse(v)]: anything but a string is a [TypeError]. *)
Definition parse_timestamp (v : json) : result datetime :=
  match v with
  | JStr s => of_option ParserError (dateutil_parse s)
  | _ => Raise TypeError
  end.

(** [has_update(cached_d, d, key)]. *)
Definition has_update_key (cached_d d : json) (key : string) : result bool :=
  rbind (py_getitem cached_d key) (fun old_raw =>
  rbind (parse_timestamp old_raw) (fun old_updated_at =>
  rbind (py_getitem d key) (fun new_raw =>
  rbind (parse_timestamp new_raw) (fun updated_at =>
  rbind (datetime_sub updated_at old_updated_at) (fun diff =>
  Ok (0 <? seconds diff)%Z))))).

(** [has_update(cached_d, d)] with the default key. *)
Definition has_update (cached_d d : json) : result bool :=
  has_update_key cached_d d "updated_at".

(** [x[key] == d[key]]. *)
Definition id_matches (key : string) (d x : json) : result bool :=
  rbind (py_getitem x key) (fun a =>
  rbind (py_getitem d key) (fun b => Ok (py_eq a b))).

(** [[x for x in cached if x[key] == d[key]]]. *)
Definition candidates (cached : json) (d : json) (key : string) : result (list json) :=
  rbind (py_iter cached) (filter_result (id_matches key d)).

Variable sdk : remote.

(** Body of the loop "Remove old docs" of [crawl_repo]. *)
Definition remove_old_doc (namespace : string) (doc_names : list json)
    (doc_name : string) : M unit :=
  if negb (py_in (JStr doc_name) doc_names) then
    let path := meta_dir +:+ "/" +:+ namespace +:+ "/" +:+ doc_name +:+ ".json" in
    let! found := os_path_exists path in
    if found then
      do! log Warning (MsgDocRemoved namespace doc_name) in
      os_remove path
    else ret tt
  else ret tt.

(** Lines 139-142: fetch the detail of a document and store it. *)
Definition fetch_doc (namespace : string) (n i : nat) (doc : json) : M unit :=
  let! title := lift (rbind (py_getitem doc "title") py_str) in
  do! log Info (MsgDoc title (i + 1) n) in
  let! name := lift (rbind (py_getitem doc doc_id_key) py_str) in
  let! doc_detail := SDK.get_doc_detail sdk namespace name in
  save_to_storage SDocDetail (namespace +:+ "/docs/" +:+ name +:+ ".json") doc_detail.

(** Body of the loop "Crawl new docs" of [crawl_repo]. *)
Definition crawl_doc (namespace : string) (cached_docs : json) (n i : nat)
    (doc : json) : M unit :=
  match cached_docs with
  | JNull => fetch_doc namespace n i doc
  | _ =>
      let! cached_doc_candidates := lift (candidates cached_docs doc doc_id_key) in
      match cached_doc_candidates with
      | [] => fetch_doc namespace n i doc
      | cached_doc :: _ =>
          let! updated := lift (has_update cached_doc doc) in
          if updated then fetch_doc namespace n i doc
          else
            let! title := lift (rbind (py_getitem doc "title") py_str) in
            log Info (MsgDocNoUpdate title (i + 1) n)
      end
  end.

(** [crawl_repo(cache, sdk, namespace)]. *)
Definition crawl_repo (namespace : string) : M unit :=
  let! cached_repo := Cache.get_repo_detail namespace in
  let! repo := SDK.get_repo_detail sdk namespace in
  let! proceed :=
    match cached_repo with
    | JNull => ret true
    | _ => lift (has_update cached_repo repo)
    end in
  if negb proceed then ret tt
  else
    let! docs := SDK.get_docs sdk namespace in
    let! items := lift (py_iter docs) in
    let! doc_names := lift (map_result (fun x => py_getitem x doc_id_key) items) in
    let! local_names := Cache.get_doc_names namespace in
    do! for_each (remove_old_doc namespace doc_names) local_names in
    let! cached_docs := Cache.get_docs namespace in
    do! for_enum (crawl_doc namespace cached_docs (length items)) 0 items in
    do! save_to_storage SDocList (namespace +:+ "/docs.json") docs in
    let! toc := lift (py_getitem repo "toc_yml") in
    do! save_to_storage SToc (namespace +:+ "/toc.yaml") toc in
    save_to_storage SRepoDetail (namespace +:+ "/repo.json") repo.

(** Body of the loop "Remove old repos" of [main]. *)
Definition remove_old_repo (login : string) (repo_names : list json)
    (repo_name : string) : M unit :=
  if negb (py_in (JStr repo_name) repo_names) then
    do! log Warning (MsgRemoveRepo login repo_name) in
    shutil_rmtree (meta_dir +:+ "/" +:+ login +:+ "/" +:+ repo_name)
  else ret tt.

(** Line 214: [crawl_repo(cache, sdk, repo['namespace'])]. *)
Definition crawl_namespace_of (repo : json) : M unit :=
  let! namespace := lift (rbind (py_getitem repo "namespace") py_str) in
  crawl_repo namespace.

(** Body of the loop "Crawling new repos" of [main]. *)
Definition crawl_repo_entry (cached_repos : json) (n i : nat) (repo : json) : M unit :=
  let! name := lift (rbind (py_getitem repo "name") py_str) in
  do! log Info (MsgCrawlingRepo name (i + 1) n) in
  match cached_repos with
  | JNull => crawl_namespace_of repo
  | _ =>
      let! cached_repo_candidates := lift (candidates cached_repos repo repo_id_key) in
      match cached_repo_candidates with
      | [] => crawl_namespace_of repo
      | cached_repo :: _ =>
          let! updated := lift (has_update cached_repo repo) in
          if updated then crawl_namespace_of repo
          else log Warning MsgNoUpdate
      end
  end.

(** [main()].  Two calls of the source are left out of the body:
    [setup_logging], which opens [{meta_dir}/main.log] with mode ['w']
    and makes every log line go to that file and to the console, and
    [load_token], which reads [config.json] in the working directory.
    The log lines are the [ELog] events of the trace; the file
    [main.log] (see [main_log_key]) and the token file are not part of
    the modelled store, so what is proved of the store is proved of its
    other paths. *)
Definition main : M unit :=
  do! os_makedirs meta_dir in
  let! cached_user_info := Cache.get_user "" in
  let! user_info := SDK.get_user sdk "" in
  let! user_info_updated :=
    match cached_user_info with
    | JNull => ret true
    | _ => lift (has_update cached_user_info user_info)
    end in
  do! (if user_info_updated then save_to_storage SUser "user.json" user_info
       else ret tt) in
  let! login := lift (rbind (py_getitem user_info "login") py_str) in
  let! repos := SDK.get_repos sdk login in
  let! items := lift (py_iter repos) in
  let! repo_names := lift (map_result (fun x => py_getitem x repo_id_key) items) in
  let! local_names := Cache.get_local_repo_names login in
  do! for_each (remove_old_repo login repo_names) local_names in
  let! cached_repos := Cache.get_repos login in
  do! for_enum (crawl_repo_entry cached_repos (length items)) 0 items in
  save_to_storage SRepoList (login +:+ "/repos.json") repos.

End Crawl.

(** ** Worked scenarios

    One account [u] with one repository [u/r] holding one document [d],
    in the shape the Yuque API returns them. *)

Definition remote_of (table : list (string * json)) : remote :=
  fun api => assoc api table.

Definition stamped (at_ : string) (fields : list (string * json)) : json :=
  JObj (fields ++ [("updated_at", JStr at_)]).

Definition T0 : string := "2024-01-01T00:00:00.000Z".
Definition T0_plus_1s : string := "2024-01-01T00:00:01.000Z".
Definition T0_plus_2s : string := "2024-01-01T00:00:02.000Z".
Definition T0_minus_1s : string := "2023-12-31T23:59:59.000Z".
Definition T0_plus_1day : string := "2024-01-02T00:00:00.000Z".

Definition user_u : json := stamped T0 [("login", JStr "u")].

Definition repo_entry_r (at_ : string) : json :=
  stamped at_ [("slug", JStr "r"); ("name", JStr "R"); ("namespace", JStr "u/r")].

Definition repo_detail_r (at_ : string) : json :=
  stamped at_ [("slug", JStr "r"); ("toc_yml", JStr "- d")].

Definition doc_entry (slug : string) (at_ : string) : json :=
  stamped at_ [("slug", JStr slug); ("title", JStr slug)].

Definition doc_detail (slug body : string) : json :=
  JObj [("slug", JStr slug); ("body", JStr body)].

(** The remote with the listed documents of [u/r]; [details] gives the
    documents whose detail request succeeds. *)
Definition yuque (repo_at : string) (docs : list json)
    (details : list (string * json)) : remote :=
  remote_of
    ([("user", user_u);
      ("users/u/repos", JArr [repo_entry_r repo_at]);
      ("repos/u/r", repo_detail_r repo_at);
      ("repos/u/r/docs", JArr docs)]
     ++ map (fun kv => ("repos/u/r/docs/" +:+ fst kv, snd kv)) details).

Definition empty_world : world := World ∅ [].

(** A store where only the directories down to the account exist. *)
Definition account_dir_world : world :=
  World {[ ["storage"] := NDir;
           ["storage"; ".meta"] := NDir;
           ["storage"; ".meta"; "u"] := NDir ]} [].

Definition forget_trace (w : world) : world := World (w_fs w) [].

(** The world a run of [main] leaves. *)
Definition after_sync (r : remote) (w : world) : world :=
  fst (main iso_parse r w).

(** The store holds nothing at the path a file name resolves to. *)
Definition no_record (w : world) (file : string) : Prop :=
  exists p, resolve file = Some p /\ node_at (w_fs w) p = None.

(** A cache that holds the detail of a document [old] of [u/r] and
    nothing else of that repository. *)
Definition orphan_world : world :=
  World {[ ["storage"] := NDir;
           ["storage"; ".meta"] := NDir;
           ["storage"; ".meta"; "u"] := NDir;
           ["storage"; ".meta"; "u"; "r"] := NDir;
           ["storage"; ".meta"; "u"; "r"; "docs"] := NDir;
           ["storage"; ".meta"; "u"; "r"; "docs"; "old.json"] :=
             NFile (CJson (doc_detail "old" "stale")) ]} [].

Definition one_doc_remote : remote :=
  yuque T0 [doc_entry "d" T0] [("d", doc_detail "d" "hello")].

(** The identifier of [x] under [key] compares to that of [d] as [b]. *)
Definition same_id (key : string) (d x : json) (b : bool) : Prop :=
  exists a c, py_getitem x key = Ok a /\ py_getitem d key = Ok c /\ py_eq a c = b.

Definition has_id (key : string) (x : json) : Prop :=
  exists a, py_getitem x key = Ok a.

(** A cached list with a second record for document [d], stamped later
    than the first. *)
Definition duplicate_cache : list json :=
  [doc_entry "a" T0; doc_entry "d" T0; doc_entry "d" T0_plus_2s].


Definition add_events (w : world) (evs : list event) : world :=
  World (w_fs w) (w_trace w ++ evs).

(** The cache a complete run against [one_doc_remote] leaves. *)
Definition synced_world : world :=
  forget_trace (after_sync one_doc_remote account_dir_world).

(** The repository record is as cached, its document is two seconds
    newer. *)
Definition doc_updated_remote : remote :=
  yuque T0 [doc_entry "d" T0_plus_2s] [("d", doc_detail "d" "edited")].

Definition three_docs : list json :=
  [doc_entry "a" T0_plus_2s; doc_entry "b" T0_plus_2s; doc_entry "c" T0_plus_2s].

(** Three documents; the detail request of [b] fails. *)
Definition failing_detail_remote : remote :=
  yuque T0 three_docs [("a", doc_detail "a" "A"); ("c", doc_detail "c" "C")].

Definition three_docs_remote : remote :=
  yuque T0 three_docs
    [("a", doc_detail "a" "A"); ("b", doc_detail "b" "B"); ("c", doc_detail "c" "C")].



(** ** Relating the world before and after a computation *)

Definition outcome {A} (r : result A) : option exn :=
  match r with
  | Ok _ => None
  | Raise e => Some e
  end.

(** [sat Rel m]: every run of [m] relates the world it starts in to the
    world it leaves and the exception it raised, if any. *)
Definition sat (Rel : world -> world -> option exn -> Prop) {A} (m : M A) : Prop :=
  forall w w' r, m w = (w', r) -> Rel w w' (outcome r).

(** Relations that hold of a computation that does nothing and compose
    along sequencing. *)
Class StepRel (Rel : world -> world -> option exn -> Prop) : Prop := {
  step_refl : forall w o, Rel w w o;
  step_trans : forall w1 w2 w3 o, Rel w1 w2 None -> Rel w2 w3 o -> Rel w1 w3 o
}.

(** The world is left as it was. *)
Definition unchanged : world -> world -> option exn -> Prop :=
  fun w w' _ => w' = w.

(** The events a computation appends satisfy [J]. *)
Definition trace_rel (J : list event -> option exn -> Prop)
  : world -> world -> option exn -> Prop :=
  fun w w' o => exists d, w_trace w' = w_trace w ++ d /\ J d o.

Class TraceInv (J : list event -> option exn -> Prop) : Prop := {
  inv_nil : forall o, J [] o;
  inv_app : forall d1 d2 o, J d1 None -> J d2 o -> J (d1 ++ d2) o
}.

(** Every write among the events comes from an allowed call site. *)
Definition writes_from (allowed : site -> Prop) (e : event) : Prop :=
  match e with
  | EWrite st _ _ => allowed st
  | _ => True
  end.

Definition quiet (allowed : site -> Prop) : list event -> option exn -> Prop :=
  fun d _ => Forall (writes_from allowed) d.

(** The events split into a first part whose writes come from allowed
    sites and a last part that satisfies [F]. *)
Definition then_only (allowed : site -> Prop)
    (F : list event -> option exn -> Prop) : list event -> option exn -> Prop :=
  fun d o =>
    exists d0 fin, d = d0 ++ fin /\ Forall (writes_from allowed) d0 /\ F fin o.

(** The remote answers the request an event stands for. *)
Definition answered (sdk : remote) (e : event) : Prop :=
  match e with
  | EGet api => sdk api <> None
  | _ => True
  end.

(** Either every request was answered, or the one request that was not
    is the last event and the computation raised [RequestFailed]. *)
Definition fail_last (sdk : remote) : list event -> option exn -> Prop :=
  fun d o =>
    Forall (answered sdk) d
    \/ exists d' api,
         d = d' ++ [EGet api] /\ sdk api = None
         /\ Forall (answered sdk) d' /\ o = Some RequestFailed.

(** A call of [save_to_storage] appends its one write when it returns
    and nothing when it raises. *)
Definition one_write_if_ok (st : site) : list event -> option exn -> Prop :=
  fun d o =>
    (d = [] /\ o <> None) \/ (exists file c, d = [EWrite st file c] /\ o = None).

Definition silent : list event -> option exn -> Prop :=
  fun d _ => d = [].

(** The files [crawl_repo] saves and removes for a namespace are
    acceptable. *)
Definition namespace_paths_ok (ok_save : site -> string -> Prop)
    (ok_remove : string -> Prop) (namespace : string) : Prop :=
  (forall name, ok_save SDocDetail (namespace +:+ "/docs/" +:+ name +:+ ".json"))
  /\ ok_save SDocList (namespace +:+ "/docs.json")
  /\ ok_save SToc (namespace +:+ "/toc.yaml")
  /\ ok_save SRepoDetail (namespace +:+ "/repo.json")
  /\ (forall x, ok_remove (meta_dir +:+ "/" +:+ namespace +:+ "/" +:+ x +:+ ".json")).

(** ** Stores and remote states of the data model *)

(** A file or directory name: no slash, not empty, neither [.] nor
    [..]. *)
Definition plain (s : string) : Prop :=
  split_slash s = [s] /\ proper_segment s = true /\ s <> "..".

(** Every path of the store is made of names. *)
Definition fs_wf (fs : gmap path node) : Prop :=
  forall k v, fs !! k = Some v -> Forall plain k.

(** The computation keeps a property of the store. *)
Definition keeps (I : gmap path node -> Prop) : world -> world -> option exn -> Prop :=
  fun w w' _ => I (w_fs w) -> I (w_fs w').

(** The computation leaves the store as it was. *)
Definition same_fs : world -> world -> option exn -> Prop :=
  fun w w' _ => w_fs w' = w_fs w.

Definition user_key : path := ["storage"; ".meta"; "user.json"].
Definition account_dir (login : string) : path := ["storage"; ".meta"; login].
Definition repo_list_key (login : string) : path :=
  account_dir login ++ ["repos.json"].

(** What the loop over the repositories keeps: the store is well formed,
    the account record is [u], and every directory under the account is
    named by a remote slug. *)
Definition cache_inv (login : string) (slugs : list string) (u : node)
    (fs : gmap path node) : Prop :=
  fs_wf fs
  /\ fs !! user_key = Some u
  /\ (forall x, fs !! (account_dir login ++ [x]) = Some NDir -> In x slugs).

(** A file name [{login}/{slug}/...] handed to [save_to_storage]. *)
Definition under_repo_file (login : string) (slugs : list string)
    (f : string) : Prop :=
  exists slug rest,
    In slug slugs /\ plain slug /\ f = login +:+ "/" +:+ slug +:+ "/" +:+ rest.

(** A path [{meta_dir}/{login}/{slug}/...]. *)
Definition under_repo_path (login : string) (s : string) : Prop :=
  exists slug rest,
    plain slug /\ s = meta_dir +:+ "/" +:+ login +:+ "/" +:+ slug +:+ "/" +:+ rest.

Definition is_dir_child (fs : gmap path node) (dir : path) (x : string) : bool :=
  match fs !! (dir ++ [x]) with
  | Some NDir => true
  | _ => false
  end.

(** A repository record of the account [login]: its slug is a name and
    its namespace is [{login}/{slug}]. *)
Definition repo_record (login : string) (repo : json) (slug : string) : Prop :=
  py_getitem repo "slug" = Ok (JStr slug)
  /\ plain slug
  /\ py_getitem repo "namespace" = Ok (JStr (login +:+ "/" +:+ slug)).

(** The remote answers with an account whose login is a name and with a
    list of repository records whose slugs are pairwise distinct. *)
Definition account_model (sdk : remote) (user_info : json) (login : string)
    (items : list json) (slugs : list string) : Prop :=
  sdk "user" = Some user_info
  /\ py_getitem user_info "login" = Ok (JStr login)
  /\ plain login
  /\ sdk ("users/" +:+ login +:+ "/repos") = Some (JArr items)
  /\ Forall2 (repo_record login) items slugs
  /\ NoDup slugs.

(** What [save_to_storage] writes for a value. *)
Definition content_of (c : json) : content :=
  match c with
  | JStr s => CText s
  | _ => CJson c
  end.

(** The store a run that returned leaves: the directories down to the
    account exist, the account record is not older than the remote one,
    the repository list is the remote one, and every directory under the
    account is named by a remote slug. *)
Definition synced (parse : string -> option datetime) (user_info : json)
    (login : string) (items : list json) (slugs : list string)
    (fs : gmap path node) : Prop :=
  fs_wf fs
  /\ (forall r1 r2, r1 <> [] -> account_dir login = r1 ++ r2 ->
                    fs !! r1 = Some NDir)
  /\ (exists cached,
         fs !! user_key = Some (NFile (CJson cached))
         /\ cached <> JNull
         /\ forall b, has_update parse cached user_info = Ok b -> b = false)
  /\ fs !! repo_list_key login = Some (NFile (CJson (JArr items)))
  /\ (forall x, fs !! (account_dir login ++ [x]) = Some NDir -> In x slugs).

(** The events that change the store. *)
Definition is_mutation (e : event) : bool :=
  match e with
  | EWrite _ _ _ | ERemove _ | ERmtree _ => true
  | _ => false
  end.

(** A computation that returns has left the store as it was and changed
    nothing on the way. *)
Definition no_change : world -> world -> option exn -> Prop :=
  fun w w' o =>
    o = None ->
    w_fs w' = w_fs w
    /\ exists d, w_trace w' = w_trace w ++ d /\ List.filter is_mutation d = [].

(** A remote whose repository [r] has the namespace [u/x]. *)
Definition misplaced_remote : remote :=
  remote_of
    [("user", user_u);
     ("users/u/repos",
      JArr [stamped T0 [("slug", JStr "r"); ("name", JStr "R");
                        ("namespace", JStr "u/x")]]);
     ("repos/u/x", repo_detail_r T0);
     ("repos/u/x/docs", JArr [])].

(** ** Further vocabulary for the properties of the script *)

(** [d / timedelta(microseconds=1)]: the signed length of a timedelta in
    microseconds. *)
Definition total_us (d : timedelta) : Z :=
  ((days d * 86400 + seconds d) * 1000000 + microseconds d)%Z.

Definition day_us : Z := 86400000000.
Definition second_us : Z := 1000000.

(** The same instant [n] days later. *)
Definition days_later (n : Z) (t : datetime) : datetime :=
  {| dt_wall := dt_wall t + n * day_us; dt_offset := dt_offset t |}.

(** A file name handed to [save_to_storage] that is made of names:
    [u/r/docs.json] is one, [/etc/x], [a//b], [a/../b] and [a/] are
    not. *)
Definition relative_name (f : string) : Prop :=
  Forall plain (split_slash f).

(** Where [save_to_storage] puts a file name made of names. *)
Definition storage_key (f : string) : path :=
  ["storage"; ".meta"] ++ split_slash f.

(** [q] is a directory above [p]: a proper, non-empty prefix. *)
Definition ancestor (q p : path) : Prop :=
  exists rest, q <> [] /\ rest <> [] /\ p = q ++ rest.

(** What a computation confined to the directory [root] leaves of the
    rest of the store: every entry that is not below [root] is kept as
    it was, and an entry that is new there is a directory above
    [root]. *)
Definition outside_kept (root : path) : world -> world -> option exn -> Prop :=
  fun w w' _ =>
    forall k, ~ root `prefix_of` k ->
      (forall v, w_fs w !! k = Some v -> w_fs w' !! k = Some v)
      /\ (forall v, w_fs w' !! k = Some v ->
            w_fs w !! k = Some v \/ (v = NDir /\ ancestor k root)).

(** A relative file name whose segments lead through [root]. *)
Definition lies_below (root : path) (s : string) : Prop :=
  is_absolute s = false -> root `prefix_of` clean (split_slash s).

(** The name [x] is not the identifier of any item of a listing the
    remote answered with. *)
Definition not_listed (key : string) (listing : json) (x : string) : Prop :=
  exists items names,
    py_iter listing = Ok items
    /\ map_result (fun y => py_getitem y key) items = Ok names
    /\ py_in (JStr x) names = false.

(** What the remote accounts for: a write stores the answer to the
    request that belongs to the file (for [toc.yaml], the [toc_yml]
    field of the repository record), a removal is of a name the listing
    no longer has. *)
Inductive accounted (sdk : remote) : event -> Prop :=
| acc_get api : accounted sdk (EGet api)
| acc_log l m : accounted sdk (ELog l m)
| acc_user j :
    sdk "user" = Some j ->
    accounted sdk (EWrite SUser (meta_dir +:+ "/user.json") (content_of j))
| acc_repo_list login j :
    sdk ("users/" +:+ login +:+ "/repos") = Some j ->
    accounted sdk
      (EWrite SRepoList (meta_dir +:+ "/" +:+ login +:+ "/repos.json")
         (content_of j))
| acc_repo_detail namespace j :
    sdk ("repos/" +:+ namespace) = Some j ->
    accounted sdk
      (EWrite SRepoDetail (meta_dir +:+ "/" +:+ namespace +:+ "/repo.json")
         (content_of j))
| acc_toc namespace j toc :
    sdk ("repos/" +:+ namespace) = Some j ->
    py_getitem j "toc_yml" = Ok toc ->
    accounted sdk
      (EWrite SToc (meta_dir +:+ "/" +:+ namespace +:+ "/toc.yaml")
         (content_of toc))
| acc_doc_list namespace j :
    sdk ("repos/" +:+ namespace +:+ "/docs") = Some j ->
    accounted sdk
      (EWrite SDocList (meta_dir +:+ "/" +:+ namespace +:+ "/docs.json")
         (content_of j))
| acc_doc_detail namespace name j :
    sdk ("repos/" +:+ namespace +:+ "/docs/" +:+ name) = Some j ->
    accounted sdk
      (EWrite SDocDetail
         (meta_dir +:+ "/" +:+ namespace +:+ "/docs/" +:+ name +:+ ".json")
         (content_of j))
| acc_remove namespace docs x :
    sdk ("repos/" +:+ namespace +:+ "/docs") = Some docs ->
    not_listed doc_id_key docs x ->
    accounted sdk
      (ERemove (meta_dir +:+ "/" +:+ namespace +:+ "/" +:+ x +:+ ".json"))
| acc_rmtree login repos x :
    sdk ("users/" +:+ login +:+ "/repos") = Some repos ->
    not_listed repo_id_key repos x ->
    accounted sdk (ERmtree (meta_dir +:+ "/" +:+ login +:+ "/" +:+ x)).

Definition all_accounted (sdk : remote) : list event -> option exn -> Prop :=
  fun d _ => Forall (accounted sdk) d.

(** The entries below [dir] that were in the store are still there. *)
Definition entries_stay (dir : path) : world -> world -> option exn -> Prop :=
  fun w w' _ =>
    fs_wf (w_fs w) ->
    fs_wf (w_fs w')
    /\ forall k, dir `prefix_of` k -> is_Some (w_fs w !! k) -> is_Some (w_fs w' !! k).

(** A document record of a listing: its slug is a string without a
    slash. *)
Definition doc_record (doc : json) (slug : string) : Prop :=
  py_getitem doc doc_id_key = Ok (JStr slug) /\ split_slash slug = [slug].

(** Nothing is added to the store. *)
Definition shrinks : world -> world -> option exn -> Prop :=
  fun w w' _ => forall k v, w_fs w' !! k = Some v -> w_fs w !! k = Some v.

(** The store holds, where [save_to_storage] puts the detail of the
    document [slug] of [namespace], what the remote answers for it. *)
Definition detail_cached (sdk : remote) (namespace : string)
    (fs : gmap path node) (slug : string) : Prop :=
  exists p,
    resolve (meta_dir +:+ "/" +:+ namespace +:+ "/docs/" +:+ slug +:+ ".json")
    = Some p
    /\ p = ("storage" :: ".meta" :: clean (split_slash namespace))
           ++ ["docs"; slug +:+ ".json"]
    /\ forall detail,
         sdk ("repos/" +:+ namespace +:+ "/docs/" +:+ slug) = Some detail ->
         fs !! p = Some (NFile (content_of detail)).

Definition is_log (e : event) : Prop :=
  match e with
  | ELog _ _ => True
  | _ => False
  end.

(** The computation leaves the store as it was and does nothing but
    log. *)
Definition only_logs : world -> world -> option exn -> Prop :=
  fun w w' _ =>
    w_fs w' = w_fs w
    /\ exists d, w_trace w' = w_trace w ++ d /\ Forall is_log d.

(** The log file.  [setup_logging] opens [{meta_dir}/main.log] with mode
    ['w'] and the handler writes every log line to it: each run
    truncates and rewrites that file.  The model keeps the log lines as
    [ELog] events and leaves the file out of the store, so a statement
    about the whole store is stated apart from this path. *)
Definition main_log_key : path := ["storage"; ".meta"; "main.log"].

(** The loop over the documents fetches [doc]: there is no cached list,
    or the list has no record with its slug, or the first such record is
    reported older than [doc]. *)
Definition to_fetch (parse : string -> option datetime) (cached_docs doc : json)
  : Prop :=
  cached_docs = JNull
  \/ (cached_docs <> JNull
      /\ (candidates cached_docs doc doc_id_key = Ok []
          \/ exists c rest,
               candidates cached_docs doc doc_id_key = Ok (c :: rest)
               /\ has_update parse c doc = Ok true)).

(** A cache with the directory of a repository [gone] that the remote
    does not list. *)
Definition stale_repo_world : world :=
  World {[ ["storage"] := NDir;
           ["storage"; ".meta"] := NDir;
           ["storage"; ".meta"; "u"] := NDir;
           ["storage"; ".meta"; "u"; "gone"] := NDir;
           ["storage"; ".meta"; "u"; "gone"; "repo.json"] :=
             NFile (CJson (repo_detail_r T0)) ]} [].

(** What the remote accounts for in a call of [crawl_repo] for
    [namespace]: every request is for the repository, its document list
    or one of its documents, every write stores the answer to the
    request for that namespace that belongs to the file, every removal
    is of a name the document list of that namespace does not have. *)
Inductive accounted_in (sdk : remote) (namespace : string) : event -> Prop :=
| in_get_repo : accounted_in sdk namespace (EGet ("repos/" +:+ namespace))
| in_get_docs :
    accounted_in sdk namespace (EGet ("repos/" +:+ namespace +:+ "/docs"))
| in_get_doc name :
    accounted_in sdk namespace
      (EGet ("repos/" +:+ namespace +:+ "/docs/" +:+ name))
| in_log l m : accounted_in sdk namespace (ELog l m)
| in_repo_detail j :
    sdk ("repos/" +:+ namespace) = Some j ->
    accounted_in sdk namespace
      (EWrite SRepoDetail (meta_dir +:+ "/" +:+ namespace +:+ "/repo.json")
         (content_of j))
| in_toc j toc :
    sdk ("repos/" +:+ namespace) = Some j ->
    py_getitem j "toc_yml" = Ok toc ->
    accounted_in sdk namespace
      (EWrite SToc (meta_dir +:+ "/" +:+ namespace +:+ "/toc.yaml")
         (content_of toc))
| in_doc_list j :
    sdk ("repos/" +:+ namespace +:+ "/docs") = Some j ->
    accounted_in sdk namespace
      (EWrite SDocList (meta_dir +:+ "/" +:+ namespace +:+ "/docs.json")
         (content_of j))
| in_doc_detail name j :
    sdk ("repos/" +:+ namespace +:+ "/docs/" +:+ name) = Some j ->
    accounted_in sdk namespace
      (EWrite SDocDetail
         (meta_dir +:+ "/" +:+ namespace +:+ "/docs/" +:+ name +:+ ".json")
         (content_of j))
| in_remove docs x :
    sdk ("repos/" +:+ namespace +:+ "/docs") = Some docs ->
    not_listed doc_id_key docs x ->
    accounted_in sdk namespace
      (ERemove (meta_dir +:+ "/" +:+ namespace +:+ "/" +:+ x +:+ ".json")).

Definition all_accounted_in (sdk : remote) (namespace : string)
  : list event -> option exn -> Prop :=
  fun d _ => Forall (accounted_in sdk namespace) d.

(** The events that end a call of [crawl_repo]: none when the call has
    raised [RequestFailed]. *)
Definition no_tail_if_request_failed : list event -> option exn -> Prop :=
  fun fin o => fin = [] \/ o <> Some RequestFailed.

(** * Properties *)

(** ** The timestamp comparator *)

(** What [has_update] computes on two parsed timestamps: the [seconds]
    field of the normalised difference, which is the difference in whole
    seconds modulo one day. *)
Lemma has_update_seconds (parse : string -> option datetime)
    (cached d : json) (sc sd : string) (tc td : datetime) (delta : timedelta) :
  py_getitem cached "updated_at" = Ok (JStr sc) ->
  py_getitem d "updated_at" = Ok (JStr sd) ->
  parse sc = Some tc ->
  parse sd = Some td ->
  datetime_sub td tc = Ok delta ->
  has_update parse cached d = Ok (0 <? seconds delta)%Z.
Proof.
  intros Hc Hd Hpc Hpd Hsub.
  unfold has_update, has_update_key.
  rewrite Hc; simpl. rewrite Hpc; simpl.
  rewrite Hd; simpl. rewrite Hpd; simpl.
  rewrite Hsub; reflexivity.
Qed.

Lemma datetime_sub_self (t : datetime) :
  datetime_sub t t = Ok (timedelta_of_us 0).
Proof.
  unfold datetime_sub. destruct (dt_offset t); do 2 f_equal; lia.
Qed.

(** Comparing a record with itself never reports an update. *)
Lemma has_update_same (parse : string -> option datetime) (d : json) (b : bool) :
  has_update parse d d = Ok b -> b = false.
Proof.
  unfold has_update, has_update_key.
  destruct (py_getitem d "updated_at") as [v|]; simpl; [|discriminate].
  destruct (parse_timestamp parse v) as [t|]; simpl; [|discriminate].
  rewrite datetime_sub_self. intros H; vm_compute in H. congruence.
Qed.

(** C1 (code defect): [has_update] looks at the [seconds] field of the
    difference instead of its sign.  A remote timestamp one second
    earlier than the cached one is reported as an update, and a remote
    timestamp exactly one day later is not; two seconds later and equal
    timestamps behave as stated. *)
Theorem has_update_backward_second_reported :
  has_update iso_parse (stamped T0 []) (stamped T0_minus_1s []) = Ok true
  /\ has_update iso_parse (stamped T0 []) (stamped T0_plus_1day []) = Ok false
  /\ has_update iso_parse (stamped T0 []) (stamped T0_plus_2s []) = Ok true
  /\ has_update iso_parse (stamped T0 []) (stamped T0 []) = Ok false.
Proof. repeat split; vm_compute; reflexivity. Qed.

(** ** First run and orphan removal *)

(** C6 (code defect): on an empty store the run stops in
    [get_local_repo_names], whose [os.listdir] has no guard for a missing
    directory: the account record has been written, no repository is
    fetched. *)
Theorem first_run_raises_file_not_found :
  snd (main iso_parse one_doc_remote empty_world) = Raise FileNotFoundError
  /\ w_trace (after_sync one_doc_remote empty_world)
     = [EGet "user";
        EWrite SUser "storage/.meta/user.json" (CJson user_u);
        EGet "users/u/repos"].
Proof. split; vm_compute; reflexivity. Qed.

(** C2 (code defect): the deletion pass of [crawl_repo] lists the names
    under [{namespace}/docs] but removes [{namespace}/{name}.json]: the
    detail of a document that left the remote listing stays in the
    store. *)
Theorem orphan_detail_survives_sync :
  snd (main iso_parse one_doc_remote orphan_world) = Ok tt
  /\ one_doc_remote "repos/u/r/docs" = Some (JArr [doc_entry "d" T0])
  /\ w_fs (after_sync one_doc_remote orphan_world)
       !! ["storage"; ".meta"; "u"; "r"; "docs"; "old.json"]
     = Some (NFile (CJson (doc_detail "old" "stale")))
  /\ List.filter (fun e => match e with
                           | ERemove _ | ERmtree _ => true
                           | _ => false
                           end)
       (w_trace (after_sync one_doc_remote orphan_world)) = [].
Proof. repeat split; vm_compute; reflexivity. Qed.

(** ** Reading a record that is not there *)

Lemma bind_ok {A B} (m : M A) (k : A -> M B) (w w1 : world) (a : A) :
  m w = (w1, Ok a) -> bind m k w = k a w1.
Proof. intros H. unfold bind. rewrite H. reflexivity. Qed.

Lemma bind_raise {A B} (m : M A) (k : A -> M B) (w w1 : world) (e : exn) :
  m w = (w1, Raise e) -> bind m k w = (w1, Raise e).
Proof. intros H. unfold bind. rewrite H. reflexivity. Qed.

Lemma bind_lift_ok {A B} (r : result A) (k : A -> M B) (w : world) (a : A) :
  r = Ok a -> bind (lift r) k w = k a w.
Proof. intros ->. reflexivity. Qed.


Lemma bind_ext {A B} (m : M A) (k k' : A -> M B) (w : world) :
  (forall a w1, k a w1 = k' a w1) -> bind m k w = bind m k' w.
Proof. intros H. unfold bind. destruct (m w) as [w1 [a|e]]; auto. Qed.

Lemma os_path_exists_absent (w : world) (file : string) :
  no_record w file -> os_path_exists file w = (w, Ok false).
Proof.
  intros (p & Hres & Hnode).
  unfold os_path_exists, with_path. rewrite Hres.
  unfold bind, get_fs, ret. rewrite Hnode. reflexivity.
Qed.

(** C9: reading a cached record at a path where the store holds nothing
    returns [None] and leaves the world as it is; so do the getters
    derived from [Cache.request]. *)
Theorem cache_request_absent_returns_none (w : world) (api : string)
    (cache_name : option string) :
  no_record w (Cache.cache_path api cache_name) ->
  Cache.request api cache_name w = (w, Ok JNull)
  /\ (forall user, api = "user" -> cache_name = None ->
        Cache.get_user user w = (w, Ok JNull))
  /\ (forall user, api = user +:+ "/repos" -> cache_name = None ->
        Cache.get_repos user w = (w, Ok JNull))
  /\ (forall namespace, api = namespace +:+ "/repo" -> cache_name = None ->
        Cache.get_repo_detail namespace w = (w, Ok JNull))
  /\ (forall namespace, api = namespace +:+ "/docs" -> cache_name = None ->
        Cache.get_docs namespace w = (w, Ok JNull))
  /\ (forall namespace name,
        api = namespace +:+ "/docs/" +:+ name -> cache_name = None ->
        Cache.get_doc_detail namespace name w = (w, Ok JNull)).
Proof.
  intros Habs.
  assert (Hreq : Cache.request api cache_name w = (w, Ok JNull)).
  { unfold Cache.request.
    rewrite (bind_ok _ _ _ _ _ (os_path_exists_absent _ _ Habs)).
    reflexivity. }
  split; [exact Hreq|].
  repeat split; intros; subst; exact Hreq.
Qed.

Lemma cache_request_absent_returns_none_witness :
  Cache.get_repos "u" empty_world = (empty_world, Ok JNull).
Proof.
  refine (proj1 (proj2 (proj2
    (cache_request_absent_returns_none empty_world "u/repos" None _))) "u" _ _).
  - exists ["storage"; ".meta"; "u"; "repos.json"]. split; reflexivity.
  - reflexivity.
  - reflexivity.
Defined.

(** ** Loops *)

Lemma for_enum_app_ok {A} (body : nat -> A -> M unit) (pre post : list A) :
  forall (i : nat) (w w1 : world),
    for_enum body i pre w = (w1, Ok tt) ->
    for_enum body i (pre ++ post) w = for_enum body (i + length pre) post w1.
Proof.
  induction pre as [|x pre IH]; intros i w w1 H; simpl in *.
  - unfold ret in H. inversion H; subst. rewrite Nat.add_0_r. reflexivity.
  - unfold bind in *. destruct (body i x w) as [w0 [[]|e]]; [|discriminate].
    rewrite (IH _ _ _ H). f_equal. lia.
Qed.

Lemma for_enum_app_raise {A} (body : nat -> A -> M unit) (pre post : list A)
    (x : A) (i : nat) (w w1 w2 : world) (e : exn) :
  for_enum body i pre w = (w1, Ok tt) ->
  body (i + length pre) x w1 = (w2, Raise e) ->
  for_enum body i (pre ++ x :: post) w = (w2, Raise e).
Proof.
  intros Hpre Hx. rewrite (for_enum_app_ok _ _ _ _ _ _ Hpre). simpl.
  apply bind_raise. exact Hx.
Qed.

(** ** Matching a remote entity with its cached counterpart *)

Lemma same_id_matches (key : string) (d x : json) (b : bool) :
  same_id key d x b -> id_matches key d x = Ok b.
Proof.
  intros (a & c & Ha & Hd & Heq). unfold id_matches.
  rewrite Ha; simpl. rewrite Hd; simpl. congruence.
Qed.

Lemma filter_result_cons {A} (p : A -> result bool) (x : A) (xs ys : list A)
    (b : bool) :
  p x = Ok b -> filter_result p xs = Ok ys ->
  filter_result p (x :: xs) = Ok (if b then x :: ys else ys).
Proof. intros Hx Hxs. simpl. rewrite Hx; simpl. rewrite Hxs. reflexivity. Qed.

Lemma filter_result_has_id (key : string) (d : json) (c0 : json) (xs : list json) :
  py_getitem d key = Ok c0 ->
  Forall (has_id key) xs ->
  exists ys, filter_result (id_matches key d) xs = Ok ys.
Proof.
  intros Hd. induction 1 as [|x xs [a Ha] _ [ys IH]].
  - exists []. reflexivity.
  - eexists. apply filter_result_cons; [|exact IH].
    unfold id_matches. rewrite Ha; simpl. rewrite Hd. reflexivity.
Qed.

Lemma candidates_first (key : string) (d c : json) (pre post : list json) :
  Forall (fun x => same_id key d x false) pre ->
  same_id key d c true ->
  Forall (has_id key) post ->
  exists rest, candidates (JArr (pre ++ c :: post)) d key = Ok (c :: rest).
Proof.
  intros Hpre Hc Hpost.
  assert (Hd : exists c0, py_getitem d key = Ok c0).
  { destruct Hc as (a & c0 & _ & Hd & _). eauto. }
  destruct Hd as [c0 Hd].
  destruct (filter_result_has_id key d c0 post Hd Hpost) as [ys Hys].
  unfold candidates; simpl.
  induction Hpre as [|x pre Hx _ [rest IH]].
  - exists ys. apply (filter_result_cons _ _ _ _ true); [|exact Hys].
    apply same_id_matches, Hc.
  - exists rest. apply (filter_result_cons _ _ _ _ false); [|exact IH].
    apply same_id_matches, Hx.
Qed.

(** C10: when the cached list holds several records with the identifier
    of a remote entity, the first of them in the order of the list
    decides.  The loop bodies of [crawl_repo] and [main] compare the
    entity with that record alone: the entity is fetched exactly when
    [has_update] reports the first match as older, and the records
    before and after it play no part in what the body does. *)
Theorem first_cached_match_decides (parse : string -> option datetime)
    (sdk : remote) (namespace : string) (n i : nat) (entity c : json)
    (pre post : list json) (w : world) :
  Forall (fun x => same_id "slug" entity x false) pre ->
  same_id "slug" entity c true ->
  Forall (has_id "slug") post ->
  crawl_doc parse sdk namespace (JArr (pre ++ c :: post)) n i entity w
  = (let! updated := lift (has_update parse c entity) in
     if updated then fetch_doc sdk namespace n i entity
     else
       let! title := lift (rbind (py_getitem entity "title") py_str) in
       log Info (MsgDocNoUpdate title (i + 1) n)) w
  /\ crawl_repo_entry parse sdk (JArr (pre ++ c :: post)) n i entity w
     = (let! name := lift (rbind (py_getitem entity "name") py_str) in
        do! log Info (MsgCrawlingRepo name (i + 1) n) in
        let! updated := lift (has_update parse c entity) in
        if updated then crawl_namespace_of parse sdk entity
        else log Warning MsgNoUpdate) w.
Proof.
  intros Hpre Hc Hpost.
  destruct (candidates_first "slug" entity c pre post Hpre Hc Hpost) as [rest Hfull].
  split.
  - unfold crawl_doc, doc_id_key.
    rewrite (bind_lift_ok _ _ _ _ Hfull). reflexivity.
  - unfold crawl_repo_entry, repo_id_key.
    apply bind_ext; intros name w1. apply bind_ext; intros [] w2.
    rewrite (bind_lift_ok _ _ _ _ Hfull). reflexivity.
Qed.

Lemma first_cached_match_decides_witness :
  has_update iso_parse (doc_entry "d" T0_plus_2s) (doc_entry "d" T0) = Ok true
  /\ crawl_doc iso_parse one_doc_remote "u/r" (JArr duplicate_cache) 1 0
       (doc_entry "d" T0) empty_world
     = (add_events empty_world [ELog Info (MsgDocNoUpdate "d" 1 1)], Ok tt).
Proof.
  split; [vm_compute; reflexivity|].
  etransitivity.
  - refine (proj1 (first_cached_match_decides iso_parse one_doc_remote "u/r" 1 0
      (doc_entry "d" T0) (doc_entry "d" T0) [doc_entry "a" T0]
      [doc_entry "d" T0_plus_2s] empty_world _ _ _)).
    + repeat constructor. exists (JStr "a"), (JStr "d"). repeat split; reflexivity.
    + exists (JStr "d"), (JStr "d"). repeat split; reflexivity.
    + repeat constructor. exists (JStr "d"). reflexivity.
  - vm_compute. reflexivity.
Defined.

(** ** The repository-level shortcut *)

(** C3 as stated fails: the cached repository record is not older than
    the remote one, the remote document is two seconds newer than the
    cached one, and the run neither requests nor rewrites the detail of
    the document. *)
Lemma unchanged_repository_masks_document_update :
  w_fs synced_world !! ["storage"; ".meta"; "u"; "repos.json"]
  = Some (NFile (CJson (JArr [repo_entry_r T0])))
  /\ w_fs synced_world !! ["storage"; ".meta"; "u"; "r"; "docs.json"]
     = Some (NFile (CJson (JArr [doc_entry "d" T0])))
  /\ has_update iso_parse (repo_entry_r T0) (repo_entry_r T0) = Ok false
  /\ has_update iso_parse (doc_entry "d" T0) (doc_entry "d" T0_plus_2s) = Ok true
  /\ snd (main iso_parse doc_updated_remote synced_world) = Ok tt
  /\ w_trace (after_sync doc_updated_remote synced_world)
     = [EGet "user"; EGet "users/u/repos";
        ELog Info (MsgCrawlingRepo "R" 1 1); ELog Warning MsgNoUpdate;
        EWrite SRepoList "storage/.meta/u/repos.json"
          (CJson (JArr [repo_entry_r T0]))]
  /\ w_fs (after_sync doc_updated_remote synced_world)
       !! ["storage"; ".meta"; "u"; "r"; "docs"; "d.json"]
     = Some (NFile (CJson (doc_detail "d" "hello"))).
Proof. repeat split; vm_compute; reflexivity. Qed.

(** C3 amended: a repository whose cached record does not compare as
    older is not scanned.  [main] skips it after the two log lines when
    the first cached list entry with its slug is not older, whatever the
    remote holds for the repository; and [crawl_repo] returns right
    after the request for the repository record when the cached
    [repo.json] is not older.  In both cases no document list or detail
    is requested and nothing is written, so a document that is newer on
    the remote than in the cache is not fetched. *)
Theorem unchanged_repository_is_not_scanned (parse : string -> option datetime)
    (sdk : remote) :
  (forall (cached_repos repo c : json) (rest : list json) (name : string)
          (n i : nat) (w : world),
      cached_repos <> JNull ->
      candidates cached_repos repo "slug" = Ok (c :: rest) ->
      has_update parse c repo = Ok false ->
      rbind (py_getitem repo "name") py_str = Ok name ->
      crawl_repo_entry parse sdk cached_repos n i repo w
      = (add_events w [ELog Info (MsgCrawlingRepo name (i + 1) n);
                       ELog Warning MsgNoUpdate], Ok tt))
  /\ (forall (namespace : string) (cached_detail repo_detail : json) (w : world),
        Cache.get_repo_detail namespace w = (w, Ok cached_detail) ->
        cached_detail <> JNull ->
        sdk ("repos/" +:+ namespace) = Some repo_detail ->
        has_update parse cached_detail repo_detail = Ok false ->
        crawl_repo parse sdk namespace w
        = (add_events w [EGet ("repos/" +:+ namespace)], Ok tt)).
Proof.
  split.
  - intros cached_repos repo c rest name n i w Hcached Hcands Hold Hname.
    unfold crawl_repo_entry, repo_id_key.
    rewrite (bind_lift_ok _ _ _ _ Hname).
    unfold bind at 1, log, emit; simpl.
    assert (Hgo : forall w0,
      (let! cs := lift (candidates cached_repos repo "slug") in
       match cs with
       | [] => crawl_namespace_of parse sdk repo
       | cached_repo :: _ =>
           let! updated := lift (has_update parse cached_repo repo) in
           if updated then crawl_namespace_of parse sdk repo
           else emit (ELog Warning MsgNoUpdate)
       end) w0 = (add_events w0 [ELog Warning MsgNoUpdate], Ok tt)).
    { intros w0. rewrite (bind_lift_ok _ _ _ _ Hcands).
      rewrite (bind_lift_ok _ _ _ _ Hold). reflexivity. }
    destruct cached_repos; try congruence; rewrite Hgo;
      unfold add_events; simpl; rewrite <- app_assoc; reflexivity.
  - intros namespace cached_detail repo_detail w Hread Hdetail Hget Hold'.
    unfold crawl_repo.
    rewrite (bind_ok _ _ _ _ _ Hread).
    unfold SDK.get_repo_detail, SDK.request.
    unfold bind at 2, emit; simpl. unfold bind at 2, lift. rewrite Hget; simpl.
    assert (Hp : forall w0,
      match cached_detail with
      | JNull => ret true
      | _ => lift (has_update parse cached_detail repo_detail)
      end w0 = (w0, Ok false)).
    { intros w0. destruct cached_detail; try congruence;
        unfold lift; rewrite Hold'; reflexivity. }
    unfold bind. rewrite Hp. reflexivity.
Qed.

Lemma unchanged_repository_is_not_scanned_witness :
  crawl_repo_entry iso_parse doc_updated_remote (JArr [repo_entry_r T0]) 1 0
    (repo_entry_r T0) synced_world
  = (add_events synced_world [ELog Info (MsgCrawlingRepo "R" (0 + 1) 1);
                              ELog Warning MsgNoUpdate], Ok tt)
  /\ crawl_repo iso_parse doc_updated_remote "u/r" synced_world
     = (add_events synced_world [EGet ("repos/" +:+ "u/r")], Ok tt).
Proof.
  split.
  - apply (proj1 (unchanged_repository_is_not_scanned iso_parse doc_updated_remote)
             (JArr [repo_entry_r T0]) (repo_entry_r T0) (repo_entry_r T0) []
             "R" 1 0 synced_world).
    + discriminate.
    + vm_compute; reflexivity.
    + vm_compute; reflexivity.
    + vm_compute; reflexivity.
  - apply (proj2 (unchanged_repository_is_not_scanned iso_parse doc_updated_remote)
             "u/r" (repo_detail_r T0) (repo_detail_r T0) synced_world).
    + vm_compute; reflexivity.
    + discriminate.
    + vm_compute; reflexivity.
    + vm_compute; reflexivity.
Defined.

(** ** Timestamps that cannot be compared *)





(** ** Composing properties of runs *)

Section Structural.

Context (Rel : world -> world -> option exn -> Prop) `{!StepRel Rel}.

Lemma sat_ret {A} (a : A) : sat Rel (ret a).
Proof. intros w w' r H. inversion H; subst. apply step_refl. Qed.

Lemma sat_raise {A} (e : exn) : sat Rel (@raise A e).
Proof. intros w w' r H. inversion H; subst. apply step_refl. Qed.

Lemma sat_lift {A} (r : result A) : sat Rel (lift r).
Proof. intros w w' r' H. inversion H; subst. apply step_refl. Qed.

Lemma sat_get_fs : sat Rel get_fs.
Proof. intros w w' r H. inversion H; subst. apply step_refl. Qed.

Lemma sat_bind {A B} (m : M A) (k : A -> M B) :
  sat Rel m -> (forall a, sat Rel (k a)) -> sat Rel (bind m k).
Proof.
  intros Hm Hk w w' r H. unfold bind in H.
  destruct (m w) as [w1 [a|e]] eqn:E.
  - eapply step_trans; [exact (Hm _ _ _ E)|exact (Hk _ _ _ _ H)].
  - inversion H; subst. exact (Hm _ _ _ E).
Qed.

Lemma sat_bind_lift {A B} (r : result A) (k : A -> M B) :
  (forall a, r = Ok a -> sat Rel (k a)) -> sat Rel (bind (lift r) k).
Proof.
  intros Hk w w' r' H. unfold bind, lift in H. destruct r as [a|e].
  - exact (Hk a eq_refl _ _ _ H).
  - inversion H; subst. apply step_refl.
Qed.

Lemma sat_with_path {A} (s : string) (k : path -> M A) :
  (forall p, resolve s = Some p -> sat Rel (k p)) -> sat Rel (with_path s k).
Proof.
  intros Hk. unfold with_path. destruct (resolve s) as [p|].
  - apply Hk; reflexivity.
  - apply sat_raise.
Qed.

Lemma sat_for_each {A} (body : A -> M unit) (xs : list A) :
  (forall x, In x xs -> sat Rel (body x)) -> sat Rel (for_each body xs).
Proof.
  induction xs as [|x xs IH]; intros Hb; simpl.
  - apply sat_ret.
  - apply sat_bind; [apply Hb; left; reflexivity|].
    intros _. apply IH. intros y Hy. apply Hb. right; exact Hy.
Qed.

Lemma sat_for_enum {A} (body : nat -> A -> M unit) (xs : list A) :
  forall i, (forall j x, In x xs -> sat Rel (body j x)) ->
            sat Rel (for_enum body i xs).
Proof.
  induction xs as [|x xs IH]; intros i Hb; simpl.
  - apply sat_ret.
  - apply sat_bind; [apply Hb; left; reflexivity|].
    intros _. apply IH. intros j y Hy. apply Hb. right; exact Hy.
Qed.

Lemma sat_filter_M {A} (p : A -> M bool) (xs : list A) :
  (forall x, In x xs -> sat Rel (p x)) -> sat Rel (filter_M p xs).
Proof.
  induction xs as [|x xs IH]; intros Hp; simpl.
  - apply sat_ret.
  - apply sat_bind; [apply Hp; left; reflexivity|].
    intros b. apply sat_bind; [|intros ys; apply sat_ret].
    apply IH. intros y Hy. apply Hp. right; exact Hy.
Qed.

End Structural.

Ltac sat_step :=
  first
    [ apply sat_ret; typeclasses eauto
    | apply sat_raise; typeclasses eauto
    | apply sat_lift; typeclasses eauto
    | apply sat_get_fs; typeclasses eauto
    | apply sat_bind_lift; [typeclasses eauto|]; intros ? ?
    | apply sat_bind; [typeclasses eauto| |intros ?]
    | apply sat_with_path; [typeclasses eauto|]; intros ? ?
    | match goal with
      | |- sat _ (match ?x with _ => _ end) => destruct x
      end ].

#[global] Instance unchanged_step : StepRel unchanged.
Proof.
  split; unfold unchanged.
  - reflexivity.
  - intros; congruence.
Qed.

#[global] Instance trace_rel_step (J : list event -> option exn -> Prop)
  `{!TraceInv J} : StepRel (trace_rel J).
Proof.
  split; unfold trace_rel.
  - intros w o. exists []. rewrite app_nil_r. split; [reflexivity|apply inv_nil].
  - intros w1 w2 w3 o (d1 & E1 & J1) (d2 & E2 & J2).
    exists (d1 ++ d2). rewrite E2, E1, app_assoc.
    split; [reflexivity|apply inv_app; assumption].
Qed.

#[global] Instance quiet_inv (allowed : site -> Prop) : TraceInv (quiet allowed).
Proof.
  split; unfold quiet.
  - intros _. constructor.
  - intros d1 d2 _ H1 H2. apply Forall_app; split; assumption.
Qed.

#[global] Instance fail_last_inv (sdk : remote) : TraceInv (fail_last sdk).
Proof.
  split; unfold fail_last.
  - intros o. left. constructor.
  - intros d1 d2 o [H1|(d' & api & _ & _ & _ & Ho)] H2; [|discriminate].
    destruct H2 as [H2|(d' & api & -> & Hn & H2 & ->)].
    + left. apply Forall_app; split; assumption.
    + right. exists (d1 ++ d'), api. rewrite app_assoc.
      repeat split; try assumption. apply Forall_app; split; assumption.
Qed.

(** *** Computations that only read *)

Lemma readonly_sat (Rel : world -> world -> option exn -> Prop) `{!StepRel Rel}
    {A} (m : M A) :
  sat unchanged m -> sat Rel m.
Proof. intros H w w' r E. rewrite (H _ _ _ E). apply step_refl. Qed.

Lemma os_path_exists_readonly (s : string) : sat unchanged (os_path_exists s).
Proof. unfold os_path_exists. repeat sat_step. Qed.

Lemma os_path_isdir_readonly (s : string) : sat unchanged (os_path_isdir s).
Proof. unfold os_path_isdir. repeat sat_step. Qed.

Lemma os_listdir_readonly (s : string) : sat unchanged (os_listdir s).
Proof. unfold os_listdir. repeat sat_step. Qed.

Lemma json_load_readonly (s : string) : sat unchanged (json_load s).
Proof. unfold json_load. repeat sat_step. Qed.

Lemma cache_request_readonly (api : string) (cache_name : option string) :
  sat unchanged (Cache.request api cache_name).
Proof.
  unfold Cache.request. apply sat_bind; [apply _| |].
  - apply os_path_exists_readonly.
  - intros []; [apply json_load_readonly|apply sat_ret, _].
Qed.

Lemma get_doc_names_readonly (namespace : string) :
  sat unchanged (Cache.get_doc_names namespace).
Proof.
  unfold Cache.get_doc_names.
  apply sat_bind; [apply _|apply os_path_exists_readonly|].
  intros found. apply sat_bind; [apply _| |intros; apply sat_ret, _].
  destruct found; [|apply sat_ret, _].
  apply sat_bind; [apply _|apply os_listdir_readonly|intros; apply sat_ret, _].
Qed.

Lemma get_local_repo_names_readonly (user : string) :
  sat unchanged (Cache.get_local_repo_names user).
Proof.
  unfold Cache.get_local_repo_names.
  apply sat_bind; [apply _|apply os_listdir_readonly|].
  intros names. apply sat_filter_M; [apply _|].
  intros x _. apply os_path_isdir_readonly.
Qed.

(** *** Events of the file-system calls *)

Section TraceBasics.

Context (J : list event -> option exn -> Prop) `{!TraceInv J}.

Lemma emit_sat (e : event) : J [e] None -> sat (trace_rel J) (emit e).
Proof.
  intros He w w' r H. inversion H; subst. exists [e]. split; [reflexivity|exact He].
Qed.

Lemma put_fs_sat (fs : gmap path node) : sat (trace_rel J) (put_fs fs).
Proof.
  intros w w' r H. inversion H; subst. exists []. simpl.
  rewrite app_nil_r. split; [reflexivity|apply inv_nil].
Qed.

Lemma os_makedirs_sat (s : string) : sat (trace_rel J) (os_makedirs s).
Proof.
  unfold os_makedirs. repeat sat_step. apply put_fs_sat.
Qed.

End TraceBasics.

#[global] Instance silent_inv : TraceInv silent.
Proof.
  split; unfold silent.
  - reflexivity.
  - intros d1 d2 _ -> ->. reflexivity.
Qed.

Lemma write_file_one_write (st : site) (s : string) (c : content) :
  sat (trace_rel (one_write_if_ok st)) (write_file st s c).
Proof.
  intros w w' r H. unfold write_file, with_path in H.
  assert (Hfail : forall e, (w, Raise e) = (w', r) ->
            trace_rel (one_write_if_ok st) w w' (outcome r)).
  { intros e E. inversion E; subst. exists []. rewrite app_nil_r.
    split; [reflexivity|]. left. split; [reflexivity|discriminate]. }
  assert (Hok : forall fs, (World fs (w_trace w ++ [EWrite st s c]), Ok tt) = (w', r) ->
            trace_rel (one_write_if_ok st) w w' (outcome r)).
  { intros fs E. inversion E; subst. exists [EWrite st s c]. split; [reflexivity|].
    right. eauto. }
  unfold bind, get_fs, raise, put_fs, emit in H; simpl in H.
  repeat match type of H with
         | context [match ?t with _ => _ end] => destruct t
         end; eauto.
Qed.

Lemma save_to_storage_one_write (st : site) (filepath : string) (content : json) :
  sat (trace_rel (one_write_if_ok st)) (save_to_storage st filepath content).
Proof.
  intros w w' r H. unfold save_to_storage, bind in H.
  destruct (os_makedirs _ w) as [w1 [[]|e]] eqn:E.
  - destruct (os_makedirs_sat silent _ _ _ _ E) as (d & Hd & ->).
    rewrite app_nil_r in Hd.
    assert (Hw : exists c, write_file st (os_path_join meta_dir filepath) c w1 = (w', r)).
    { destruct content; eauto. }
    destruct Hw as [c Hw].
    destruct (write_file_one_write _ _ _ _ _ _ Hw) as (d & Hd' & HJ).
    exists d. rewrite <- Hd. split; assumption.
  - inversion H; subst.
    destruct (os_makedirs_sat silent _ _ _ _ E) as (d & Hd & ->).
    exists []. split; [exact Hd|]. left. split; [reflexivity|discriminate].
Qed.

(** *** The script, for a family of relations

    What holds of the calls that log, request, save and remove holds of
    the loops and functions built from them. *)

Section ScriptFamily.

Context (parse : string -> option datetime) (sdk : remote).
Context (Rel : world -> world -> option exn -> Prop) `{!StepRel Rel}.
Variable ok_save : site -> string -> Prop.
Variable ok_remove : string -> Prop.
Variable ok_rmtree : string -> Prop.
Hypothesis H_log : forall l m, sat Rel (log l m).
Hypothesis H_request : forall api, sat Rel (SDK.request sdk api).
Hypothesis H_save :
  forall st f c, ok_save st f -> sat Rel (save_to_storage st f c).
Hypothesis H_remove : forall s, ok_remove s -> sat Rel (os_remove s).
Hypothesis H_rmtree : forall s, ok_rmtree s -> sat Rel (shutil_rmtree s).

Lemma readonly_rel {A} (m : M A) : sat unchanged m -> sat Rel m.
Proof. apply readonly_sat, _. Qed.

Lemma remove_old_doc_gen (namespace : string) (doc_names : list json)
    (doc_name : string) :
  ok_remove (meta_dir +:+ "/" +:+ namespace +:+ "/" +:+ doc_name +:+ ".json") ->
  sat Rel (remove_old_doc namespace doc_names doc_name).
Proof.
  intros Hok. unfold remove_old_doc. destruct (negb _); [|apply sat_ret, _].
  apply sat_bind; [apply _|apply readonly_rel, os_path_exists_readonly|].
  intros []; [|apply sat_ret, _].
  apply sat_bind; [apply _|apply H_log|intros _; apply H_remove, Hok].
Qed.

Lemma fetch_doc_gen (namespace : string) (n i : nat) (doc : json) :
  (forall name,
      ok_save SDocDetail (namespace +:+ "/docs/" +:+ name +:+ ".json")) ->
  sat Rel (fetch_doc sdk namespace n i doc).
Proof.
  intros Hst. unfold fetch_doc.
  apply sat_bind_lift; [apply _|]; intros title _.
  apply sat_bind; [apply _|apply H_log|]; intros _.
  apply sat_bind_lift; [apply _|]; intros name _.
  apply sat_bind; [apply _|apply H_request|]; intros detail.
  apply H_save, Hst.
Qed.

Lemma crawl_doc_gen (namespace : string) (cached_docs : json) (n i : nat)
    (doc : json) :
  (forall name,
      ok_save SDocDetail (namespace +:+ "/docs/" +:+ name +:+ ".json")) ->
  sat Rel (crawl_doc parse sdk namespace cached_docs n i doc).
Proof.
  intros Hst. unfold crawl_doc.
  assert (Hgo : sat Rel
    (let! cs := lift (candidates cached_docs doc doc_id_key) in
     match cs with
     | [] => fetch_doc sdk namespace n i doc
     | cached_doc :: _ =>
         let! updated := lift (has_update parse cached_doc doc) in
         if updated then fetch_doc sdk namespace n i doc
         else
           let! title := lift (rbind (py_getitem doc "title") py_str) in
           log Info (MsgDocNoUpdate title (i + 1) n)
     end)).
  { apply sat_bind_lift; [apply _|]; intros [|c cs] _.
    - apply fetch_doc_gen; assumption.
    - apply sat_bind_lift; [apply _|]; intros [] _.
      + apply fetch_doc_gen; assumption.
      + apply sat_bind_lift; [apply _|]; intros title _. apply H_log. }
  destruct cached_docs; try exact Hgo. apply fetch_doc_gen; assumption.
Qed.

(** [crawl_repo] up to the end of its loop over the documents, then
    the three writes that follow it. *)
Lemma crawl_repo_scan_gen (namespace : string) :
  (forall name,
      ok_save SDocDetail (namespace +:+ "/docs/" +:+ name +:+ ".json")) ->
  (forall x,
      ok_remove (meta_dir +:+ "/" +:+ namespace +:+ "/" +:+ x +:+ ".json")) ->
  forall Rel' : world -> world -> option exn -> Prop,
    (forall w o, Rel' w w o) ->
    (forall A (m : M A) B (k : A -> M B),
        sat Rel m -> (forall a, sat Rel' (k a)) -> sat Rel' (bind m k)) ->
    (forall docs repo,
        sat Rel'
          (do! save_to_storage SDocList (namespace +:+ "/docs.json") docs in
           let! toc := lift (py_getitem repo "toc_yml") in
           do! save_to_storage SToc (namespace +:+ "/toc.yaml") toc in
           save_to_storage SRepoDetail (namespace +:+ "/repo.json") repo)) ->
    sat Rel' (crawl_repo parse sdk namespace).
Proof.
  intros Hst Hrm Rel' Hrefl Hbind Htail. unfold crawl_repo.
  apply Hbind; [apply readonly_rel, cache_request_readonly|]; intros cached_repo.
  apply Hbind; [apply H_request|]; intros repo.
  apply Hbind.
  { destruct cached_repo; first [apply sat_ret, _ | apply sat_lift, _]. }
  intros []; simpl; [|intros w w' r H; inversion H; subst; apply Hrefl].
  apply Hbind; [apply H_request|]; intros docs.
  apply Hbind; [apply sat_lift, _|]; intros items.
  apply Hbind; [apply sat_lift, _|]; intros doc_names.
  apply Hbind; [apply readonly_rel, get_doc_names_readonly|]; intros local_names.
  apply Hbind.
  { apply sat_for_each; [apply _|]. intros x _. apply remove_old_doc_gen, Hrm. }
  intros _.
  apply Hbind; [apply readonly_rel, cache_request_readonly|]; intros cached_docs.
  apply Hbind.
  { apply sat_for_enum; [apply _|]. intros j x _. apply crawl_doc_gen, Hst. }
  intros _. apply Htail.
Qed.

Lemma crawl_repo_gen (namespace : string) :
  namespace_paths_ok ok_save ok_remove namespace ->
  sat Rel (crawl_repo parse sdk namespace).
Proof.
  intros (H1 & H2 & H3 & H4 & H5).
  apply crawl_repo_scan_gen; [assumption|assumption|apply step_refl| |].
  - intros A m B k. apply sat_bind, _.
  - intros docs repo.
    apply sat_bind; [apply _|apply H_save, H2|]; intros _.
    apply sat_bind_lift; [apply _|]; intros toc _.
    apply sat_bind; [apply _|apply H_save, H3|]; intros _.
    apply H_save, H4.
Qed.

Lemma remove_old_repo_gen (login : string) (repo_names : list json)
    (repo_name : string) :
  ok_rmtree (meta_dir +:+ "/" +:+ login +:+ "/" +:+ repo_name) ->
  sat Rel (remove_old_repo login repo_names repo_name).
Proof.
  intros Hok. unfold remove_old_repo. destruct (negb _); [|apply sat_ret, _].
  apply sat_bind; [apply _|apply H_log|intros _; apply H_rmtree, Hok].
Qed.

Lemma crawl_repo_entry_gen (cached_repos : json) (n i : nat) (repo : json) :
  (forall namespace,
      rbind (py_getitem repo "namespace") py_str = Ok namespace ->
      namespace_paths_ok ok_save ok_remove namespace) ->
  sat Rel (crawl_repo_entry parse sdk cached_repos n i repo).
Proof.
  intros Hok.
  assert (Hns : sat Rel (crawl_namespace_of parse sdk repo)).
  { unfold crawl_namespace_of. apply sat_bind_lift; [apply _|]; intros ns Hns.
    apply crawl_repo_gen, Hok, Hns. }
  unfold crawl_repo_entry.
  apply sat_bind_lift; [apply _|]; intros name _.
  apply sat_bind; [apply _|apply H_log|]; intros _.
  assert (Hgo : sat Rel
    (let! cs := lift (candidates cached_repos repo repo_id_key) in
     match cs with
     | [] => crawl_namespace_of parse sdk repo
     | cached_repo :: _ =>
         let! updated := lift (has_update parse cached_repo repo) in
         if updated then crawl_namespace_of parse sdk repo
         else log Warning MsgNoUpdate
     end)).
  { apply sat_bind_lift; [apply _|]; intros [|c cs] _; [exact Hns|].
    apply sat_bind_lift; [apply _|]; intros [] _; [exact Hns|apply H_log]. }
  destruct cached_repos; try exact Hgo. exact Hns.
Qed.

(** [main] up to the end of its loop over the repositories, then the
    write of the repository list. *)
Lemma main_scan_gen :
  (forall s, sat Rel (os_makedirs s)) ->
  ok_save SUser "user.json" ->
  (forall namespace, namespace_paths_ok ok_save ok_remove namespace) ->
  (forall s, ok_rmtree s) ->
  forall Rel' : world -> world -> option exn -> Prop,
    (forall A (m : M A) B (k : A -> M B),
        sat Rel m -> (forall a, sat Rel' (k a)) -> sat Rel' (bind m k)) ->
    (forall login repos,
        sat Rel' (save_to_storage SRepoList (login +:+ "/repos.json") repos)) ->
    sat Rel' (main parse sdk).
Proof.
  intros Hmk H0 Hns Hrm Rel' Hbind Htail. unfold main.
  apply Hbind; [apply Hmk|]; intros _.
  apply Hbind; [apply readonly_rel, cache_request_readonly|]; intros cached.
  apply Hbind; [apply H_request|]; intros user_info.
  apply Hbind.
  { destruct cached; first [apply sat_ret, _ | apply sat_lift, _]. }
  intros updated.
  apply Hbind.
  { destruct updated; [apply H_save, H0|apply sat_ret, _]. }
  intros _.
  apply Hbind; [apply sat_lift, _|]; intros login.
  apply Hbind; [apply H_request|]; intros repos.
  apply Hbind; [apply sat_lift, _|]; intros items.
  apply Hbind; [apply sat_lift, _|]; intros repo_names.
  apply Hbind; [apply readonly_rel, get_local_repo_names_readonly|].
  intros local_names.
  apply Hbind.
  { apply sat_for_each; [apply _|]. intros x _. apply remove_old_repo_gen, Hrm. }
  intros _.
  apply Hbind; [apply readonly_rel, cache_request_readonly|]; intros cached_repos.
  apply Hbind.
  { apply sat_for_enum; [apply _|]. intros j x _.
    apply crawl_repo_entry_gen. intros ns _. apply Hns. }
  intros _. apply Htail.
Qed.

End ScriptFamily.

(** *** Events of the script, for a family of trace properties *)

Section TraceFamily.

Context (parse : string -> option datetime) (sdk : remote).
Context (J : list event -> option exn -> Prop) `{!TraceInv J}.
Variable allowed : site -> Prop.
Hypothesis J_log : forall l m, J [ELog l m] None.
Hypothesis J_remove : forall s, J [ERemove s] None.
Hypothesis J_rmtree : forall s, J [ERmtree s] None.
Hypothesis J_write : forall st s c, allowed st -> J [EWrite st s c] None.
Hypothesis J_request : forall api, sat (trace_rel J) (SDK.request sdk api).

Lemma log_sat (l : level) (m : log_msg) : sat (trace_rel J) (log l m).
Proof. apply emit_sat; auto. Qed.

Lemma write_file_sat (st : site) (s : string) (c : content) :
  allowed st -> sat (trace_rel J) (write_file st s c).
Proof.
  intros Hst. unfold write_file. repeat sat_step.
  all: first [apply put_fs_sat; assumption | apply emit_sat; auto].
Qed.

Lemma os_remove_sat (s : string) : sat (trace_rel J) (os_remove s).
Proof.
  unfold os_remove. repeat sat_step.
  all: first [apply put_fs_sat; assumption | apply emit_sat; auto].
Qed.

Lemma shutil_rmtree_sat (s : string) : sat (trace_rel J) (shutil_rmtree s).
Proof.
  unfold shutil_rmtree. repeat sat_step.
  all: first [apply put_fs_sat; assumption | apply emit_sat; auto].
Qed.

Lemma save_to_storage_sat (st : site) (filepath : string) (content : json) :
  allowed st -> sat (trace_rel J) (save_to_storage st filepath content).
Proof.
  intros Hst. unfold save_to_storage.
  apply sat_bind; [apply _|apply os_makedirs_sat; assumption|].
  intros _. destruct content; apply write_file_sat; assumption.
Qed.

Lemma crawl_repo_scan_sat (namespace : string) :
  allowed SDocDetail ->
  forall Rel : world -> world -> option exn -> Prop,
    (forall w o, Rel w w o) ->
    (forall A (m : M A) B (k : A -> M B),
        sat (trace_rel J) m -> (forall a, sat Rel (k a)) -> sat Rel (bind m k)) ->
    (forall docs repo,
        sat Rel
          (do! save_to_storage SDocList (namespace +:+ "/docs.json") docs in
           let! toc := lift (py_getitem repo "toc_yml") in
           do! save_to_storage SToc (namespace +:+ "/toc.yaml") toc in
           save_to_storage SRepoDetail (namespace +:+ "/repo.json") repo)) ->
    sat Rel (crawl_repo parse sdk namespace).
Proof.
  intros Hst.
  apply (crawl_repo_scan_gen parse sdk (trace_rel J)
           (fun st _ => allowed st) (fun _ => True)).
  - apply log_sat.
  - apply J_request.
  - intros st f c. apply save_to_storage_sat.
  - intros s _. apply os_remove_sat.
  - intros _. exact Hst.
  - intros _. exact I.
Qed.

Lemma crawl_repo_sat (namespace : string) :
  allowed SDocDetail -> allowed SDocList -> allowed SToc -> allowed SRepoDetail ->
  sat (trace_rel J) (crawl_repo parse sdk namespace).
Proof.
  intros H1 H2 H3 H4.
  apply (crawl_repo_gen parse sdk (trace_rel J)
           (fun st _ => allowed st) (fun _ => True)).
  - apply log_sat.
  - apply J_request.
  - intros st f c. apply save_to_storage_sat.
  - intros s _. apply os_remove_sat.
  - repeat split; auto.
Qed.

Lemma main_scan_sat :
  allowed SUser -> allowed SDocDetail -> allowed SDocList -> allowed SToc ->
  allowed SRepoDetail ->
  forall Rel : world -> world -> option exn -> Prop,
    (forall A (m : M A) B (k : A -> M B),
        sat (trace_rel J) m -> (forall a, sat Rel (k a)) -> sat Rel (bind m k)) ->
    (forall login repos,
        sat Rel (save_to_storage SRepoList (login +:+ "/repos.json") repos)) ->
    sat Rel (main parse sdk).
Proof.
  intros H0 H1 H2 H3 H4.
  apply (main_scan_gen parse sdk (trace_rel J)
           (fun st _ => allowed st) (fun _ => True) (fun _ => True)).
  - apply log_sat.
  - apply J_request.
  - intros st f c. apply save_to_storage_sat.
  - intros s _. apply os_remove_sat.
  - intros s _. apply shutil_rmtree_sat.
  - intros s. apply os_makedirs_sat, _.
  - exact H0.
  - intros ns. repeat split; auto.
  - intros _. exact I.
Qed.

Lemma main_sat :
  (forall st, allowed st) -> sat (trace_rel J) (main parse sdk).
Proof.
  intros Hall. apply main_scan_sat; auto.
  - intros A m B k. apply sat_bind, _.
  - intros login repos. apply save_to_storage_sat, Hall.
Qed.

End TraceFamily.

(** ** Order of the writes *)

Lemma request_quiet (sdk : remote) (allowed : site -> Prop) (api : string) :
  sat (trace_rel (quiet allowed)) (SDK.request sdk api).
Proof.
  unfold SDK.request. apply sat_bind; [apply _| |intros _; apply sat_lift, _].
  apply emit_sat. repeat constructor.
Qed.

Lemma save_to_storage_quiet (allowed : site -> Prop) (st : site)
    (filepath : string) (content : json) :
  allowed st ->
  sat (trace_rel (quiet allowed)) (save_to_storage st filepath content).
Proof.
  apply (save_to_storage_sat (quiet allowed) allowed).
  intros st' s c Hst. constructor; [exact Hst|constructor].
Qed.

Lemma then_only_bind (allowed : site -> Prop)
    (F : list event -> option exn -> Prop) {A B} (m : M A) (k : A -> M B) :
  (forall e, F [] (Some e)) ->
  sat (trace_rel (quiet allowed)) m ->
  (forall a, sat (trace_rel (then_only allowed F)) (k a)) ->
  sat (trace_rel (then_only allowed F)) (bind m k).
Proof.
  intros HF Hm Hk w w' r H. unfold bind in H.
  destruct (m w) as [w1 [a|e]] eqn:E.
  - destruct (Hm _ _ _ E) as (d1 & E1 & Q1).
    destruct (Hk _ _ _ _ H) as (d2 & E2 & d0 & fin & -> & Q2 & HFin).
    exists (d1 ++ d0 ++ fin). rewrite E2, E1, <- app_assoc. split; [reflexivity|].
    exists (d1 ++ d0), fin. rewrite <- app_assoc. split; [reflexivity|].
    split; [apply Forall_app; split; assumption|exact HFin].
  - inversion H; subst. destruct (Hm _ _ _ E) as (d1 & E1 & Q1).
    exists d1. split; [exact E1|]. exists d1, []. rewrite app_nil_r.
    repeat split; [exact Q1|apply HF].
Qed.

Lemma then_only_last (allowed : site -> Prop)
    (F : list event -> option exn -> Prop) {A} (m : M A) :
  sat (trace_rel F) m -> sat (trace_rel (then_only allowed F)) m.
Proof.
  intros Hm w w' r H. destruct (Hm _ _ _ H) as (d & E & HF).
  exists d. split; [exact E|]. exists [], d. repeat split; [constructor|exact HF].
Qed.

Lemma split_after_allowed (allowed : site -> Prop) (x : event)
    (d0 fin a b : list event) :
  Forall (writes_from allowed) d0 ->
  ~ writes_from allowed x ->
  d0 ++ fin = a ++ x :: b ->
  exists a', a = d0 ++ a' /\ fin = a' ++ x :: b.
Proof.
  intros Hd0 Hx. revert a. induction Hd0 as [|y d0 Hy _ IH]; intros a E.
  - exists a. split; [reflexivity|exact E].
  - destruct a as [|z a]; simpl in E; inversion E; subst.
    + contradiction.
    + destruct (IH _ H1) as (a' & -> & ->). exists a'. split; reflexivity.
Qed.

Lemma run_eq {A} (m : M A) (w : world) : m w = (fst (m w), snd (m w)).
Proof. destruct (m w); reflexivity. Qed.

(** C8: among the events of a call of [crawl_repo], no write of a
    document detail comes after the write of the document list; among the
    events of [main], nothing comes after the write of the repository
    list, and a run that returns ends with that write. *)
Theorem list_files_written_after_children (parse : string -> option datetime)
    (sdk : remote) (w : world) :
  (forall namespace, exists d,
      w_trace (fst (crawl_repo parse sdk namespace w)) = w_trace w ++ d
      /\ forall a b file c,
           d = a ++ EWrite SDocList file c :: b ->
           Forall (writes_from (fun st => st <> SDocDetail)) b)
  /\ exists d,
      w_trace (fst (main parse sdk w)) = w_trace w ++ d
      /\ (forall a b file c, d = a ++ EWrite SRepoList file c :: b -> b = [])
      /\ (snd (main parse sdk w) = Ok tt ->
          exists a file c, d = a ++ [EWrite SRepoList file c]).
Proof.
  split.
  - intros namespace.
    assert (Hsat : sat (trace_rel (then_only (fun st => st <> SDocList)
                                     (quiet (fun st => st <> SDocDetail))))
                     (crawl_repo parse sdk namespace)).
    { apply (crawl_repo_scan_sat parse sdk (quiet (fun st => st <> SDocList))
               (fun st => st <> SDocList)).
      - intros; repeat constructor.
      - intros; repeat constructor.
      - intros st s c Hst. constructor; [exact Hst|constructor].
      - apply request_quiet.
      - discriminate.
      - intros w0 o. exists []. rewrite app_nil_r. split; [reflexivity|].
        exists [], []. repeat split; constructor.
      - intros A m B k. apply then_only_bind. intros e. constructor.
      - intros docs repo. apply then_only_last.
        apply sat_bind; [apply _| |intros _].
        { apply save_to_storage_quiet. discriminate. }
        apply sat_bind_lift; [apply _|]; intros toc _.
        apply sat_bind; [apply _| |intros _].
        { apply save_to_storage_quiet. discriminate. }
        apply save_to_storage_quiet. discriminate. }
    destruct (Hsat _ _ _ (run_eq _ w)) as (d & E & d0 & fin & -> & Q0 & Qfin).
    exists (d0 ++ fin). split; [exact E|].
    intros a b file c Hsplit.
    assert (Hx : ~ writes_from (fun st => st <> SDocList) (EWrite SDocList file c))
      by (intros H; exact (H eq_refl)).
    destruct (split_after_allowed _ _ _ _ _ _ Q0 Hx Hsplit) as (a' & -> & ->).
    unfold quiet in Qfin. apply Forall_app in Qfin as [_ Qfin].
    inversion Qfin; assumption.
  - assert (Hsat : sat (trace_rel (then_only (fun st => st <> SRepoList)
                                     (one_write_if_ok SRepoList)))
                     (main parse sdk)).
    { apply (main_scan_sat parse sdk (quiet (fun st => st <> SRepoList))
               (fun st => st <> SRepoList)).
      - intros; repeat constructor.
      - intros; repeat constructor.
      - intros; repeat constructor.
      - intros st s c Hst. constructor; [exact Hst|constructor].
      - apply request_quiet.
      - discriminate.
      - discriminate.
      - discriminate.
      - discriminate.
      - discriminate.
      - intros A m B k. apply then_only_bind. intros e. left.
        split; [reflexivity|discriminate].
      - intros login repos. apply then_only_last, save_to_storage_one_write. }
    destruct (Hsat _ _ _ (run_eq _ w)) as (d & E & d0 & fin & -> & Q0 & Qfin).
    exists (d0 ++ fin). split; [exact E|]. split.
    + intros a b file c Hsplit.
      assert (Hx : ~ writes_from (fun st => st <> SRepoList)
                     (EWrite SRepoList file c))
        by (intros H; exact (H eq_refl)).
      destruct (split_after_allowed _ _ _ _ _ _ Q0 Hx Hsplit) as (a' & -> & Hfin).
      destruct Qfin as [[-> _]|(file' & c' & -> & _)].
      * destruct a'; discriminate.
      * destruct a' as [|? [|? ?]]; simpl in Hfin; inversion Hfin; reflexivity.
    + intros Hok. rewrite Hok in Qfin.
      destruct Qfin as [[_ Hne]|(file & c & -> & _)]; [contradiction|eauto].
Qed.

(** ** A request that fails *)

Lemma request_fail_last (sdk : remote) (api : string) :
  sat (trace_rel (fail_last sdk)) (SDK.request sdk api).
Proof.
  intros w w' r H. unfold SDK.request, bind, emit, lift in H; simpl in H.
  inversion H; subst. exists [EGet api]. split; [reflexivity|].
  destruct (sdk api) as [j|] eqn:E; simpl.
  - left. constructor; [simpl; congruence|constructor].
  - right. exists [], api. repeat split; [exact E|constructor].
Qed.

Lemma fail_last_event (sdk : remote) (d : list event) (o : option exn)
    (api : string) :
  fail_last sdk d o -> In (EGet api) d -> sdk api = None ->
  o = Some RequestFailed
  /\ exists d', d = d' ++ [EGet api] /\ Forall (answered sdk) d'.
Proof.
  intros [Hall|(d' & api' & -> & Hnone & Hall & ->)] Hin Hapi.
  - rewrite List.Forall_forall in Hall. specialize (Hall _ Hin). simpl in Hall.
    contradiction.
  - split; [reflexivity|].
    apply in_app_or in Hin as [Hin|[Hin|[]]].
    + rewrite List.Forall_forall in Hall. specialize (Hall _ Hin). simpl in Hall.
      contradiction.
    + inversion Hin; subst. eauto.
Qed.

(** C4 as stated fails: the detail request of document [b] fails; the run
    ends with the exception at that request, and the sibling [c] after it
    is neither requested nor stored, nor is the document list. *)
Lemma failed_fetch_aborts_siblings :
  failing_detail_remote "repos/u/r/docs/b" = None
  /\ snd (main iso_parse failing_detail_remote account_dir_world)
     = Raise RequestFailed
  /\ w_trace (after_sync failing_detail_remote account_dir_world)
     = [EGet "user";
        EWrite SUser "storage/.meta/user.json" (CJson user_u);
        EGet "users/u/repos";
        ELog Info (MsgCrawlingRepo "R" 1 1);
        EGet "repos/u/r"; EGet "repos/u/r/docs";
        ELog Info (MsgDoc "a" 1 3); EGet "repos/u/r/docs/a";
        EWrite SDocDetail "storage/.meta/u/r/docs/a.json"
          (CJson (doc_detail "a" "A"));
        ELog Info (MsgDoc "b" 2 3); EGet "repos/u/r/docs/b"]
  /\ w_fs (after_sync failing_detail_remote account_dir_world)
       !! ["storage"; ".meta"; "u"; "r"; "docs"; "c.json"] = None.
Proof. repeat split; vm_compute; reflexivity. Qed.

(** ** Running the sync twice

    Path resolution first, then the effect of each call on the store,
    then the two runs. *)

Lemma split_slash_nonempty (s : string) : split_slash s <> [].
Proof.
  destruct s as [|c s]; simpl; [discriminate|].
  destruct (Ascii.eqb c "/"); [discriminate|].
  destruct (split_slash s); discriminate.
Qed.

Lemma split_slash_app (a b : string) :
  split_slash (a +:+ String "/" b) = split_slash a ++ split_slash b.
Proof.
  induction a as [|c a IH]; simpl.
  - reflexivity.
  - destruct (Ascii.eqb c "/").
    + rewrite IH. reflexivity.
    + rewrite IH. pose proof (split_slash_nonempty a) as Hne.
      destruct (split_slash a) as [|seg segs]; [contradiction|reflexivity].
Qed.

Lemma split_slash_segments (s seg : string) :
  In seg (split_slash s) -> split_slash seg = [seg].
Proof.
  revert seg. induction s as [|c s IH]; intros seg Hin; simpl in Hin.
  - destruct Hin as [<-|[]]. reflexivity.
  - destruct (Ascii.eqb c "/") eqn:Ec.
    + destruct Hin as [<-|Hin]; [reflexivity|auto].
    + pose proof (split_slash_nonempty s) as Hne.
      destruct (split_slash s) as [|seg0 segs]; [contradiction|].
      destruct Hin as [<-|Hin].
      * simpl. rewrite Ec, (IH seg0); [reflexivity|left; reflexivity].
      * apply IH. right; exact Hin.
Qed.

Lemma resolve_Some (s : string) (p : path) :
  resolve s = Some p <->
  is_absolute s = false /\ p = clean (split_slash s)
  /\ existsb (String.eqb "..") p = false.
Proof.
  unfold resolve. destruct (is_absolute s).
  - split; [discriminate|intros [? _]; discriminate].
  - destruct (existsb _ (clean (split_slash s))) eqn:E.
    + split; [discriminate|]. intros (_ & -> & H). congruence.
    + split.
      * intros H; inversion H; subst. auto.
      * intros (_ & -> & _). reflexivity.
Qed.

Lemma resolve_plain (s : string) (p : path) :
  resolve s = Some p -> Forall plain p.
Proof.
  intros (_ & -> & Hdd)%resolve_Some.
  apply List.Forall_forall. intros seg Hin.
  assert (Hin' := Hin). unfold clean in Hin'.
  apply List.filter_In in Hin' as [Hseg Hproper].
  repeat split.
  - eapply split_slash_segments, Hseg.
  - exact Hproper.
  - intros ->. 
    assert (existsb (String.eqb "..") (clean (split_slash s)) = true).
    { apply List.existsb_exists. exists "..". split; [exact Hin|reflexivity]. }
    congruence.
Qed.

Lemma plain_not_absolute (x : string) (rest : string) :
  plain x -> is_absolute (x +:+ rest) = false.
Proof.
  intros (Hsplit & Hproper & _). destruct x as [|c x]; [discriminate|].
  simpl. destruct (Ascii.eqb c "/") eqn:Ec; [|reflexivity].
  simpl in Hsplit. rewrite Ec in Hsplit.
  pose proof (split_slash_nonempty x). destruct (split_slash x); congruence.
Qed.

Lemma clean_app (l1 l2 : list string) : clean (l1 ++ l2) = clean l1 ++ clean l2.
Proof. apply List.filter_app. Qed.

(** *** [os.path.dirname] *)

Lemma head_upto_slash_split (s : string) :
  match head_upto_slash s with
  | None => split_slash s = [s]
  | Some h => split_slash h = removelast (split_slash s) ++ [""]
              /\ (2 <= length (split_slash s))%nat
  end.
Proof.
  induction s as [|c s IH]; simpl.
  - reflexivity.
  - pose proof (split_slash_nonempty s) as Hne.
    destruct (head_upto_slash s) as [h|].
    + destruct IH as [IH Hlen]. simpl. destruct (Ascii.eqb c "/") eqn:Ec.
      * rewrite IH. destruct (split_slash s) as [|a l]; [contradiction|].
        split; [reflexivity|simpl; lia].
      * rewrite IH. destruct (split_slash s) as [|a [|b l]]; simpl in *; try lia.
        split; [reflexivity|lia].
    + rewrite IH. destruct (Ascii.eqb c "/") eqn:Ec; simpl.
      * rewrite Ec. split; [reflexivity|lia].
      * reflexivity.
Qed.

Lemma split_slash_cons (c : ascii) (s : string) :
  split_slash (String c s) =
  if Ascii.eqb c "/" then "" :: split_slash s
  else match split_slash s with
       | seg :: segs => String c seg :: segs
       | [] => [String c ""]
       end.
Proof. reflexivity. Qed.

Lemma rstrip_slash_cons (c : ascii) (s : string) :
  rstrip_slash (String c s) =
  match rstrip_slash s with
  | EmptyString => if Ascii.eqb c "/" then EmptyString else String c EmptyString
  | r => String c r
  end.
Proof. reflexivity. Qed.

Lemma rstrip_slash_split (h : string) :
  exists k, split_slash h = split_slash (rstrip_slash h) ++ replicate k "".
Proof.
  induction h as [|c h [k IH]].
  - exists 0%nat. reflexivity.
  - rewrite rstrip_slash_cons, split_slash_cons.
    destruct (rstrip_slash h) as [|c' r] eqn:Er.
    + change (split_slash "") with [""] in IH. simpl in IH.
      destruct (Ascii.eqb c "/") eqn:Ec.
      * exists (S k). rewrite IH. reflexivity.
      * exists k. rewrite IH, split_slash_cons, Ec. reflexivity.
    + pose proof (split_slash_nonempty (String c' r)) as Hne.
      rewrite (split_slash_cons c (String c' r)).
      remember (split_slash (String c' r)) as X eqn:EX. clear EX.
      exists k. rewrite IH. destruct (Ascii.eqb c "/"); [reflexivity|].
      destruct X as [|a l]; [contradiction|reflexivity].
Qed.

Lemma clean_replicate_empty (k : nat) : clean (replicate k "") = [].
Proof. induction k; simpl; auto. Qed.

Lemma clean_dirname (s : string) :
  clean (split_slash (os_path_dirname s)) = clean (removelast (split_slash s)).
Proof.
  unfold os_path_dirname. pose proof (head_upto_slash_split s) as H.
  destruct (head_upto_slash s) as [h|].
  - destruct H as [H _].
    assert (Hh : clean (split_slash h) = clean (removelast (split_slash s))).
    { rewrite H, clean_app. simpl. apply app_nil_r. }
    destruct (rstrip_slash_split h) as [k Hk].
    destruct (rstrip_slash h) eqn:Er; [exact Hh|].
    rewrite <- Hh, Hk, clean_app, clean_replicate_empty, app_nil_r. reflexivity.
  - rewrite H. reflexivity.
Qed.

Lemma dirname_not_absolute (s : string) :
  is_absolute s = false -> is_absolute (os_path_dirname s) = false.
Proof.
  unfold os_path_dirname. destruct s as [|c s]; simpl; [reflexivity|].
  intros Hc. destruct (head_upto_slash s) as [h|].
  - rewrite rstrip_slash_cons. rewrite Hc.
    destruct (rstrip_slash h); simpl; exact Hc.
  - rewrite Hc. reflexivity.
Qed.

Lemma existsb_removelast_clean (l : list string) :
  existsb (String.eqb "..") (clean l) = false ->
  existsb (String.eqb "..") (clean (removelast l)) = false.
Proof.
  intros H. apply Bool.not_true_is_false. intros Ht.
  apply List.existsb_exists in Ht as (x & Hin & Hx).
  assert (existsb (String.eqb "..") (clean l) = true); [|congruence].
  apply List.existsb_exists. exists x. split; [|exact Hx].
  unfold clean in *. apply List.filter_In in Hin as [Hin Hp].
  apply List.filter_In. split; [|exact Hp].
  clear -Hin. induction l as [|a l IH]; simpl in *; [contradiction|].
  destruct l; [contradiction|]. destruct Hin as [->|Hin]; [left; reflexivity|].
  right. apply IH, Hin.
Qed.

Lemma resolve_dirname (s : string) (p : path) :
  resolve s = Some p ->
  resolve (os_path_dirname s) = Some (clean (removelast (split_slash s))).
Proof.
  intros (Habs & -> & Hdd)%resolve_Some. apply resolve_Some.
  split; [apply dirname_not_absolute, Habs|].
  split; [symmetry; apply clean_dirname|].
  apply existsb_removelast_clean, Hdd.
Qed.

(** *** [os.makedirs] *)

Lemma makedirs_from_spec (rest : path) :
  forall (pre : path) (fs fs' : gmap path node),
    makedirs_from pre rest fs = Ok fs' ->
    (forall k v, fs !! k = Some v -> fs' !! k = Some v)
    /\ (forall k v, fs' !! k = Some v ->
          fs !! k = Some v
          \/ (v = NDir /\ exists r1 r2, r1 <> [] /\ rest = r1 ++ r2 /\ k = pre ++ r1))
    /\ (forall r1 r2, r1 <> [] -> rest = r1 ++ r2 -> fs' !! (pre ++ r1) = Some NDir).
Proof.
  induction rest as [|x rest IH]; intros pre fs fs' H; simpl in H.
  - inversion H; subst. repeat split; auto.
    intros r1 r2 Hne E. destruct r1; [contradiction|discriminate].
  - assert (Hstep : forall fs1,
        fs1 !! (pre ++ [x]) = Some NDir ->
        (forall k v, fs !! k = Some v -> fs1 !! k = Some v) ->
        (forall k v, fs1 !! k = Some v ->
                     fs !! k = Some v \/ (v = NDir /\ k = pre ++ [x])) ->
        makedirs_from (pre ++ [x]) rest fs1 = Ok fs' ->
        (forall k v, fs !! k = Some v -> fs' !! k = Some v)
        /\ (forall k v, fs' !! k = Some v ->
              fs !! k = Some v
              \/ (v = NDir /\ exists r1 r2,
                     r1 <> [] /\ x :: rest = r1 ++ r2 /\ k = pre ++ r1))
        /\ (forall r1 r2, r1 <> [] -> x :: rest = r1 ++ r2 ->
                          fs' !! (pre ++ r1) = Some NDir)).
    { intros fs1 Hq Hmono Hnew Hrec.
      destruct (IH _ _ _ Hrec) as (I1 & I2 & I3). repeat split.
      - intros k v Hk. apply I1, Hmono, Hk.
      - intros k v Hk. destruct (I2 _ _ Hk) as [Hold|(-> & r1 & r2 & Hne & -> & ->)].
        + destruct (Hnew _ _ Hold) as [?|[-> ->]]; [left; assumption|].
          right. split; [reflexivity|]. exists [x], rest. repeat split. discriminate.
        + right. split; [reflexivity|]. exists (x :: r1), r2.
          rewrite <- app_assoc. repeat split. discriminate.
      - intros r1 r2 Hne E. destruct r1 as [|y r1]; [contradiction|].
        simpl in E. inversion E; subst.
        destruct r1 as [|z r1].
        + apply I1, Hq.
        + replace (pre ++ y :: z :: r1) with ((pre ++ [y]) ++ z :: r1)
            by (rewrite <- app_assoc; reflexivity).
          apply (I3 (z :: r1) r2); [discriminate|reflexivity]. }
    destruct (fs !! (pre ++ [x])) as [[c|]|] eqn:Eq; [discriminate| |].
    + apply (Hstep fs); auto.
    + apply (Hstep (<[pre ++ [x] := NDir]> fs)); auto.
      * apply lookup_insert_eq.
      * intros k v Hk. rewrite lookup_insert_ne; [exact Hk|].
        intros E. subst k. rewrite Eq in Hk. discriminate.
      * intros k v Hk. destruct (decide (pre ++ [x] = k)) as [<-|Hne].
        -- rewrite lookup_insert_eq in Hk. inversion Hk; auto.
        -- rewrite lookup_insert_ne in Hk by exact Hne. auto.
Qed.

Lemma makedirs_from_noop (rest : path) :
  forall (pre : path) (fs : gmap path node),
    (forall r1 r2, r1 <> [] -> rest = r1 ++ r2 -> fs !! (pre ++ r1) = Some NDir) ->
    makedirs_from pre rest fs = Ok fs.
Proof.
  induction rest as [|x rest IH]; intros pre fs H; simpl; [reflexivity|].
  rewrite (H [x] rest); [|discriminate|reflexivity].
  apply IH. intros r1 r2 Hne ->.
  replace ((pre ++ [x]) ++ r1) with (pre ++ x :: r1)
    by (rewrite <- app_assoc; reflexivity).
  apply (H (x :: r1) r2); [discriminate|reflexivity].
Qed.

(** *** Effects of the calls that change the store *)

#[global] Instance keeps_step (I : gmap path node -> Prop) : StepRel (keeps I).
Proof. split; unfold keeps; auto. Qed.

#[global] Instance same_fs_step : StepRel same_fs.
Proof. split; unfold same_fs; [reflexivity|intros; congruence]. Qed.

Lemma same_fs_keeps (I : gmap path node -> Prop) {A} (m : M A) :
  sat same_fs m -> sat (keeps I) m.
Proof. intros H w w' r E HI. rewrite (H _ _ _ E). exact HI. Qed.

Lemma emit_same_fs (e : event) : sat same_fs (emit e).
Proof. intros w w' r H. inversion H; subst. reflexivity. Qed.

Lemma request_same_fs (sdk : remote) (api : string) : sat same_fs (SDK.request sdk api).
Proof.
  unfold SDK.request. apply sat_bind; [apply _|apply emit_same_fs|].
  intros _. apply sat_lift, _.
Qed.

Lemma os_makedirs_effect (s : string) (w w' : world) (r : result unit) :
  os_makedirs s w = (w', r) ->
  w_trace w' = w_trace w
  /\ ((exists p, resolve s = Some p
                 /\ makedirs_from [] p (w_fs w) = Ok (w_fs w') /\ r = Ok tt)
      \/ (w' = w /\ exists e, r = Raise e)).
Proof.
  intros H. unfold os_makedirs, with_path in H.
  destruct (resolve s) as [p|] eqn:Hres.
  - unfold bind, get_fs, raise, ret, put_fs, lift in H; simpl in H.
    destruct p as [|x p].
    + destruct (String.eqb s ""); inversion H; subst.
      * split; [reflexivity|]. right. eauto.
      * split; [reflexivity|]. left. exists []. auto.
    + destruct (makedirs_from [] (x :: p) (w_fs w)) as [fs'|e] eqn:E;
        inversion H; subst; simpl.
      * split; [reflexivity|]. left. eauto.
      * split; [reflexivity|]. right. eauto.
  - inversion H; subst. split; [reflexivity|]. right. eauto.
Qed.

Lemma write_file_effect (st : site) (s : string) (c : content)
    (w w' : world) (r : result unit) :
  write_file st s c w = (w', r) ->
  (exists p, resolve s = Some p /\ p <> []
             /\ node_at (w_fs w) (removelast p) = Some NDir
             /\ w_fs w !! p <> Some NDir
             /\ w' = World (<[p := NFile c]> (w_fs w)) (w_trace w ++ [EWrite st s c])
             /\ r = Ok tt)
  \/ (w' = w /\ exists e, r = Raise e).
Proof.
  intros H. unfold write_file, with_path in H.
  destruct (resolve s) as [p|] eqn:Hres; [|inversion H; subst; right; eauto].
  unfold bind, get_fs, raise, ret, put_fs, emit in H; simpl in H.
  destruct p as [|x p]; [inversion H; subst; right; eauto|].
  destruct (node_at (w_fs w) (removelast (x :: p))) as [[?|]|] eqn:Hpar;
    [inversion H; subst; right; eauto| |inversion H; subst; right; eauto].
  destruct (w_fs w !! (x :: p)) as [[?|]|] eqn:Hnode; inversion H; subst;
    first [ right; split; [reflexivity|eauto]
          | left; exists (x :: p); repeat split; try assumption;
            try congruence; try discriminate ].
Qed.

Lemma os_remove_effect (s : string) (w w' : world) (r : result unit) :
  os_remove s w = (w', r) ->
  (exists p c, resolve s = Some p /\ node_at (w_fs w) p = Some (NFile c)
               /\ w' = World (delete p (w_fs w)) (w_trace w ++ [ERemove s])
               /\ r = Ok tt)
  \/ (w' = w /\ exists e, r = Raise e).
Proof.
  intros H. unfold os_remove, with_path in H.
  destruct (resolve s) as [p|] eqn:Hres; [|inversion H; subst; right; eauto].
  unfold bind, get_fs, raise, ret, put_fs, emit in H; simpl in H.
  destruct (node_at (w_fs w) p) as [[c|]|] eqn:Hnode; inversion H; subst;
    first [ right; split; [reflexivity|eauto] | left; eauto 10 ].
Qed.

Lemma shutil_rmtree_effect (s : string) (w w' : world) (r : result unit) :
  shutil_rmtree s w = (w', r) ->
  (exists p, resolve s = Some p /\ node_at (w_fs w) p = Some NDir
             /\ w' = World (filter (fun kv => ~ p `prefix_of` fst kv) (w_fs w))
                           (w_trace w ++ [ERmtree s])
             /\ r = Ok tt)
  \/ (w' = w /\ exists e, r = Raise e).
Proof.
  intros H. unfold shutil_rmtree, with_path in H.
  destruct (resolve s) as [p|] eqn:Hres; [|inversion H; subst; right; eauto].
  unfold bind, get_fs, raise, ret, put_fs, emit in H; simpl in H.
  destruct (node_at (w_fs w) p) as [[c|]|] eqn:Hnode; inversion H; subst;
    first [ right; split; [reflexivity|eauto] | left; eauto 10 ].
Qed.

(** *** Well-formed stores *)

Lemma os_makedirs_wf (s : string) : sat (keeps fs_wf) (os_makedirs s).
Proof.
  intros w w' r H Hwf.
  destruct (os_makedirs_effect _ _ _ _ H) as [_ [(p & Hres & Hmk & _)|[-> _]]];
    [|exact Hwf].
  destruct (makedirs_from_spec _ _ _ _ Hmk) as (_ & Hnew & _).
  intros k v Hk. destruct (Hnew _ _ Hk) as [Hold|(_ & r1 & r2 & _ & -> & ->)].
  - eapply Hwf, Hold.
  - apply resolve_plain in Hres. apply Forall_app in Hres as [H1 _]. exact H1.
Qed.

Lemma write_file_wf (st : site) (s : string) (c : content) :
  sat (keeps fs_wf) (write_file st s c).
Proof.
  intros w w' r H Hwf.
  destruct (write_file_effect _ _ _ _ _ _ H)
    as [(p & Hres & _ & _ & _ & -> & _)|[-> _]]; [|exact Hwf].
  intros k v Hk. simpl in Hk. destruct (decide (p = k)) as [<-|Hne].
  - eapply resolve_plain, Hres.
  - rewrite lookup_insert_ne in Hk by exact Hne. eapply Hwf, Hk.
Qed.

Lemma save_to_storage_wf (st : site) (f : string) (c : json) :
  sat (keeps fs_wf) (save_to_storage st f c).
Proof.
  unfold save_to_storage. apply sat_bind; [apply _|apply os_makedirs_wf|].
  intros _. destruct c; apply write_file_wf.
Qed.

Lemma os_remove_wf (s : string) : sat (keeps fs_wf) (os_remove s).
Proof.
  intros w w' r H Hwf.
  destruct (os_remove_effect _ _ _ _ H) as [(p & c & _ & _ & -> & _)|[-> _]];
    [|exact Hwf].
  intros k v Hk. simpl in Hk. apply lookup_delete_Some in Hk as [_ Hk].
  eapply Hwf, Hk.
Qed.

Lemma shutil_rmtree_wf (s : string) : sat (keeps fs_wf) (shutil_rmtree s).
Proof.
  intros w w' r H Hwf.
  destruct (shutil_rmtree_effect _ _ _ _ H) as [(p & _ & _ & -> & _)|[-> _]];
    [|exact Hwf].
  intros k v Hk. simpl in Hk. apply map_lookup_filter_Some in Hk as [Hk _].
  eapply Hwf, Hk.
Qed.

(** *** The paths of the script *)

Lemma append_assoc (a b c : string) : (a +:+ b) +:+ c = a +:+ (b +:+ c).
Proof.
  induction a as [|x a IH]; [reflexivity|].
  change (String x ((a +:+ b) +:+ c) = String x (a +:+ (b +:+ c))).
  f_equal. exact IH.
Qed.

Lemma split_meta (rest : string) :
  split_slash (meta_dir +:+ "/" +:+ rest) = ["storage"; ".meta"] ++ split_slash rest.
Proof.
  change (meta_dir +:+ "/" +:+ rest) with ("storage/.meta" +:+ String "/" rest).
  rewrite split_slash_app. reflexivity.
Qed.

Lemma split_plain_slash (x rest : string) :
  plain x -> split_slash (x +:+ "/" +:+ rest) = x :: split_slash rest.
Proof.
  intros (Hx & _). change (x +:+ "/" +:+ rest) with (x +:+ String "/" rest).
  rewrite split_slash_app, Hx. reflexivity.
Qed.

Lemma join_meta (f : string) :
  is_absolute f = false -> os_path_join meta_dir f = meta_dir +:+ "/" +:+ f.
Proof. intros H. unfold os_path_join. rewrite H. reflexivity. Qed.

Lemma removelast_app_ne {A} (l1 l2 : list A) :
  l2 <> [] -> removelast (l1 ++ l2) = l1 ++ removelast l2.
Proof. apply List.removelast_app. Qed.

Lemma clean_cons_proper (x : string) (l : list string) :
  proper_segment x = true -> clean (x :: l) = x :: clean l.
Proof. intros Hp. unfold clean. simpl. rewrite Hp. reflexivity. Qed.

Lemma clean_meta_under (login slug : string) (l : list string) :
  plain login -> plain slug ->
  clean (["storage"; ".meta"; login; slug] ++ l)
  = account_dir login ++ [slug] ++ clean l.
Proof.
  intros (_ & Hl & _) (_ & Hs & _).
  change (["storage"; ".meta"; login; slug] ++ l)
    with ("storage" :: ".meta" :: login :: slug :: l).
  rewrite !clean_cons_proper by (reflexivity || assumption). reflexivity.
Qed.

Lemma resolve_meta_under (login slug rest : string) (p : path) :
  plain login -> plain slug ->
  resolve (meta_dir +:+ "/" +:+ login +:+ "/" +:+ slug +:+ "/" +:+ rest) = Some p ->
  p = account_dir login ++ [slug] ++ clean (split_slash rest).
Proof.
  intros Hl Hs (_ & -> & _)%resolve_Some.
  rewrite split_meta, split_plain_slash, split_plain_slash by assumption.
  apply (clean_meta_under login slug); assumption.
Qed.

Lemma resolve_dirname_meta_under (login slug rest : string) (q : path) :
  plain login -> plain slug ->
  resolve (os_path_dirname
             (meta_dir +:+ "/" +:+ login +:+ "/" +:+ slug +:+ "/" +:+ rest)) = Some q ->
  q = account_dir login ++ [slug] ++ clean (removelast (split_slash rest)).
Proof.
  intros Hl Hs (_ & -> & _)%resolve_Some.
  rewrite clean_dirname, split_meta, split_plain_slash, split_plain_slash
    by assumption.
  change (["storage"; ".meta"] ++ login :: slug :: split_slash rest)
    with (["storage"; ".meta"; login; slug] ++ split_slash rest).
  rewrite removelast_app_ne by apply split_slash_nonempty.
  apply (clean_meta_under login slug); assumption.
Qed.

Lemma under_repo_join (login : string) (slugs : list string) (f : string) :
  plain login -> under_repo_file login slugs f ->
  exists slug rest,
    In slug slugs /\ plain slug
    /\ os_path_join meta_dir f
       = meta_dir +:+ "/" +:+ login +:+ "/" +:+ slug +:+ "/" +:+ rest.
Proof.
  intros Hl (slug & rest & Hin & Hs & ->). exists slug, rest.
  split; [exact Hin|]. split; [exact Hs|].
  apply join_meta, plain_not_absolute, Hl.
Qed.

Lemma app_cons_length_ne (l t : path) (x : string) (k : path) :
  length k <= length l -> l ++ x :: t <> k.
Proof. intros Hlen E. subst k. rewrite length_app in Hlen. simpl in Hlen. lia. Qed.

Lemma save_keeps_inv (login : string) (slugs : list string) (u : node)
    (st : site) (f : string) (c : json) :
  plain login -> under_repo_file login slugs f ->
  sat (keeps (cache_inv login slugs u)) (save_to_storage st f c).
Proof.
  intros Hl Hf w w' r H (Hwf & HU & Hch).
  split; [exact (save_to_storage_wf st f c _ _ _ H Hwf)|].
  destruct (under_repo_join _ _ _ Hl Hf) as (slug & rest & Hin & Hs & Hjoin).
  unfold save_to_storage in H. rewrite Hjoin in H. unfold bind in H.
  destruct (os_makedirs _ w) as [wa [[]|e]] eqn:Emk.
  - destruct (os_makedirs_effect _ _ _ _ Emk)
      as [_ [(q & Hq & Hmk & _)|[-> [e He]]]]; [|discriminate].
    apply resolve_dirname_meta_under in Hq; [|assumption..].
    destruct (makedirs_from_spec _ _ _ _ Hmk) as (Hmono & Hnew & _).
    assert (HUa : w_fs wa !! user_key = Some u) by (apply Hmono, HU).
    assert (Hcha : forall x, w_fs wa !! (account_dir login ++ [x]) = Some NDir ->
                             In x slugs).
    { intros x Hx. destruct (Hnew _ _ Hx) as [Hold|(_ & r1 & r2 & _ & Eq & Ek)].
      - apply Hch, Hold.
      - change ([] ++ r1) with r1 in Ek. subst r1. rewrite Hq in Eq.
        unfold account_dir in Eq. simpl in Eq. inversion Eq; subst. exact Hin. }
    assert (Hw : exists c', write_file st
                   (meta_dir +:+ "/" +:+ login +:+ "/" +:+ slug +:+ "/" +:+ rest)
                   c' wa = (w', r)).
    { destruct c; eauto. }
    destruct Hw as [c' Hw].
    destruct (write_file_effect _ _ _ _ _ _ Hw)
      as [(p & Hp & _ & _ & _ & -> & _)|[-> _]]; [|split; assumption].
    apply resolve_meta_under in Hp; [|assumption..]. simpl.
    split.
    + rewrite lookup_insert_ne; [exact HUa|].
      subst p. apply app_cons_length_ne. simpl. lia.
    + intros x Hx. destruct (decide (p = account_dir login ++ [x])) as [E|Hne].
      * rewrite E, lookup_insert_eq in Hx. discriminate.
      * rewrite lookup_insert_ne in Hx by exact Hne. apply Hcha, Hx.
  - inversion H; subst.
    destruct (os_makedirs_effect _ _ _ _ Emk)
      as [_ [(q & _ & _ & ?)|[-> _]]]; [discriminate|split; assumption].
Qed.

Lemma remove_keeps_inv (login : string) (slugs : list string) (u : node)
    (s : string) :
  plain login -> under_repo_path login s ->
  sat (keeps (cache_inv login slugs u)) (os_remove s).
Proof.
  intros Hl (slug & rest & Hs & ->) w w' r H (Hwf & HU & Hch).
  split; [exact (os_remove_wf _ _ _ _ H Hwf)|].
  destruct (os_remove_effect _ _ _ _ H) as [(p & c & Hp & _ & -> & _)|[-> _]];
    [|split; assumption].
  apply resolve_meta_under in Hp; [|assumption..]. simpl. split.
  - rewrite lookup_delete_ne; [exact HU|].
    subst p. apply app_cons_length_ne. simpl. lia.
  - intros x Hx. apply lookup_delete_Some in Hx as [_ Hx]. apply Hch, Hx.
Qed.

(** *** Listing the repositories of the cache *)

Lemma strip_prefix_Some (p k r : path) :
  strip_prefix p k = Some r <-> k = p ++ r.
Proof.
  revert k. induction p as [|x p IH]; intros k; simpl.
  - split; [intros H; inversion H; reflexivity|intros ->; reflexivity].
  - destruct k as [|y k]; [split; discriminate|].
    destruct (String.eqb x y) eqn:E.
    + apply String.eqb_eq in E as ->. rewrite IH. split; [intros ->; reflexivity|].
      intros H; inversion H; reflexivity.
    + apply String.eqb_neq in E. split; [discriminate|].
      intros H; inversion H; congruence.
Qed.

Lemma child_name_Some (dir k : path) (x : string) :
  child_name dir k = Some x <-> k = dir ++ [x].
Proof.
  unfold child_name. destruct (strip_prefix dir k) as [r|] eqn:E.
  - apply strip_prefix_Some in E. subst k.
    destruct r as [|y [|z r]]; split; try discriminate.
    + intros H. apply app_inv_head in H. discriminate.
    + intros H; inversion H; reflexivity.
    + intros H. apply app_inv_head in H. inversion H; reflexivity.
    + intros H. apply app_inv_head in H. discriminate.
  - split; [discriminate|]. intros ->.
    assert (strip_prefix dir (dir ++ [x]) = Some [x]) by (apply strip_prefix_Some; reflexivity).
    congruence.
Qed.

Lemma children_spec (fs : gmap path node) (dir : path) (x : string) :
  In x (children fs dir) <-> is_Some (fs !! (dir ++ [x])).
Proof.
  unfold children. rewrite <- list_elem_of_In, list_elem_of_omap. split.
  - intros ([k v] & Hin & Hname). simpl in Hname.
    apply child_name_Some in Hname. subst k.
    apply elem_of_map_to_list in Hin. eauto.
  - intros [v Hv]. exists (dir ++ [x], v). split.
    + apply elem_of_map_to_list, Hv.
    + simpl. apply child_name_Some. reflexivity.
Qed.

Lemma sorted_In (names : list string) (x : string) :
  In x (sorted names) <-> In x names.
Proof.
  unfold sorted. rewrite <- !list_elem_of_In.
  rewrite (merge_sort_Permutation string_le names). reflexivity.
Qed.

Lemma filter_M_readonly {A} (p : A -> M bool) (f : A -> bool) (xs : list A)
    (w : world) :
  (forall x, In x xs -> p x w = (w, Ok (f x))) ->
  filter_M p xs w = (w, Ok (List.filter f xs)).
Proof.
  induction xs as [|x xs IH]; intros Hp; simpl; [reflexivity|].
  unfold bind. rewrite (Hp x) by (left; reflexivity).
  rewrite IH by (intros y Hy; apply Hp; right; exact Hy).
  unfold ret. destruct (f x); reflexivity.
Qed.

Lemma plain_not_dotdot (x : string) : plain x -> String.eqb ".." x = false.
Proof. intros (_ & _ & H). apply String.eqb_neq. congruence. Qed.

Lemma no_dotdot_cons (x : string) (l : list string) :
  String.eqb ".." x = false ->
  existsb (String.eqb "..") l = false ->
  existsb (String.eqb "..") (x :: l) = false.
Proof. intros H1 H2. cbn [existsb]. rewrite H1, H2. reflexivity. Qed.

Ltac no_dotdot :=
  repeat (apply no_dotdot_cons;
          [first [reflexivity | apply plain_not_dotdot; assumption]|]);
  reflexivity.

Lemma resolve_account_dir (login : string) :
  plain login -> resolve (meta_dir +:+ "/" +:+ login) = Some (account_dir login).
Proof.
  intros Hl. apply resolve_Some. split; [reflexivity|].
  change (meta_dir +:+ "/" +:+ login) with ("storage/.meta" +:+ String "/" login).
  rewrite split_slash_app. pose proof Hl as (Hs & Hp & Hd). rewrite Hs.
  change (split_slash "storage/.meta" ++ [login]) with ["storage"; ".meta"; login].
  rewrite !clean_cons_proper by (reflexivity || assumption).
  split; [reflexivity|]. no_dotdot.
Qed.

Lemma resolve_account_child (login x : string) :
  plain login -> plain x ->
  resolve (meta_dir +:+ "/" +:+ login +:+ "/" +:+ x)
  = Some (account_dir login ++ [x]).
Proof.
  intros Hl Hx. apply resolve_Some. split; [reflexivity|].
  rewrite split_meta, split_plain_slash by assumption.
  pose proof Hx as (Hs & Hp & Hd). rewrite Hs.
  change (["storage"; ".meta"] ++ [login; x]) with ["storage"; ".meta"; login; x].
  pose proof Hl as (Hs' & Hp' & Hd').
  rewrite !clean_cons_proper by (reflexivity || assumption).
  split; [reflexivity|]. no_dotdot.
Qed.

Lemma wf_child_plain (fs : gmap path node) (dir : path) (x : string) :
  fs_wf fs -> is_Some (fs !! (dir ++ [x])) -> plain x.
Proof.
  intros Hwf [v Hv]. apply Hwf in Hv. apply Forall_app in Hv as [_ Hv].
  inversion Hv; assumption.
Qed.

Lemma bind_inv {A B} (m : M A) (k : A -> M B) (w w' : world) (b : B) :
  bind m k w = (w', Ok b) ->
  exists w1 a, m w = (w1, Ok a) /\ k a w1 = (w', Ok b).
Proof.
  unfold bind. destruct (m w) as [w1 [a|e]]; [eauto|discriminate].
Qed.

Lemma os_listdir_Ok (s : string) (w w1 : world) (names : list string) :
  os_listdir s w = (w1, Ok names) ->
  exists p, resolve s = Some p /\ w1 = w /\ names = children (w_fs w) p.
Proof.
  unfold os_listdir, with_path. destruct (resolve s) as [p|]; [|discriminate].
  unfold bind, get_fs, ret, raise.
  destruct (node_at (w_fs w) p) as [[c|]|]; try discriminate.
  intros H; inversion H; subst. eauto.
Qed.

Lemma get_local_repo_names_spec (login : string) (w w' : world)
    (local : list string) :
  plain login -> fs_wf (w_fs w) ->
  Cache.get_local_repo_names login w = (w', Ok local) ->
  w' = w /\ Forall plain local
  /\ (forall x, In x local <-> w_fs w !! (account_dir login ++ [x]) = Some NDir).
Proof.
  intros Hl Hwf H. unfold Cache.get_local_repo_names in H.
  apply bind_inv in H as (w1 & names & Hls & H).
  apply os_listdir_Ok in Hls as (p & Hp & -> & ->).
  rewrite (resolve_account_dir login Hl) in Hp. inversion Hp; subst p.
  rewrite (filter_M_readonly _ (is_dir_child (w_fs w) (account_dir login))) in H.
  - injection H as <- <-. split; [reflexivity|]. split.
    + apply List.Forall_forall. intros x Hx.
      apply List.filter_In in Hx as [Hx _]. rewrite sorted_In in Hx.
      rewrite children_spec in Hx. eapply wf_child_plain; eassumption.
    + intros x. rewrite List.filter_In, sorted_In, children_spec.
      unfold is_dir_child. split.
      * intros [_ Hd]. destruct (w_fs w !! _) as [[?|]|]; congruence.
      * intros Hd. rewrite Hd. split; [eauto|reflexivity].
  - intros x Hx. rewrite sorted_In, children_spec in Hx.
    assert (Hpx : plain x) by (eapply wf_child_plain; eassumption).
    rewrite append_assoc.
    change (meta_dir +:+ ("/" +:+ login) +:+ "/" +:+ x)
      with (meta_dir +:+ "/" +:+ login +:+ "/" +:+ x).
    unfold os_path_isdir, with_path.
    rewrite (resolve_account_child login x Hl Hpx).
    unfold bind, get_fs, ret, is_dir_child. simpl. reflexivity.
Qed.

(** *** The loop that removes old repositories *)

Lemma py_in_strs (x : string) (slugs : list string) :
  py_in (JStr x) (map JStr slugs) = true <-> In x slugs.
Proof.
  unfold py_in. rewrite List.existsb_exists. split.
  - intros (j & Hin & Heq). apply List.in_map_iff in Hin as (s & <- & Hs).
    simpl in Heq. apply String.eqb_eq in Heq. subst. exact Hs.
  - intros H. exists (JStr x). split; [apply List.in_map, H|].
    simpl. apply String.eqb_refl.
Qed.

Lemma remove_old_repo_effect (login : string) (names : list json) (x : string)
    (w w' : world) :
  plain login -> plain x ->
  remove_old_repo login names x w = (w', Ok tt) ->
  (py_in (JStr x) names = true /\ w' = w)
  \/ (py_in (JStr x) names = false
      /\ w_fs w' = filter (fun kv => ~ (account_dir login ++ [x]) `prefix_of` fst kv)
                     (w_fs w)).
Proof.
  intros Hl Hx H. unfold remove_old_repo in H.
  destruct (py_in (JStr x) names); simpl in H.
  - left. inversion H; auto.
  - right. split; [reflexivity|].
    apply bind_inv in H as (w1 & [] & Hlog & H).
    unfold log, emit in Hlog. injection Hlog as <-.
    destruct (shutil_rmtree_effect _ _ _ _ H)
      as [(p & Hp & _ & -> & _)|[_ [e He]]]; [|discriminate].
    rewrite (resolve_account_child login x Hl Hx) in Hp.
    injection Hp as <-. reflexivity.
Qed.

Lemma removal_loop_spec (login : string) (names : list json) (l : list string) :
  plain login -> Forall plain l ->
  forall w w',
    for_each (remove_old_repo login names) l w = (w', Ok tt) ->
    (forall k v, w_fs w' !! k = Some v -> w_fs w !! k = Some v)
    /\ (forall k v, w_fs w !! k = Some v -> length k <= 3 ->
                    w_fs w' !! k = Some v)
    /\ (forall x, In x l -> py_in (JStr x) names = false ->
                  w_fs w' !! (account_dir login ++ [x]) = None).
Proof.
  intros Hl Hplain. induction Hplain as [|x l Hx _ IH]; intros w w' H.
  - simpl in H. injection H as <-. repeat split; auto. intros x [].
  - simpl in H. apply bind_inv in H as (w1 & [] & Hbody & H).
    destruct (IH _ _ H) as (Hsub & Hkeep & Hgone).
    assert (Hstep :
      (forall k v, w_fs w1 !! k = Some v -> w_fs w !! k = Some v)
      /\ (forall k v, w_fs w !! k = Some v -> length k <= 3 ->
                      w_fs w1 !! k = Some v)
      /\ (py_in (JStr x) names = false ->
          w_fs w1 !! (account_dir login ++ [x]) = None)).
    { destruct (remove_old_repo_effect _ _ _ _ _ Hl Hx Hbody)
        as [[Hin ->]|[Hin Hfs]].
      - repeat split; auto. congruence.
      - rewrite Hfs. repeat split.
        + intros k v Hk. apply map_lookup_filter_Some in Hk as [Hk _]. exact Hk.
        + intros k v Hk Hlen. apply map_lookup_filter_Some. split; [exact Hk|].
          simpl. intros [t ->]. rewrite !length_app in Hlen. simpl in Hlen. lia.
        + intros _. apply map_lookup_filter_None. right.
          intros v _ Hnot. apply Hnot. simpl. reflexivity. }
    destruct Hstep as (Hsub1 & Hkeep1 & Hgone1).
    repeat split.
    + intros k v Hk. apply Hsub1, Hsub, Hk.
    + intros k v Hk Hlen. apply Hkeep; [|exact Hlen]. apply Hkeep1; assumption.
    + intros y [<-|Hy] Hnot.
      * destruct (w_fs w' !! (account_dir login ++ [x])) as [v|] eqn:E;
          [|reflexivity].
        apply Hsub in E. rewrite Hgone1 in E by exact Hnot. discriminate.
      * apply Hgone; assumption.
Qed.

(** *** The loop over the repositories *)

Lemma Forall2_In_l {A B} (P : A -> B -> Prop) (xs : list A) (ys : list B) (x : A) :
  Forall2 P xs ys -> In x xs -> exists y, In y ys /\ P x y.
Proof.
  induction 1 as [|a b xs ys Hab _ IH]; intros Hin; [contradiction|].
  destruct Hin as [<-|Hin].
  - exists b. split; [left; reflexivity|exact Hab].
  - destruct (IH Hin) as (y & Hy & HP). exists y. split; [right; exact Hy|exact HP].
Qed.

Lemma repo_paths_ok (login slug : string) (slugs : list string) :
  In slug slugs -> plain slug ->
  namespace_paths_ok (fun _ f => under_repo_file login slugs f)
    (under_repo_path login) (login +:+ "/" +:+ slug).
Proof.
  intros Hin Hs.
  assert (Hsave : forall rest,
    under_repo_file login slugs ((login +:+ "/" +:+ slug) +:+ String "/" rest)).
  { intros rest. exists slug, rest. split; [exact Hin|]. split; [exact Hs|].
    rewrite append_assoc. reflexivity. }
  split; [|split; [|split; [|split]]].
  - intros name. apply (Hsave ("docs/" +:+ name +:+ ".json")).
  - apply (Hsave "docs.json").
  - apply (Hsave "toc.yaml").
  - apply (Hsave "repo.json").
  - intros x. exists slug, (x +:+ ".json"). split; [exact Hs|].
    change (meta_dir +:+ "/" +:+ (login +:+ "/" +:+ slug) +:+ "/" +:+ x +:+ ".json")
      with (meta_dir +:+ String "/" ((login +:+ "/" +:+ slug)
                                       +:+ String "/" (x +:+ ".json"))).
    rewrite append_assoc. reflexivity.
Qed.

Lemma crawl_loop_keeps_inv (parse : string -> option datetime) (sdk : remote)
    (login : string) (slugs : list string) (u : node) (cached_repos : json)
    (n i : nat) (items : list json) :
  plain login ->
  Forall2 (repo_record login) items slugs ->
  sat (keeps (cache_inv login slugs u))
      (for_enum (crawl_repo_entry parse sdk cached_repos n) i items).
Proof.
  intros Hl Hrec. apply sat_for_enum; [apply _|].
  intros j repo Hin.
  destruct (Forall2_In_l _ _ _ _ Hrec Hin) as (slug & Hslug & _ & Hs & Hns).
  apply (crawl_repo_entry_gen parse sdk (keeps (cache_inv login slugs u))
           (fun _ f => under_repo_file login slugs f) (under_repo_path login)).
  - intros l m. apply same_fs_keeps, emit_same_fs.
  - intros api. apply same_fs_keeps, request_same_fs.
  - intros st f c Hf. apply save_keeps_inv; assumption.
  - intros s Hs'. apply remove_keeps_inv; assumption.
  - intros ns Ens. rewrite Hns in Ens. simpl in Ens. injection Ens as <-.
    apply repo_paths_ok; assumption.
Qed.

(** *** The steps of a run that returns *)

Lemma lift_inv {A} (r : result A) (w w1 : world) (a : A) :
  lift r w = (w1, Ok a) -> w1 = w /\ r = Ok a.
Proof. unfold lift. intros H; injection H as <- ->. auto. Qed.

Lemma request_inv (sdk : remote) (api : string) (w w1 : world) (j v : json) :
  sdk api = Some v ->
  SDK.request sdk api w = (w1, Ok j) ->
  w1 = add_events w [EGet api] /\ j = v.
Proof.
  intros Hv H. unfold SDK.request, bind, emit, lift in H. simpl in H.
  rewrite Hv in H. simpl in H. injection H as <- <-. auto.
Qed.

Lemma map_result_slugs (login : string) (items : list json) (slugs : list string) :
  Forall2 (repo_record login) items slugs ->
  map_result (fun x => py_getitem x repo_id_key) items = Ok (map JStr slugs).
Proof.
  induction 1 as [|x s items slugs (Hs & _) _ IH]; simpl; [reflexivity|].
  unfold repo_id_key in *. rewrite Hs. simpl. rewrite IH. reflexivity.
Qed.

Lemma readonly_inv {A} (m : M A) (w w1 : world) (r : result A) :
  sat unchanged m -> m w = (w1, r) -> w1 = w.
Proof. intros Hm H. exact (Hm _ _ _ H). Qed.

Lemma main_inv (parse : string -> option datetime) (sdk : remote)
    (user_info : json) (login : string) (items : list json)
    (slugs : list string) (w w' : world) :
  account_model sdk user_info login items slugs ->
  main parse sdk w = (w', Ok tt) ->
  exists wa cached updated wb local wc cached_repos wd,
    os_makedirs meta_dir w = (wa, Ok tt)
    /\ Cache.get_user "" wa = (wa, Ok cached)
    /\ match cached with
       | JNull => Ok true
       | _ => has_update parse cached user_info
       end = Ok updated
    /\ (if updated then save_to_storage SUser "user.json" user_info else ret tt)
         (add_events wa [EGet "user"]) = (wb, Ok tt)
    /\ Cache.get_local_repo_names login
         (add_events wb [EGet ("users/" +:+ login +:+ "/repos")])
       = (add_events wb [EGet ("users/" +:+ login +:+ "/repos")], Ok local)
    /\ for_each (remove_old_repo login (map JStr slugs)) local
         (add_events wb [EGet ("users/" +:+ login +:+ "/repos")]) = (wc, Ok tt)
    /\ Cache.get_repos login wc = (wc, Ok cached_repos)
    /\ for_enum (crawl_repo_entry parse sdk cached_repos (length items)) 0 items wc
       = (wd, Ok tt)
    /\ save_to_storage SRepoList (login +:+ "/repos.json") (JArr items) wd
       = (w', Ok tt).
Proof.
  intros (Huser & Hlogin & Hl & Hrepos & Hrec & Hnd) H. unfold main in H.
  apply bind_inv in H as (wa & [] & Hmk & H).
  apply bind_inv in H as (w1 & cached & Hcu & H).
  assert (w1 = wa) as -> by (eapply readonly_inv, Hcu; apply cache_request_readonly).
  apply bind_inv in H as (w2 & ui & Hgu & H).
  apply (request_inv _ _ _ _ _ _ Huser) in Hgu as [-> ->].
  apply bind_inv in H as (w3 & updated & Hup & H).
  assert (w3 = add_events wa [EGet "user"]
          /\ match cached with
             | JNull => Ok true
             | _ => has_update parse cached user_info
             end = Ok updated) as [-> Hupd].
  { destruct cached; first [apply lift_inv, Hup
                           | unfold ret in Hup; injection Hup as <- <-; auto]. }
  apply bind_inv in H as (wb & [] & Hsave & H).
  apply bind_inv in H as (w4 & login' & Hlg & H).
  apply lift_inv in Hlg as [-> Hlg]. rewrite Hlogin in Hlg. simpl in Hlg.
  injection Hlg as <-.
  apply bind_inv in H as (w5 & repos & Hgr & H).
  apply (request_inv _ _ _ _ _ _ Hrepos) in Hgr as [-> ->].
  apply bind_inv in H as (w6 & items' & Hit & H).
  apply lift_inv in Hit as [-> Hit]. simpl in Hit. injection Hit as <-.
  apply bind_inv in H as (w7 & names & Hnm & H).
  apply lift_inv in Hnm as [-> Hnm].
  rewrite (map_result_slugs _ _ _ Hrec) in Hnm. injection Hnm as <-.
  apply bind_inv in H as (w8 & local & Hloc & H).
  assert (w8 = add_events wb [EGet ("users/" +:+ login +:+ "/repos")]) as ->
    by (eapply readonly_inv, Hloc; apply get_local_repo_names_readonly).
  apply bind_inv in H as (wc & [] & Hrm & H).
  apply bind_inv in H as (w9 & cached_repos & Hcr & H).
  assert (w9 = wc) as -> by (eapply readonly_inv, Hcr; apply cache_request_readonly).
  apply bind_inv in H as (wd & [] & Hloop & H).
  exists wa, cached, updated, wb, local, wc, cached_repos, wd.
  repeat split; assumption.
Qed.

(** *** What a run that returns leaves in the store *)

Lemma save_ok_effect (st : site) (f : string) (c : json) (w w' : world) :
  save_to_storage st f c w = (w', Ok tt) ->
  exists q p fsa,
    resolve (os_path_dirname (os_path_join meta_dir f)) = Some q
    /\ makedirs_from [] q (w_fs w) = Ok fsa
    /\ resolve (os_path_join meta_dir f) = Some p
    /\ fsa !! p <> Some NDir
    /\ w' = World (<[p := NFile (content_of c)]> fsa)
                  (w_trace w ++ [EWrite st (os_path_join meta_dir f) (content_of c)]).
Proof.
  intros H. unfold save_to_storage in H.
  apply bind_inv in H as (wa & [] & Hmk & H).
  destruct (os_makedirs_effect _ _ _ _ Hmk)
    as [Htr [(q & Hq & Hmk' & _)|[_ [e He]]]]; [|discriminate].
  assert (Hw : write_file st (os_path_join meta_dir f) (content_of c) wa
               = (w', Ok tt)).
  { destruct c; exact H. }
  destruct (write_file_effect _ _ _ _ _ _ Hw)
    as [(p & Hp & _ & _ & Hnd & -> & _)|[_ [e He]]]; [|discriminate].
  exists q, p, (w_fs wa). rewrite Htr. repeat split; assumption.
Qed.

Lemma cache_request_value (api : string) (w : world) (p : path) (j : json) :
  resolve (Cache.cache_path api None) = Some p -> p <> [] ->
  w_fs w !! p = Some (NFile (CJson j)) ->
  Cache.request api None w = (w, Ok j).
Proof.
  intros Hp Hne Hj. unfold Cache.request.
  assert (Hnode : node_at (w_fs w) p = Some (NFile (CJson j))).
  { destruct p; [contradiction|exact Hj]. }
  unfold os_path_exists, json_load, with_path. rewrite Hp.
  unfold bind, get_fs, ret. rewrite Hnode. simpl. rewrite Hnode. reflexivity.
Qed.

Lemma json_load_Ok (s : string) (w w1 : world) (j : json) :
  json_load s w = (w1, Ok j) ->
  exists p, resolve s = Some p /\ node_at (w_fs w) p = Some (NFile (CJson j)).
Proof.
  unfold json_load, with_path. destruct (resolve s) as [p|]; [|discriminate].
  unfold bind, get_fs, ret, raise.
  destruct (node_at (w_fs w) p) as [[[t|j']|]|] eqn:E; intros H;
    try discriminate.
  injection H as _ <-. exists p. split; [reflexivity|exact E].
Qed.

Lemma cache_request_found (api : string) (w w1 : world) (p : path) (j : json) :
  resolve (Cache.cache_path api None) = Some p -> p <> [] ->
  Cache.request api None w = (w1, Ok j) -> j <> JNull ->
  w_fs w !! p = Some (NFile (CJson j)).
Proof.
  intros Hp Hne H Hj. unfold Cache.request in H.
  apply bind_inv in H as (w0 & found & Hex & H).
  assert (w0 = w) as -> by (eapply readonly_inv, Hex; apply os_path_exists_readonly).
  destruct found.
  - apply json_load_Ok in H as (p' & Hp' & Hnode).
    rewrite Hp in Hp'. injection Hp' as <-.
    destruct p; [contradiction|exact Hnode].
  - unfold ret in H. injection H as _ <-. contradiction.
Qed.

Lemma plain_repos_json : plain "repos.json".
Proof. repeat split; discriminate || reflexivity. Qed.

Lemma resolve_repo_list (login : string) :
  plain login ->
  resolve (os_path_join meta_dir (login +:+ "/repos.json"))
  = Some (repo_list_key login).
Proof.
  intros Hl. rewrite join_meta by (apply plain_not_absolute, Hl).
  apply (resolve_account_child login "repos.json" Hl plain_repos_json).
Qed.

Lemma resolve_repo_list_dir (login : string) :
  plain login ->
  resolve (os_path_dirname (os_path_join meta_dir (login +:+ "/repos.json")))
  = Some (account_dir login).
Proof.
  intros Hl. rewrite (resolve_dirname _ _ (resolve_repo_list login Hl)).
  rewrite join_meta by (apply plain_not_absolute, Hl).
  rewrite split_meta.
  change (login +:+ "/repos.json") with (login +:+ "/" +:+ "repos.json").
  rewrite (split_plain_slash login "repos.json" Hl).
  change (["storage"; ".meta"] ++ login :: split_slash "repos.json")
    with ["storage"; ".meta"; login; "repos.json"].
  pose proof Hl as (_ & Hp & _). cbn [removelast].
  rewrite !clean_cons_proper by (reflexivity || assumption). reflexivity.
Qed.

Lemma resolve_cached_repo_list (login : string) :
  plain login ->
  resolve (Cache.cache_path (login +:+ "/repos") None) = Some (repo_list_key login).
Proof.
  intros Hl. unfold Cache.cache_path.
  rewrite append_assoc.
  apply (resolve_account_child login "repos.json" Hl plain_repos_json).
Qed.

Lemma fs_add_events (w : world) (evs : list event) :
  w_fs (add_events w evs) = w_fs w.
Proof. reflexivity. Qed.

Lemma first_run_synced (parse : string -> option datetime) (sdk : remote)
    (user_info : json) (login : string) (items : list json)
    (slugs : list string) (w w' : world) :
  fs_wf (w_fs w) ->
  account_model sdk user_info login items slugs ->
  main parse sdk w = (w', Ok tt) ->
  synced parse user_info login items slugs (w_fs w').
Proof.
  intros Hwf Hmodel Hrun.
  destruct (main_inv _ _ _ _ _ _ _ _ Hmodel Hrun)
    as (wa & cached & updated & wb & local & wc & cached_repos & wd
        & Hmk & Hcu & Hupd & Hsave & Hloc & Hrm & Hcr & Hloop & Hfin).
  destruct Hmodel as (Huser & Hlogin & Hl & Hrepos & Hrec & Hnd).
  pose proof (os_makedirs_wf _ _ _ _ Hmk Hwf) as Hwfa.
  assert (Hb : fs_wf (w_fs wb)
               /\ exists c, w_fs wb !! user_key = Some (NFile (CJson c))
                            /\ c <> JNull
                            /\ forall b, has_update parse c user_info = Ok b ->
                                         b = false).
  { destruct updated.
    - split; [exact (save_to_storage_wf _ _ _ _ _ _ Hsave Hwfa)|].
      apply save_ok_effect in Hsave as (q & p & fsa & _ & _ & Hp & _ & ->).
      change (resolve (os_path_join meta_dir "user.json")) with (Some user_key) in Hp.
      injection Hp as <-. exists user_info. simpl. split.
      + rewrite lookup_insert_eq. destruct user_info; try discriminate. reflexivity.
      + split; [intros ->; discriminate|]. apply has_update_same.
    - unfold ret in Hsave. injection Hsave as <-. split; [exact Hwfa|].
      exists cached. rewrite fs_add_events.
      assert (Hnn : cached <> JNull) by (intros ->; discriminate).
      split; [|split; [exact Hnn|]].
      + apply (cache_request_found "user" wa wa); try assumption;
          [reflexivity|discriminate].
      + intros b Hbb. destruct cached; congruence. }
  destruct Hb as (Hwfb & c & HUb & Hc & Hsame).
  destruct (get_local_repo_names_spec login
              (add_events wb [EGet ("users/" +:+ login +:+ "/repos")]) _ _
              Hl Hwfb Hloc) as (_ & Hplain & Hiff).
  destruct (removal_loop_spec _ _ _ Hl Hplain _ _ Hrm) as (Hsub & Hkeep & Hgone).
  assert (Hinv : cache_inv login slugs (NFile (CJson c)) (w_fs wc)).
  { split; [|split].
    - intros k v Hk. eapply Hwfb, Hsub, Hk.
    - apply Hkeep; [exact HUb|simpl; lia].
    - intros x Hx. pose proof (Hsub _ _ Hx) as Hxb.
      rewrite fs_add_events in Hxb.
      destruct (py_in (JStr x) (map JStr slugs)) eqn:Ein.
      + apply py_in_strs, Ein.
      + rewrite Hgone in Hx; [discriminate| |exact Ein].
        apply Hiff. rewrite fs_add_events. exact Hxb. }
  pose proof (crawl_loop_keeps_inv parse sdk login slugs _ cached_repos _ 0 _
                Hl Hrec _ _ _ Hloop Hinv) as (Hwfd & HUd & Hchd).
  pose proof (save_to_storage_wf _ _ _ _ _ _ Hfin Hwfd) as Hwf'.
  apply save_ok_effect in Hfin as (q & p & fsa & Hq & Hmk3 & Hp & _ & ->).
  rewrite (resolve_repo_list_dir login Hl) in Hq. injection Hq as <-.
  rewrite (resolve_repo_list login Hl) in Hp. injection Hp as <-.
  destruct (makedirs_from_spec _ _ _ _ Hmk3) as (Hmono & Hnew & Hpos).
  simpl in Hwf'. simpl.
  split; [exact Hwf'|]. split; [|split; [|split]].
  - intros r1 r2 Hne E. rewrite lookup_insert_ne.
    + apply (Hpos r1 r2 Hne E).
    + intros E'. apply (f_equal length) in E, E'.
      unfold repo_list_key in E'. rewrite !length_app in *. simpl in *. lia.
  - exists c. split; [|split; assumption].
    rewrite lookup_insert_ne by discriminate. apply Hmono, HUd.
  - apply lookup_insert_eq.
  - intros x Hx. destruct (decide (repo_list_key login = account_dir login ++ [x]))
      as [E|Hne].
    + rewrite E, lookup_insert_eq in Hx. discriminate.
    + rewrite lookup_insert_ne in Hx by exact Hne.
      destruct (Hnew _ _ Hx) as [Hold|(_ & r1 & r2 & _ & E1 & E2)].
      * apply Hchd, Hold.
      * simpl in E2. subst r1. apply (f_equal length) in E1.
        rewrite !length_app in E1. simpl in E1. lia.
Qed.

(** *** The second run *)

#[global] Instance no_change_step : StepRel no_change.
Proof.
  split; unfold no_change.
  - intros w o _. split; [reflexivity|]. exists []. rewrite app_nil_r. auto.
  - intros w1 w2 w3 o H12 H23 Ho.
    destruct (H12 eq_refl) as (E1 & d1 & T1 & F1).
    destruct (H23 Ho) as (E2 & d2 & T2 & F2).
    split; [congruence|]. exists (d1 ++ d2).
    rewrite T2, T1, app_assoc, List.filter_app, F1, F2. auto.
Qed.

Lemma id_matches_slugs (repo x : json) (s sx : string) :
  py_getitem repo "slug" = Ok (JStr s) ->
  py_getitem x "slug" = Ok (JStr sx) ->
  id_matches "slug" repo x = Ok (String.eqb sx s).
Proof. intros Hr Hx. unfold id_matches. rewrite Hx. simpl. rewrite Hr. reflexivity. Qed.

Lemma filter_result_none (login : string) (repo : json) (s : string)
    (items : list json) (slugs : list string) :
  Forall2 (repo_record login) items slugs ->
  py_getitem repo "slug" = Ok (JStr s) ->
  ~ In s slugs ->
  filter_result (id_matches "slug" repo) items = Ok [].
Proof.
  intros Hrec Hs. induction Hrec as [|x sx items slugs (Hx & _) _ IH]; intros Hnot.
  - reflexivity.
  - apply (filter_result_cons _ _ _ _ false).
    + rewrite (id_matches_slugs _ _ _ _ Hs Hx). f_equal.
      apply String.eqb_neq. intros ->. apply Hnot. left; reflexivity.
    + apply IH. intros Hin. apply Hnot. right; exact Hin.
Qed.

Lemma candidates_unique (login : string) (repo : json) (items : list json)
    (slugs : list string) :
  Forall2 (repo_record login) items slugs ->
  NoDup slugs ->
  In repo items ->
  candidates (JArr items) repo repo_id_key = Ok [repo].
Proof.
  intros Hrec Hnd Hin. unfold candidates, repo_id_key. simpl.
  induction Hrec as [|x sx items slugs Hx Hrec IH]; [contradiction|].
  apply NoDup_cons in Hnd as [Hsx Hnd].
  destruct Hx as (Hx & _).
  destruct Hin as [<-|Hin].
  - apply (filter_result_cons _ _ _ _ true).
    + rewrite (id_matches_slugs _ _ _ _ Hx Hx), String.eqb_refl. reflexivity.
    + eapply filter_result_none; eauto. rewrite <- list_elem_of_In. exact Hsx.
  - destruct (Forall2_In_l _ _ _ _ Hrec Hin) as (s & Hs & Hr & _).
    apply (filter_result_cons _ _ _ _ false).
    + rewrite (id_matches_slugs _ _ _ _ Hr Hx). f_equal.
      apply String.eqb_neq. intros ->. apply Hsx. rewrite list_elem_of_In. exact Hs.
    + apply IH; assumption.
Qed.

Lemma entry_no_change (parse : string -> option datetime) (sdk : remote)
    (login : string) (items : list json) (slugs : list string) (n j : nat)
    (repo : json) :
  Forall2 (repo_record login) items slugs ->
  NoDup slugs ->
  In repo items ->
  sat no_change (crawl_repo_entry parse sdk (JArr items) n j repo).
Proof.
  intros Hrec Hnd Hin w w' r H Ho.
  destruct r as [[]|e]; [|discriminate]. unfold crawl_repo_entry in H.
  apply bind_inv in H as (w1 & name & Hname & H).
  apply lift_inv in Hname as [-> _].
  apply bind_inv in H as (w2 & [] & Hlog & H).
  unfold log, emit in Hlog. injection Hlog as <-.
  apply bind_inv in H as (w3 & cands & Hc & H).
  apply lift_inv in Hc as [-> Hc].
  rewrite (candidates_unique _ _ _ _ Hrec Hnd Hin) in Hc. injection Hc as <-.
  apply bind_inv in H as (w4 & updated & Hu & H).
  apply lift_inv in Hu as [-> Hu].
  apply has_update_same in Hu. subst updated.
  unfold log, emit in H. injection H as <-. simpl.
  split; [reflexivity|].
  exists [ELog Info (MsgCrawlingRepo name (j + 1) n); ELog Warning MsgNoUpdate].
  rewrite <- app_assoc. auto.
Qed.

Lemma removal_noop (login : string) (names : list json) (l : list string)
    (w : world) :
  (forall x, In x l -> py_in (JStr x) names = true) ->
  for_each (remove_old_repo login names) l w = (w, Ok tt).
Proof.
  induction l as [|x l IH]; intros H; simpl; [reflexivity|].
  unfold bind, remove_old_repo at 1. rewrite (H x) by (left; reflexivity).
  simpl. apply IH. intros y Hy. apply H. right; exact Hy.
Qed.

Lemma second_run_after_synced (parse : string -> option datetime) (sdk : remote)
    (user_info : json) (login : string) (items : list json)
    (slugs : list string) (w w' : world) :
  account_model sdk user_info login items slugs ->
  synced parse user_info login items slugs (w_fs w) ->
  main parse sdk w = (w', Ok tt) ->
  w_fs w' = w_fs w
  /\ exists d,
       w_trace w' = w_trace w ++ d
       /\ List.filter is_mutation d
          = [EWrite SRepoList (meta_dir +:+ "/" +:+ login +:+ "/repos.json")
               (CJson (JArr items))].
Proof.
  intros Hmodel (Hwf & Hanc & (c & HU & Hc & Hsame) & HRL & Hch) Hrun.
  destruct (main_inv _ _ _ _ _ _ _ _ Hmodel Hrun)
    as (wa & cached & updated & wb & local & wc & cached_repos & wd
        & Hmk & Hcu & Hupd & Hsave & Hloc & Hrm & Hcr & Hloop & Hfin).
  destruct Hmodel as (Huser & Hlogin & Hl & Hrepos & Hrec & Hnd).
  assert (Ea : wa = w).
  { destruct (os_makedirs_effect _ _ _ _ Hmk)
      as [Htr [(q & Hq & Hmk' & _)|[_ [e He]]]]; [|discriminate].
    change (resolve meta_dir) with (Some ["storage"; ".meta"]) in Hq.
    injection Hq as <-.
    rewrite makedirs_from_noop in Hmk'.
    - injection Hmk' as Hfs. destruct wa, w; simpl in *; congruence.
    - intros r1 r2 Hne E. apply (Hanc r1 (r2 ++ [login])); [exact Hne|].
      rewrite app_assoc, <- E. reflexivity. }
  subst wa.
  assert (cached = c).
  { unfold Cache.get_user in Hcu.
    rewrite (cache_request_value "user" w user_key c) in Hcu;
      [congruence|reflexivity|discriminate|exact HU]. }
  subst cached.
  assert (updated = false).
  { apply Hsame. destruct c; congruence. }
  subst updated. unfold ret in Hsave. injection Hsave as <-.
  destruct (get_local_repo_names_spec login
              (add_events (add_events w [EGet "user"])
                 [EGet ("users/" +:+ login +:+ "/repos")]) _ _ Hl Hwf Hloc)
    as (_ & _ & Hiff).
  rewrite removal_noop in Hrm.
  2:{ intros x Hx. apply py_in_strs, Hch. apply Hiff in Hx. exact Hx. }
  injection Hrm as <-.
  assert (cached_repos = JArr items).
  { unfold Cache.get_repos in Hcr.
    rewrite (cache_request_value (login +:+ "/repos") _ (repo_list_key login)
               (JArr items)) in Hcr;
      [congruence|apply resolve_cached_repo_list, Hl|discriminate|exact HRL]. }
  subst cached_repos.
  assert (Hnc : sat no_change
            (for_enum (crawl_repo_entry parse sdk (JArr items) (length items))
                      0 items)).
  { apply sat_for_enum; [apply _|]. intros j repo Hin.
    eapply entry_no_change; eassumption. }
  destruct (Hnc _ _ _ Hloop eq_refl) as (Efs & d & Etr & Hd).
  apply save_ok_effect in Hfin as (q & p & fsa & Hq & Hmk3 & Hp & _ & ->).
  rewrite (resolve_repo_list_dir login Hl) in Hq. injection Hq as <-.
  rewrite (resolve_repo_list login Hl) in Hp. injection Hp as <-.
  rewrite makedirs_from_noop in Hmk3.
  2:{ intros r1 r2 Hne E. simpl. rewrite Efs. apply (Hanc r1 r2 Hne E). }
  injection Hmk3 as <-. simpl. rewrite Efs. simpl. split.
  - apply insert_id. exact HRL.
  - exists ([EGet "user"] ++ [EGet ("users/" +:+ login +:+ "/repos")] ++ d
            ++ [EWrite SRepoList (os_path_join meta_dir (login +:+ "/repos.json"))
                  (CJson (JArr items))]).
    split.
    + rewrite Etr. simpl. rewrite <- !app_assoc. reflexivity.
    + rewrite join_meta by (apply plain_not_absolute, Hl).
      simpl. rewrite List.filter_app, Hd. reflexivity.
Qed.

Lemma account_dir_world_wf : fs_wf (w_fs account_dir_world).
Proof.
  intros k v Hk. simpl in Hk.
  assert (Hp : forall x, In x ["storage"; ".meta"; "u"] -> plain x).
  { intros x [<-|[<-|[<-|[]]]]; repeat split; discriminate || reflexivity. }
  apply lookup_insert_Some in Hk as [[<- _]|[_ Hk]].
  { apply List.Forall_forall. intros x Hx. apply Hp. simpl in *. tauto. }
  apply lookup_insert_Some in Hk as [[<- _]|[_ Hk]].
  { apply List.Forall_forall. intros x Hx. apply Hp. simpl in *. tauto. }
  apply lookup_singleton_Some in Hk as [<- _].
  apply List.Forall_forall. intros x Hx. apply Hp. simpl in *. tauto.
Qed.

Lemma one_doc_remote_model :
  account_model one_doc_remote user_u "u" [repo_entry_r T0] ["r"].
Proof.
  assert (Hu : plain "u") by (repeat split; discriminate || reflexivity).
  assert (Hr : plain "r") by (repeat split; discriminate || reflexivity).
  split; [reflexivity|]. split; [reflexivity|]. split; [exact Hu|].
  split; [reflexivity|]. split.
  - constructor; [|constructor]. split; [reflexivity|]. split; [exact Hr|reflexivity].
  - apply NoDup_singleton.
Qed.

Lemma first_sync_returns :
  main iso_parse one_doc_remote account_dir_world
  = (after_sync one_doc_remote account_dir_world, Ok tt).
Proof. vm_compute. reflexivity. Qed.

Lemma second_sync_returns :
  main iso_parse one_doc_remote (after_sync one_doc_remote account_dir_world)
  = (after_sync one_doc_remote (after_sync one_doc_remote account_dir_world),
     Ok tt).
Proof. vm_compute. reflexivity. Qed.

(** C5 as stated fails.  With the remote unchanged, the second run
    writes the repository list again.  And for a remote outside the data
    model, whose repository [r] has the namespace [u/x], the second run
    removes the directory [u/x] the first run created: the store after
    the second run differs from the store after the first. *)
Lemma second_run_writes_repository_list :
  snd (main iso_parse one_doc_remote account_dir_world) = Ok tt
  /\ snd (main iso_parse one_doc_remote synced_world) = Ok tt
  /\ w_trace (after_sync one_doc_remote synced_world)
     = [EGet "user"; EGet "users/u/repos";
        ELog Info (MsgCrawlingRepo "R" 1 1); ELog Warning MsgNoUpdate;
        EWrite SRepoList "storage/.meta/u/repos.json"
          (CJson (JArr [repo_entry_r T0]))]
  /\ snd (main iso_parse misplaced_remote account_dir_world) = Ok tt
  /\ snd (main iso_parse misplaced_remote
            (after_sync misplaced_remote account_dir_world)) = Ok tt
  /\ w_fs (after_sync misplaced_remote account_dir_world)
       !! ["storage"; ".meta"; "u"; "x"; "repo.json"]
     = Some (NFile (CJson (repo_detail_r T0)))
  /\ w_fs (after_sync misplaced_remote
             (after_sync misplaced_remote account_dir_world))
       !! ["storage"; ".meta"; "u"; "x"; "repo.json"] = None.
Proof. repeat split; vm_compute; reflexivity. Qed.

(** C5 amended: for a remote that satisfies the data model (the login
    and the slugs are names, the slugs are pairwise distinct, the
    namespace of a repository is [{login}/{slug}]) and a well-formed
    initial store, when the sync is run twice with the remote unchanged
    and both runs return, the second run makes one call that changes the
    cache, the write of the repository list [{login}/repos.json] with
    the content the first run wrote, and apart from the log file
    [main.log], which every run truncates and rewrites, the store after
    the second run holds at every path what the store after the first
    run holds. *)
Theorem second_run_rewrites_only_repository_list
    (parse : string -> option datetime) (sdk : remote) (user_info : json)
    (login : string) (items : list json) (slugs : list string)
    (w0 w1 w2 : world) :
  fs_wf (w_fs w0) ->
  account_model sdk user_info login items slugs ->
  main parse sdk w0 = (w1, Ok tt) ->
  main parse sdk w1 = (w2, Ok tt) ->
  (forall k, k <> main_log_key -> w_fs w2 !! k = w_fs w1 !! k)
  /\ exists d,
       w_trace w2 = w_trace w1 ++ d
       /\ List.filter is_mutation d
          = [EWrite SRepoList (meta_dir +:+ "/" +:+ login +:+ "/repos.json")
               (CJson (JArr items))].
Proof.
  intros Hwf Hmodel Hrun1 Hrun2.
  destruct (second_run_after_synced parse sdk user_info login items slugs w1 w2
              Hmodel (first_run_synced _ _ _ _ _ _ _ _ Hwf Hmodel Hrun1) Hrun2)
    as [Hfs Htrace].
  split; [|exact Htrace]. intros k _. rewrite Hfs. reflexivity.
Qed.

Lemma second_run_rewrites_only_repository_list_witness :
  (forall k, k <> main_log_key ->
     w_fs (after_sync one_doc_remote (after_sync one_doc_remote account_dir_world))
       !! k
     = w_fs (after_sync one_doc_remote account_dir_world) !! k)
  /\ exists d,
       w_trace (after_sync one_doc_remote
                  (after_sync one_doc_remote account_dir_world))
       = w_trace (after_sync one_doc_remote account_dir_world) ++ d
       /\ List.filter is_mutation d
          = [EWrite SRepoList (meta_dir +:+ "/" +:+ "u" +:+ "/repos.json")
               (CJson (JArr [repo_entry_r T0]))].
Proof.
  apply (second_run_rewrites_only_repository_list iso_parse one_doc_remote
           user_u "u" [repo_entry_r T0] ["r"] account_dir_world).
  - exact account_dir_world_wf.
  - exact one_doc_remote_model.
  - exact first_sync_returns.
  - exact second_sync_returns.
Defined.

(** * Further properties of the script *)

(** ** The comparator, in general *)

Lemma total_us_of_us (us : Z) : total_us (timedelta_of_us us) = us.
Proof.
  unfold total_us, timedelta_of_us; simpl.
  pose proof (Z.div_mod us 86400000000 ltac:(lia)) as H1.
  pose proof (Z.div_mod (us mod 86400000000) 1000000 ltac:(lia)) as H2.
  assert (H3 : ((us mod 86400000000) mod 1000000 = us mod 1000000)%Z).
  { apply Z.mod_mod_divide. exists 86400%Z. lia. }
  lia.
Qed.

Lemma datetime_sub_total (a b : datetime) (delta : timedelta) :
  datetime_sub a b = Ok delta -> delta = timedelta_of_us (total_us delta).
Proof.
  unfold datetime_sub.
  destruct (dt_offset a), (dt_offset b); intros H; inversion H;
    rewrite total_us_of_us; reflexivity.
Qed.

Lemma seconds_positive (us : Z) :
  (0 <? seconds (timedelta_of_us us))%Z = (second_us <=? us mod day_us)%Z.
Proof.
  unfold timedelta_of_us, second_us, day_us; simpl.
  pose proof (Z.mod_pos_bound us 86400000000 ltac:(lia)) as Hm.
  destruct (Z.leb_spec 1000000 (us mod 86400000000)) as [Hle|Hlt].
  - apply Z.ltb_lt. apply Z.div_str_pos. lia.
  - apply Z.ltb_ge. rewrite Z.div_small by lia. lia.
Qed.

(** What [has_update] answers on two timestamps that parse: whether the
    difference, reduced modulo one day, is at least one second. *)
Lemma has_update_mod_day (parse : string -> option datetime)
    (cached d : json) (sc sd : string) (tc td : datetime) (delta : timedelta) :
  py_getitem cached "updated_at" = Ok (JStr sc) ->
  py_getitem d "updated_at" = Ok (JStr sd) ->
  parse sc = Some tc ->
  parse sd = Some td ->
  datetime_sub td tc = Ok delta ->
  has_update parse cached d = Ok (second_us <=? total_us delta mod day_us)%Z.
Proof.
  intros Hc Hd Hpc Hpd Hsub.
  rewrite (has_update_seconds parse cached d sc sd tc td delta) by assumption.
  rewrite (datetime_sub_total _ _ _ Hsub) at 1.
  rewrite seconds_positive. reflexivity.
Qed.

(** X1: on two records whose timestamps parse, [has_update] answers
    whether the time elapsed from the cached to the remote timestamp,
    reduced modulo one day, is at least one second; the sign of the
    elapsed time and its whole days play no part. *)
Theorem has_update_compares_time_of_day (parse : string -> option datetime)
    (cached d : json) (sc sd : string) (tc td : datetime) (delta : timedelta) :
  py_getitem cached "updated_at" = Ok (JStr sc) ->
  py_getitem d "updated_at" = Ok (JStr sd) ->
  parse sc = Some tc ->
  parse sd = Some td ->
  datetime_sub td tc = Ok delta ->
  has_update parse cached d = Ok (second_us <=? total_us delta mod day_us)%Z.
Proof. apply has_update_mod_day. Qed.

Lemma has_update_compares_time_of_day_witness :
  has_update iso_parse (stamped T0 []) (stamped T0_plus_2s [])
  = Ok (second_us <=? 2000000 mod day_us)%Z.
Proof.
  apply (has_update_compares_time_of_day iso_parse (stamped T0 [])
           (stamped T0_plus_2s []) T0 T0_plus_2s
           {| dt_wall := 1704067200000000; dt_offset := Some 0%Z |}
           {| dt_wall := 1704067202000000; dt_offset := Some 0%Z |}
           {| days := 0; seconds := 2; microseconds := 0 |});
    reflexivity.
Defined.

(** X2: when the remote timestamp is later than the cached one by less
    than one day, [has_update] reports an update exactly when the two
    are at least one second apart. *)
Theorem has_update_within_a_day (parse : string -> option datetime)
    (cached d : json) (sc sd : string) (tc td : datetime) (delta : timedelta) :
  py_getitem cached "updated_at" = Ok (JStr sc) ->
  py_getitem d "updated_at" = Ok (JStr sd) ->
  parse sc = Some tc ->
  parse sd = Some td ->
  datetime_sub td tc = Ok delta ->
  (0 <= total_us delta < day_us)%Z ->
  has_update parse cached d = Ok (second_us <=? total_us delta)%Z.
Proof.
  intros Hc Hd Hpc Hpd Hsub Hrange.
  rewrite (has_update_mod_day parse cached d sc sd tc td delta) by assumption.
  rewrite Z.mod_small by exact Hrange. reflexivity.
Qed.

Lemma has_update_within_a_day_witness :
  has_update iso_parse (stamped T0 []) (stamped T0_plus_1s []) = Ok true.
Proof.
  apply (has_update_within_a_day iso_parse (stamped T0 [])
           (stamped T0_plus_1s []) T0 T0_plus_1s
           {| dt_wall := 1704067200000000; dt_offset := Some 0%Z |}
           {| dt_wall := 1704067201000000; dt_offset := Some 0%Z |}
           {| days := 0; seconds := 1; microseconds := 0 |});
    try reflexivity.
  unfold total_us, day_us; simpl; lia.
Defined.

Lemma datetime_sub_days_later (n : Z) (a b : datetime) (delta : timedelta) :
  datetime_sub a b = Ok delta ->
  exists delta',
    datetime_sub (days_later n a) b = Ok delta'
    /\ (total_us delta' = total_us delta + n * day_us)%Z.
Proof.
  unfold datetime_sub, days_later; simpl.
  destruct (dt_offset a), (dt_offset b); intros H; inversion H; subst;
    eexists; (split; [reflexivity|]); rewrite !total_us_of_us; lia.
Qed.

(** X3: [has_update] does not see whole days.  A remote record whose
    timestamp is moved by any number of days, forward or backward, gets
    the answer of the original one; in particular a record edited at the
    same time of day on a later date is reported unchanged. *)
Theorem has_update_ignores_whole_days (parse : string -> option datetime)
    (cached d d' : json) (sc sd sd' : string) (tc td : datetime) (n : Z) :
  py_getitem cached "updated_at" = Ok (JStr sc) ->
  py_getitem d "updated_at" = Ok (JStr sd) ->
  py_getitem d' "updated_at" = Ok (JStr sd') ->
  parse sc = Some tc ->
  parse sd = Some td ->
  parse sd' = Some (days_later n td) ->
  has_update parse cached d' = has_update parse cached d.
Proof.
  intros Hc Hd Hd' Hpc Hpd Hpd'.
  destruct (datetime_sub td tc) as [delta|e] eqn:Hsub.
  - destruct (datetime_sub_days_later n _ _ _ Hsub) as (delta' & Hsub' & Htot).
    rewrite (has_update_mod_day parse cached d sc sd tc td delta) by assumption.
    rewrite (has_update_mod_day parse cached d' sc sd' tc (days_later n td) delta')
      by assumption.
    rewrite Htot, Z.mod_add by (unfold day_us; lia). reflexivity.
  - unfold has_update, has_update_key.
    rewrite Hc, Hd, Hd'; simpl. rewrite Hpc, Hpd, Hpd'; simpl.
    rewrite Hsub.
    assert (Hsub' : datetime_sub (days_later n td) tc = Raise e).
    { revert Hsub. unfold datetime_sub, days_later; simpl.
      destruct (dt_offset td), (dt_offset tc); intros H; inversion H; reflexivity. }
    rewrite Hsub'. reflexivity.
Qed.

Lemma has_update_ignores_whole_days_witness :
  has_update iso_parse (stamped T0 []) (stamped T0_plus_1day [])
  = has_update iso_parse (stamped T0 []) (stamped T0 []).
Proof.
  apply (has_update_ignores_whole_days iso_parse (stamped T0 []) (stamped T0 [])
           (stamped T0_plus_1day []) T0 T0 T0_plus_1day
           {| dt_wall := 1704067200000000; dt_offset := Some 0%Z |}
           {| dt_wall := 1704067200000000; dt_offset := Some 0%Z |} 1);
    reflexivity.
Defined.

(** ** Saving a file and reading it back *)

Lemma plain_proper (x : string) : plain x -> proper_segment x = true.
Proof. intros (_ & H & _); exact H. Qed.

Lemma clean_plain_list (l : list string) : Forall plain l -> clean l = l.
Proof.
  induction 1 as [|x l Hx _ IH]; [reflexivity|].
  rewrite clean_cons_proper by (apply plain_proper, Hx). rewrite IH. reflexivity.
Qed.

Lemma no_dotdot_plain_list (l : list string) :
  Forall plain l -> existsb (String.eqb "..") l = false.
Proof.
  induction 1 as [|x l Hx _ IH]; [reflexivity|].
  apply no_dotdot_cons; [apply plain_not_dotdot, Hx|exact IH].
Qed.

Lemma relative_name_not_absolute (f : string) :
  relative_name f -> is_absolute f = false.
Proof.
  unfold relative_name. destruct f as [|c f]; [reflexivity|]. simpl.
  destruct (Ascii.eqb c "/"); [|reflexivity].
  intros H. inversion H as [|x l (_ & Hp & _) _]. discriminate.
Qed.

Lemma resolve_storage_key (f : string) :
  relative_name f ->
  resolve (os_path_join meta_dir f) = Some (storage_key f).
Proof.
  intros Hf. rewrite join_meta by (apply relative_name_not_absolute, Hf).
  apply resolve_Some. split; [reflexivity|].
  rewrite split_meta. unfold storage_key.
  change (["storage"; ".meta"] ++ split_slash f)
    with ("storage" :: ".meta" :: split_slash f).
  rewrite !clean_cons_proper by reflexivity.
  rewrite (clean_plain_list _ Hf). split; [reflexivity|].
  apply no_dotdot_cons; [reflexivity|].
  apply no_dotdot_cons; [reflexivity|].
  apply no_dotdot_plain_list, Hf.
Qed.

Lemma resolve_storage_key_dir (f : string) :
  relative_name f ->
  resolve (os_path_dirname (os_path_join meta_dir f))
  = Some (removelast (storage_key f)).
Proof.
  intros Hf. rewrite (resolve_dirname _ _ (resolve_storage_key f Hf)).
  rewrite join_meta by (apply relative_name_not_absolute, Hf).
  rewrite split_meta. f_equal. unfold storage_key.
  rewrite removelast_app_ne by apply split_slash_nonempty.
  change (["storage"; ".meta"] ++ removelast (split_slash f))
    with ("storage" :: ".meta" :: removelast (split_slash f)).
  rewrite !clean_cons_proper by reflexivity.
  rewrite clean_plain_list; [reflexivity|].
  unfold relative_name in Hf. clear -Hf.
  induction Hf as [|x l Hx Hl IH]; [constructor|].
  destruct l; [constructor|]. simpl. constructor; [exact Hx|exact IH].
Qed.

(** [os.makedirs] goes through when no regular file is on its way. *)
Lemma makedirs_from_total (rest : path) :
  forall (pre : path) (fs : gmap path node),
    (forall r1 r2 c, r1 <> [] -> rest = r1 ++ r2 ->
                     fs !! (pre ++ r1) <> Some (NFile c)) ->
    exists fs', makedirs_from pre rest fs = Ok fs'.
Proof.
  induction rest as [|x rest IH]; intros pre fs Hfree; simpl; [eauto|].
  assert (Hrec : forall fs1,
            (forall k, k <> pre ++ [x] -> fs1 !! k = fs !! k) ->
            exists fs', makedirs_from (pre ++ [x]) rest fs1 = Ok fs').
  { intros fs1 Hsame. apply IH. intros r1 r2 c Hne ->.
    destruct r1 as [|y r1]; [contradiction|].
    rewrite Hsame.
    - rewrite <- app_assoc. apply (Hfree (x :: y :: r1) r2); [discriminate|reflexivity].
    - rewrite <- app_assoc. intros E. apply app_inv_head in E. discriminate. }
  destruct (fs !! (pre ++ [x])) as [[c|]|] eqn:E.
  - exfalso. apply (Hfree [x] rest c); [discriminate|reflexivity|exact E].
  - apply Hrec. reflexivity.
  - apply Hrec. intros k Hk. apply lookup_insert_ne. congruence.
Qed.

Lemma resolve_join_meta (f : string) (p : path) :
  resolve (os_path_join meta_dir f) = Some p ->
  os_path_join meta_dir f = meta_dir +:+ "/" +:+ f
  /\ p = "storage" :: ".meta" :: clean (split_slash f).
Proof.
  intros Hp. unfold os_path_join in *. destruct (is_absolute f) eqn:Ha.
  - unfold resolve in Hp. rewrite Ha in Hp. discriminate.
  - split; [reflexivity|]. apply resolve_Some in Hp as (_ & -> & _).
    rewrite split_meta. reflexivity.
Qed.

Lemma content_of_json (c : json) :
  (forall s, c <> JStr s) -> content_of c = CJson c.
Proof. intros Hc. destruct c; try reflexivity. exfalso. eapply Hc; reflexivity. Qed.

(** What [Cache.request] returns after [save_to_storage] has stored a
    value under the same name. *)
Lemma save_then_request (st : site) (name : string) (c : json) (w w' : world) :
  (forall s, c <> JStr s) ->
  save_to_storage st (name +:+ ".json") c w = (w', Ok tt) ->
  Cache.request name None w' = (w', Ok c).
Proof.
  intros Hc H.
  destruct (save_ok_effect _ _ _ _ _ H) as (q & p & fsa & _ & _ & Hp & _ & ->).
  destruct (resolve_join_meta _ _ Hp) as [Hjoin Hpath].
  apply (cache_request_value name _ p).
  - unfold Cache.cache_path. rewrite <- Hjoin. exact Hp.
  - rewrite Hpath. discriminate.
  - simpl. rewrite lookup_insert_eq, (content_of_json c Hc). reflexivity.
Qed.

(** X4: a value other than a string that [save_to_storage] has stored as
    [{name}.json] is what [Cache.request] returns for [name] afterwards,
    and the read leaves the world as it is. *)
Theorem saved_record_is_read_back (st : site) (name : string) (c : json)
    (w w' : world) :
  (forall s, c <> JStr s) ->
  save_to_storage st (name +:+ ".json") c w = (w', Ok tt) ->
  Cache.request name None w' = (w', Ok c).
Proof. apply save_then_request. Qed.

Lemma saved_record_is_read_back_witness :
  Cache.request "u/r/docs" None
    (fst (save_to_storage SDocList "u/r/docs.json" (JArr [doc_entry "d" T0])
            empty_world))
  = (fst (save_to_storage SDocList "u/r/docs.json" (JArr [doc_entry "d" T0])
            empty_world),
     Ok (JArr [doc_entry "d" T0])).
Proof.
  apply (saved_record_is_read_back SDocList "u/r/docs" (JArr [doc_entry "d" T0])
           empty_world).
  - discriminate.
  - vm_compute. reflexivity.
Defined.

Lemma os_makedirs_ok (s : string) (p : path) (w : world) (fs' : gmap path node) :
  resolve s = Some p -> p <> [] ->
  makedirs_from [] p (w_fs w) = Ok fs' ->
  os_makedirs s w = (World fs' (w_trace w), Ok tt).
Proof.
  intros Hp Hne Hmk. unfold os_makedirs, with_path. rewrite Hp.
  unfold bind, get_fs, lift, put_fs. simpl.
  destruct p as [|x p]; [contradiction|]. rewrite Hmk. reflexivity.
Qed.

Lemma write_file_ok (st : site) (s : string) (c : content) (p : path) (w : world) :
  resolve s = Some p -> p <> [] ->
  node_at (w_fs w) (removelast p) = Some NDir ->
  w_fs w !! p <> Some NDir ->
  write_file st s c w
  = (World (<[p := NFile c]> (w_fs w)) (w_trace w ++ [EWrite st s c]), Ok tt).
Proof.
  intros Hp Hne Hpar Hnd. unfold write_file, with_path. rewrite Hp.
  unfold bind, get_fs, put_fs, emit. simpl.
  destruct p as [|x p]; [contradiction|]. rewrite Hpar.
  destruct (w_fs w !! (x :: p)) as [[c'|]|]; try reflexivity. contradiction.
Qed.

Lemma node_at_ne (fs : gmap path node) (p : path) :
  p <> [] -> node_at fs p = fs !! p.
Proof. destruct p; [contradiction|reflexivity]. Qed.

Lemma ancestor_removelast (q p : path) :
  ancestor q p <-> exists r2, q <> [] /\ removelast p = q ++ r2 /\ p <> [].
Proof.
  split.
  - intros (rest & Hq & Hrest & ->). exists (removelast rest).
    split; [exact Hq|]. split; [apply removelast_app_ne, Hrest|].
    destruct q; [contradiction|discriminate].
  - intros (r2 & Hq & Hrl & Hp). exists (r2 ++ [List.last p ""]).
    split; [exact Hq|]. split; [destruct r2; discriminate|].
    rewrite app_assoc, <- Hrl. apply List.app_removelast_last, Hp.
Qed.

Lemma storage_key_long (f : string) : 3 <= length (storage_key f).
Proof.
  unfold storage_key. pose proof (split_slash_nonempty f).
  destruct (split_slash f); [contradiction|simpl; lia].
Qed.

Lemma removelast_length {A} (l : list A) : length (removelast l) = length l - 1.
Proof.
  induction l as [|x l IH]; [reflexivity|].
  destruct l; [reflexivity|]. cbn [removelast length] in *. lia.
Qed.

(** What [save_to_storage] does for a file name made of names when no
    regular file is where a directory has to be and no directory where
    the file goes. *)
Lemma save_relative_ok (st : site) (f : string) (c : json) (w : world) :
  relative_name f ->
  (forall q x, ancestor q (storage_key f) -> w_fs w !! q <> Some (NFile x)) ->
  w_fs w !! storage_key f <> Some NDir ->
  exists fsa,
    makedirs_from [] (removelast (storage_key f)) (w_fs w) = Ok fsa
    /\ fsa !! storage_key f <> Some NDir
    /\ save_to_storage st f c w
       = (World (<[storage_key f := NFile (content_of c)]> fsa)
                (w_trace w ++ [EWrite st (os_path_join meta_dir f) (content_of c)]),
          Ok tt).
Proof.
  intros Hf Hfree Hnd.
  pose proof (storage_key_long f) as Hlen.
  assert (Hne : storage_key f <> []) by (intros E; rewrite E in Hlen; simpl in Hlen; lia).
  assert (Hqne : removelast (storage_key f) <> []).
  { intros E. pose proof (removelast_length (storage_key f)) as Hl.
    rewrite E in Hl. simpl in Hl. lia. }
  destruct (makedirs_from_total (removelast (storage_key f)) [] (w_fs w)) as [fsa Hmk].
  { intros r1 r2 x Hr1 Hsplit. apply Hfree. apply ancestor_removelast.
    exists r2. auto. }
  destruct (makedirs_from_spec _ _ _ _ Hmk) as (Hmono & Hnew & Hdirs).
  assert (Hnda : fsa !! storage_key f <> Some NDir).
  { intros E. destruct (Hnew _ _ E) as [Hold|(_ & r1 & r2 & _ & Hsplit & Hk)];
      [contradiction|].
    simpl in Hk. pose proof (removelast_length (storage_key f)) as Hl.
    rewrite Hsplit, <- Hk, length_app in Hl. lia. }
  exists fsa. split; [exact Hmk|]. split; [exact Hnda|].
  unfold save_to_storage, bind.
  rewrite (os_makedirs_ok _ _ _ _ (resolve_storage_key_dir f Hf) Hqne Hmk).
  assert (Hw : write_file st (os_path_join meta_dir f) (content_of c)
                 (World fsa (w_trace w))
               = (World (<[storage_key f := NFile (content_of c)]> fsa)
                    (w_trace w ++ [EWrite st (os_path_join meta_dir f) (content_of c)]),
                  Ok tt)).
  { apply (write_file_ok st _ _ (storage_key f) (World fsa (w_trace w)));
      [apply resolve_storage_key, Hf|exact Hne| |exact Hnda].
    cbn [w_fs]. rewrite node_at_ne by exact Hqne.
    apply (Hdirs (removelast (storage_key f)) []); [exact Hqne|].
    symmetry; apply app_nil_r. }
  destruct c; exact Hw.
Qed.

(** X5: for a file name made of names, [save_to_storage] returns
    whenever no regular file is where one of the directories above the
    target has to be and the target is not a directory.  It creates the
    missing directories, the target then holds the content, and every
    other entry of the store is kept. *)
Theorem save_to_storage_creates_parents (st : site) (f : string) (c : json)
    (w : world) :
  relative_name f ->
  (forall q x, ancestor q (storage_key f) -> w_fs w !! q <> Some (NFile x)) ->
  w_fs w !! storage_key f <> Some NDir ->
  exists w',
    save_to_storage st f c w = (w', Ok tt)
    /\ w_fs w' !! storage_key f = Some (NFile (content_of c))
    /\ (forall q, ancestor q (storage_key f) -> w_fs w' !! q = Some NDir)
    /\ (forall k v, k <> storage_key f -> w_fs w !! k = Some v ->
                    w_fs w' !! k = Some v)
    /\ w_trace w'
       = w_trace w ++ [EWrite st (meta_dir +:+ "/" +:+ f) (content_of c)].
Proof.
  intros Hf Hfree Hnd.
  destruct (save_relative_ok st f c w Hf Hfree Hnd) as (fsa & Hmk & Hnda & Hsave).
  destruct (makedirs_from_spec _ _ _ _ Hmk) as (Hmono & _ & Hdirs).
  eexists. split; [exact Hsave|]. simpl.
  split; [apply lookup_insert_eq|].
  split; [|split].
  - intros q Hq. pose proof Hq as (rest & Hqne & Hrest & Hsplit).
    rewrite lookup_insert_ne.
    + apply ancestor_removelast in Hq as (r2 & _ & Hrl & _).
      apply (Hdirs q r2); assumption.
    + intros E. rewrite <- E in Hsplit at 1.
      apply (f_equal (@length string)) in Hsplit. rewrite length_app in Hsplit.
      destruct rest; [contradiction|simpl in Hsplit; lia].
  - intros k v Hk Hv. rewrite lookup_insert_ne by congruence. apply Hmono, Hv.
  - rewrite join_meta by (apply relative_name_not_absolute, Hf). reflexivity.
Qed.

Lemma relative_name_docs : relative_name "u/r/docs/d.json".
Proof.
  unfold relative_name. simpl.
  repeat constructor; simpl; discriminate.
Qed.

Lemma save_to_storage_creates_parents_witness :
  exists w',
    save_to_storage SDocDetail "u/r/docs/d.json" (doc_detail "d" "hello")
      empty_world = (w', Ok tt)
    /\ w_fs w' !! storage_key "u/r/docs/d.json"
       = Some (NFile (content_of (doc_detail "d" "hello")))
    /\ (forall q, ancestor q (storage_key "u/r/docs/d.json") ->
                  w_fs w' !! q = Some NDir)
    /\ (forall k v, k <> storage_key "u/r/docs/d.json" ->
                    w_fs empty_world !! k = Some v -> w_fs w' !! k = Some v)
    /\ w_trace w'
       = w_trace empty_world
         ++ [EWrite SDocDetail (meta_dir +:+ "/" +:+ "u/r/docs/d.json")
               (content_of (doc_detail "d" "hello"))].
Proof.
  apply (save_to_storage_creates_parents SDocDetail "u/r/docs/d.json"
           (doc_detail "d" "hello") empty_world).
  - exact relative_name_docs.
  - intros q x _. simpl. rewrite lookup_empty. discriminate.
  - simpl. rewrite lookup_empty. discriminate.
Defined.

(** The effect of a call of [save_to_storage] that returns, with what
    the write found in the store. *)
Lemma save_ok_steps (st : site) (f : string) (c : json) (w w' : world) :
  save_to_storage st f c w = (w', Ok tt) ->
  exists q p fsa,
    resolve (os_path_dirname (os_path_join meta_dir f)) = Some q
    /\ makedirs_from [] q (w_fs w) = Ok fsa
    /\ resolve (os_path_join meta_dir f) = Some p
    /\ p <> []
    /\ node_at fsa (removelast p) = Some NDir
    /\ fsa !! p <> Some NDir
    /\ w' = World (<[p := NFile (content_of c)]> fsa)
                  (w_trace w ++ [EWrite st (os_path_join meta_dir f) (content_of c)]).
Proof.
  intros H. unfold save_to_storage in H.
  apply bind_inv in H as (wa & [] & Hmk & H).
  destruct (os_makedirs_effect _ _ _ _ Hmk)
    as [Htr [(q & Hq & Hmk' & _)|[_ [e He]]]]; [|discriminate].
  assert (Hw : write_file st (os_path_join meta_dir f) (content_of c) wa
               = (w', Ok tt)).
  { destruct c; exact H. }
  destruct (write_file_effect _ _ _ _ _ _ Hw)
    as [(p & Hp & Hne & Hpar & Hnd & -> & _)|[_ [e He]]]; [|discriminate].
  exists q, p, (w_fs wa). rewrite Htr. repeat split; assumption.
Qed.

Lemma dirname_join_nonempty (f : string) (q : path) :
  is_absolute f = false ->
  resolve (os_path_dirname (os_path_join meta_dir f)) = Some q -> q <> [].
Proof.
  intros Ha (_ & -> & _)%resolve_Some.
  rewrite clean_dirname, join_meta, split_meta by exact Ha.
  rewrite removelast_app_ne by apply split_slash_nonempty. discriminate.
Qed.

Lemma removelast_ne {A} (p : list A) : p <> [] -> removelast p <> p.
Proof.
  intros Hne E. apply (f_equal (@length A)) in E.
  rewrite removelast_length in E. destruct p; [contradiction|simpl in E; lia].
Qed.

(** X6: once [save_to_storage] has returned for a file name, a second
    call for the same name returns too, whatever the content: the
    directories are there ([exist_ok=True]) and the file is overwritten.
    The store afterwards differs from the one before the second call
    at the target only, and not at all when the content is the same. *)
Theorem save_to_storage_again (st st' : site) (f : string) (c c' : json)
    (w w1 : world) :
  save_to_storage st f c w = (w1, Ok tt) ->
  exists w2 p,
    save_to_storage st' f c' w1 = (w2, Ok tt)
    /\ resolve (os_path_join meta_dir f) = Some p
    /\ w_fs w2 = <[p := NFile (content_of c')]> (w_fs w1)
    /\ (content_of c' = content_of c -> w_fs w2 = w_fs w1).
Proof.
  intros H.
  destruct (save_ok_steps _ _ _ _ _ H)
    as (q & p & fsa & Hq & Hmk & Hp & Hne & Hpar & Hnd & ->).
  destruct (resolve_join_meta _ _ Hp) as [Hjoin _].
  assert (Ha : is_absolute f = false).
  { unfold os_path_join in Hp. destruct (is_absolute f) eqn:E; [|reflexivity].
    unfold resolve in Hp. rewrite E in Hp. discriminate. }
  pose proof (dirname_join_nonempty f q Ha Hq) as Hqne.
  destruct (makedirs_from_spec _ _ _ _ Hmk) as (_ & _ & Hdirs).
  set (fs1 := <[p := NFile (content_of c)]> fsa).
  assert (Hnoop : makedirs_from [] q fs1 = Ok fs1).
  { apply makedirs_from_noop. intros r1 r2 Hr1 Hsplit.
    unfold fs1. rewrite lookup_insert_ne.
    - apply (Hdirs r1 r2); assumption.
    - intros E. apply Hnd. rewrite E. apply (Hdirs r1 r2); assumption. }
  assert (Hpar1 : node_at fs1 (removelast p) = Some NDir).
  { destruct (removelast p) as [|y l] eqn:E; [reflexivity|].
    simpl. unfold fs1. rewrite lookup_insert_ne.
    - exact Hpar.
    - rewrite <- E. intros E'. symmetry in E'. revert E'. apply removelast_ne, Hne. }
  assert (Hw : write_file st' (os_path_join meta_dir f) (content_of c')
                 (World fs1 (w_trace w ++ [EWrite st (os_path_join meta_dir f)
                                             (content_of c)]))
               = (World (<[p := NFile (content_of c')]> fs1)
                    ((w_trace w ++ [EWrite st (os_path_join meta_dir f) (content_of c)])
                     ++ [EWrite st' (os_path_join meta_dir f) (content_of c')]),
                  Ok tt)).
  { apply (write_file_ok st' _ _ p (World fs1 _)); try assumption.
    simpl. unfold fs1. rewrite lookup_insert_eq. discriminate. }
  eexists. exists p. split; [|split; [exact Hp|]].
  - unfold save_to_storage, bind.
    rewrite (os_makedirs_ok _ q (World fs1 _) fs1 Hq Hqne Hnoop).
    destruct c'; exact Hw.
  - simpl. split; [reflexivity|].
    intros ->. unfold fs1. apply insert_insert_eq.
Qed.

Lemma save_to_storage_again_witness :
  exists w2 p,
    save_to_storage SRepoList "u/repos.json" (JArr [repo_entry_r T0_plus_1s])
      (fst (save_to_storage SRepoList "u/repos.json" (JArr [repo_entry_r T0])
              empty_world)) = (w2, Ok tt)
    /\ resolve (os_path_join meta_dir "u/repos.json") = Some p
    /\ w_fs w2
       = <[p := NFile (content_of (JArr [repo_entry_r T0_plus_1s]))]>
           (w_fs (fst (save_to_storage SRepoList "u/repos.json"
                         (JArr [repo_entry_r T0]) empty_world)))
    /\ (content_of (JArr [repo_entry_r T0_plus_1s])
        = content_of (JArr [repo_entry_r T0]) ->
        w_fs w2
        = w_fs (fst (save_to_storage SRepoList "u/repos.json"
                       (JArr [repo_entry_r T0]) empty_world))).
Proof.
  apply (save_to_storage_again SRepoList SRepoList "u/repos.json"
           (JArr [repo_entry_r T0]) (JArr [repo_entry_r T0_plus_1s]) empty_world).
  vm_compute. reflexivity.
Defined.

(** ** The cache only reads *)

Lemma readonly_fst {A} (m : M A) (w : world) : sat unchanged m -> fst (m w) = w.
Proof. intros Hm. exact (Hm w (fst (m w)) (snd (m w)) (run_eq m w)). Qed.

(** X7: no method of [Cache] changes the store or leaves an event in
    the trace, whether it returns a record, returns [None] or raises. *)
Theorem cache_methods_only_read (w : world) (api user namespace name : string)
    (cache_name : option string) :
  fst (Cache.request api cache_name w) = w
  /\ fst (Cache.get_user user w) = w
  /\ fst (Cache.get_repos user w) = w
  /\ fst (Cache.get_repo_detail namespace w) = w
  /\ fst (Cache.get_docs namespace w) = w
  /\ fst (Cache.get_doc_detail namespace name w) = w
  /\ fst (Cache.get_local_repo_names user w) = w
  /\ fst (Cache.get_doc_names namespace w) = w.
Proof.
  unfold Cache.get_user, Cache.get_repos, Cache.get_repo_detail, Cache.get_docs,
    Cache.get_doc_detail.
  pose proof cache_request_readonly as Hreq.
  split; [apply readonly_fst, Hreq|].
  split; [apply readonly_fst, Hreq|].
  split; [apply readonly_fst, Hreq|].
  split; [apply readonly_fst, Hreq|].
  split; [apply readonly_fst, Hreq|].
  split; [apply readonly_fst, Hreq|].
  split; [apply readonly_fst, get_local_repo_names_readonly|].
  apply readonly_fst, get_doc_names_readonly.
Qed.

(** ** Listing the cache *)

Lemma length_append (a b : string) :
  String.length (a +:+ b) = String.length a + String.length b.
Proof.
  induction a as [|c a IH]; [reflexivity|].
  change (S (String.length (a +:+ b)) = S (String.length a + String.length b)).
  rewrite IH. reflexivity.
Qed.

Lemma substring_all (s : string) : substring 0 (String.length s) s = s.
Proof. induction s as [|c s IH]; [reflexivity|]. simpl. rewrite IH. reflexivity. Qed.

Lemma substring_append_l (a b : string) :
  substring 0 (String.length a) (a +:+ b) = a.
Proof.
  induction a as [|c a IH]; [destruct b; reflexivity|].
  change (String c (substring 0 (String.length a) (a +:+ b)) = String c a).
  rewrite IH. reflexivity.
Qed.

Lemma substring_append_r (a b : string) :
  substring (String.length a) (String.length b) (a +:+ b) = b.
Proof.
  induction a as [|c a IH]; [apply substring_all|].
  change (substring (String.length a) (String.length b) (a +:+ b) = b).
  exact IH.
Qed.

Lemma substring_split (s : string) (n : nat) :
  n <= String.length s ->
  substring 0 n s +:+ substring n (String.length s - n) s = s.
Proof.
  revert n. induction s as [|c s IH]; intros n Hn.
  - simpl in Hn. replace n with 0 by lia. reflexivity.
  - destruct n as [|n].
    + change (substring 0 (String.length (String c s)) (String c s) = String c s).
      apply substring_all.
    + simpl in Hn.
      change (String c (substring 0 n s +:+ substring n (String.length s - n) s)
              = String c s).
      rewrite IH by lia. reflexivity.
Qed.

Lemma ends_with_append (suffix x : string) : ends_with suffix (x +:+ suffix) = true.
Proof.
  unfold ends_with. rewrite length_append.
  replace (String.length x + String.length suffix - String.length suffix)
    with (String.length x) by lia.
  rewrite substring_append_r, String.eqb_refl.
  apply andb_true_intro. split; [apply Nat.leb_le; lia|reflexivity].
Qed.

Lemma ends_with_strip (suffix y : string) :
  ends_with suffix y = true ->
  y = substring 0 (String.length y - String.length suffix) y +:+ suffix.
Proof.
  unfold ends_with. intros [Hle Heq]%andb_prop.
  apply Nat.leb_le in Hle. apply String.eqb_eq in Heq.
  set (n := String.length y - String.length suffix) in *.
  assert (Hk : String.length suffix = String.length y - n) by lia.
  transitivity (substring 0 n y +:+ substring n (String.length y - n) y).
  - symmetry. apply substring_split. lia.
  - f_equal. rewrite <- Hk. exact Heq.
Qed.

Lemma strip_append (x : string) :
  substring 0 (String.length (x +:+ ".json") - 5) (x +:+ ".json") = x.
Proof.
  rewrite length_append. simpl.
  replace (String.length x + 5 - 5) with (String.length x) by lia.
  apply substring_append_l.
Qed.

(** The names [get_doc_names] makes of the entries of a directory. *)
Lemma doc_names_In (entries : list string) (x : string) :
  In x (map (fun y => substring 0 (String.length y - 5) y)
          (List.filter (ends_with ".json") entries))
  <-> In (x +:+ ".json") entries.
Proof.
  rewrite List.in_map_iff. split.
  - intros (y & <- & [Hy Hends]%List.filter_In).
    change 5 with (String.length ".json").
    rewrite <- (ends_with_strip ".json" y Hends). exact Hy.
  - intros Hin. exists (x +:+ ".json"). split; [apply strip_append|].
    apply List.filter_In. split; [exact Hin|apply ends_with_append].
Qed.

Lemma os_path_exists_at (s : string) (p : path) (w : world) :
  resolve s = Some p ->
  os_path_exists s w
  = (w, Ok (match node_at (w_fs w) p with Some _ => true | None => false end)).
Proof. intros Hp. unfold os_path_exists, with_path. rewrite Hp. reflexivity. Qed.

Lemma os_listdir_at (s : string) (p : path) (w : world) :
  resolve s = Some p ->
  os_listdir s w
  = (w, match node_at (w_fs w) p with
        | Some NDir => Ok (children (w_fs w) p)
        | Some (NFile _) => Raise NotADirectoryError
        | None => Raise FileNotFoundError
        end).
Proof.
  intros Hp. unfold os_listdir, with_path. rewrite Hp.
  unfold bind, get_fs, ret, raise. simpl.
  destruct (node_at (w_fs w) p) as [[c|]|]; reflexivity.
Qed.

(** X8: [Cache.get_doc_names] never changes the world.  When the [docs]
    directory of the namespace does not exist it returns the empty list;
    when it is a directory it returns the names [x] for which the
    directory has an entry [x.json], and no other name; when it is a
    regular file, [os.listdir] raises [NotADirectoryError]. *)
Theorem get_doc_names_lists_json_entries (namespace : string) (dir : path)
    (w : world) :
  resolve (meta_dir +:+ "/" +:+ namespace +:+ "/docs") = Some dir ->
  exists r,
    Cache.get_doc_names namespace w = (w, r)
    /\ match node_at (w_fs w) dir with
       | None => r = Ok []
       | Some (NFile _) => r = Raise NotADirectoryError
       | Some NDir =>
           exists names,
             r = Ok names
             /\ forall x, In x names
                          <-> is_Some (w_fs w !! (dir ++ [x +:+ ".json"]))
       end.
Proof.
  intros Hdir. unfold Cache.get_doc_names, bind.
  rewrite (os_path_exists_at _ dir w Hdir).
  destruct (node_at (w_fs w) dir) as [[c|]|] eqn:Hnode.
  - rewrite (os_listdir_at _ dir w Hdir), Hnode. eauto.
  - rewrite (os_listdir_at _ dir w Hdir), Hnode. unfold ret.
    eexists. split; [reflexivity|]. eexists. split; [reflexivity|].
    intros x. rewrite doc_names_In, sorted_In. apply children_spec.
  - unfold ret. eauto.
Qed.

Lemma get_doc_names_lists_json_entries_witness :
  exists r,
    Cache.get_doc_names "u/r" orphan_world = (orphan_world, r)
    /\ match node_at (w_fs orphan_world) ["storage"; ".meta"; "u"; "r"; "docs"] with
       | None => r = Ok []
       | Some (NFile _) => r = Raise NotADirectoryError
       | Some NDir =>
           exists names,
             r = Ok names
             /\ forall x, In x names
                          <-> is_Some (w_fs orphan_world
                                         !! (["storage"; ".meta"; "u"; "r"; "docs"]
                                             ++ [x +:+ ".json"]))
       end.
Proof.
  apply (get_doc_names_lists_json_entries "u/r"
           ["storage"; ".meta"; "u"; "r"; "docs"] orphan_world).
  reflexivity.
Defined.

Lemma string_le_cases (a b : string) :
  string_le a b <-> a = b \/ OrdersEx.String_as_OT.lt a b.
Proof.
  unfold string_le, String.leb, OrdersEx.String_as_OT.lt.
  change OrdersEx.String_as_OT.compare with String.compare.
  destruct (String.compare a b) eqn:E.
  - apply String.compare_eq_iff in E. split; auto.
  - split; auto.
  - split; [discriminate|]. intros [->|H]; [|discriminate].
    pose proof (String.compare_antisym b b) as Ha. rewrite E in Ha. discriminate.
Qed.

#[global] Instance string_le_trans : Transitive string_le.
Proof.
  intros a b c Hab Hbc. apply string_le_cases in Hab, Hbc. apply string_le_cases.
  destruct Hab as [->|Hab]; [exact Hbc|].
  destruct Hbc as [<-|Hbc]; [right; exact Hab|].
  right. eapply (@StrictOrder_Transitive _ _ OrdersEx.String_as_OT.lt_strorder);
    eassumption.
Qed.

#[global] Instance string_le_total : Total string_le.
Proof. intros a b. apply String.leb_total. Qed.

Lemma StronglySorted_filter_keep {A} (R : relation A) (f : A -> bool) (l : list A) :
  StronglySorted R l -> StronglySorted R (List.filter f l).
Proof.
  induction 1 as [|x l Hl IH Hx]; simpl; [constructor|].
  destruct (f x); [|exact IH].
  constructor; [exact IH|].
  apply List.Forall_forall. intros y [Hy _]%List.filter_In.
  rewrite List.Forall_forall in Hx. apply Hx, Hy.
Qed.

Lemma os_path_isdir_at (s : string) (p : path) (w : world) :
  resolve s = Some p ->
  os_path_isdir s w
  = (w, Ok (match node_at (w_fs w) p with Some NDir => true | _ => false end)).
Proof. intros Hp. unfold os_path_isdir, with_path. rewrite Hp. reflexivity. Qed.

(** What [get_local_repo_names] returns when the directory of the
    account exists. *)
Lemma get_local_repo_names_at (login : string) (w : world) :
  plain login -> fs_wf (w_fs w) ->
  w_fs w !! account_dir login = Some NDir ->
  Cache.get_local_repo_names login w
  = (w, Ok (List.filter (is_dir_child (w_fs w) (account_dir login))
              (sorted (children (w_fs w) (account_dir login))))).
Proof.
  intros Hl Hwf Hdir. unfold Cache.get_local_repo_names, bind.
  rewrite (os_listdir_at _ _ w (resolve_account_dir login Hl)).
  change (node_at (w_fs w) (account_dir login)) with (w_fs w !! account_dir login).
  rewrite Hdir. apply filter_M_readonly.
  intros x Hx. rewrite sorted_In, children_spec in Hx.
  assert (Hpx : plain x) by (eapply wf_child_plain; eassumption).
  rewrite append_assoc.
  change (meta_dir +:+ ("/" +:+ login) +:+ "/" +:+ x)
    with (meta_dir +:+ "/" +:+ login +:+ "/" +:+ x).
  rewrite (os_path_isdir_at _ _ w (resolve_account_child login x Hl Hpx)).
  reflexivity.
Qed.

(** X9: on a well-formed store [Cache.get_local_repo_names] never
    changes the world.  When the directory of the account is missing,
    [os.listdir] raises [FileNotFoundError] (there is no guard as in
    [get_doc_names]); when it is a regular file, [NotADirectoryError];
    when it is a directory, the result is the names of its
    sub-directories, without the regular files, in the order of
    [sorted]. *)
Theorem get_local_repo_names_lists_directories (login : string) (w : world) :
  plain login -> fs_wf (w_fs w) ->
  exists r,
    Cache.get_local_repo_names login w = (w, r)
    /\ match w_fs w !! account_dir login with
       | None => r = Raise FileNotFoundError
       | Some (NFile _) => r = Raise NotADirectoryError
       | Some NDir =>
           exists local,
             r = Ok local
             /\ (forall x, In x local
                           <-> w_fs w !! (account_dir login ++ [x]) = Some NDir)
             /\ StronglySorted string_le local
       end.
Proof.
  intros Hl Hwf.
  destruct (w_fs w !! account_dir login) as [[c|]|] eqn:Hdir.
  - unfold Cache.get_local_repo_names, bind.
    rewrite (os_listdir_at _ _ w (resolve_account_dir login Hl)).
    change (node_at (w_fs w) (account_dir login)) with (w_fs w !! account_dir login).
    rewrite Hdir. eauto.
  - rewrite (get_local_repo_names_at login w Hl Hwf Hdir).
    eexists. split; [reflexivity|]. eexists. split; [reflexivity|]. split.
    + intros x. rewrite List.filter_In, sorted_In, children_spec.
      unfold is_dir_child. split.
      * intros [_ Hd].
        destruct (w_fs w !! (account_dir login ++ [x])) as [[?|]|];
          congruence.
      * intros Hd. rewrite Hd. split; [eauto|reflexivity].
    + apply StronglySorted_filter_keep. unfold sorted.
      apply StronglySorted_merge_sort; apply _.
  - unfold Cache.get_local_repo_names, bind.
    rewrite (os_listdir_at _ _ w (resolve_account_dir login Hl)).
    change (node_at (w_fs w) (account_dir login)) with (w_fs w !! account_dir login).
    rewrite Hdir. eauto.
Qed.

Lemma plain_u : plain "u".
Proof. repeat split; discriminate || reflexivity. Qed.

Lemma empty_world_wf : fs_wf (w_fs empty_world).
Proof. intros k v Hk. simpl in Hk. rewrite lookup_empty in Hk. discriminate. Qed.

Lemma get_local_repo_names_lists_directories_witness :
  exists r,
    Cache.get_local_repo_names "u" empty_world = (empty_world, r)
    /\ match w_fs empty_world !! account_dir "u" with
       | None => r = Raise FileNotFoundError
       | Some (NFile _) => r = Raise NotADirectoryError
       | Some NDir =>
           exists local,
             r = Ok local
             /\ (forall x, In x local
                           <-> w_fs empty_world !! (account_dir "u" ++ [x])
                               = Some NDir)
             /\ StronglySorted string_le local
       end.
Proof.
  apply (get_local_repo_names_lists_directories "u" empty_world).
  - exact plain_u.
  - exact empty_world_wf.
Defined.

(** ** What the script leaves alone *)

#[global] Instance outside_kept_step (root : path) : StepRel (outside_kept root).
Proof.
  split; unfold outside_kept.
  - intros w _ k _. split; auto.
  - intros w1 w2 w3 o H12 H23 k Hk.
    destruct (H12 k Hk) as [Hkeep1 Hnew1], (H23 k Hk) as [Hkeep2 Hnew2].
    split; [auto|].
    intros v Hv. destruct (Hnew2 v Hv) as [Hold|Hdir]; [auto|right; exact Hdir].
Qed.

Lemma same_fs_outside (root : path) {A} (m : M A) :
  sat same_fs m -> sat (outside_kept root) m.
Proof.
  intros H w w' r E k _. rewrite (H _ _ _ E). split; auto.
Qed.

Lemma clean_removelast_prefix (l : list string) :
  clean (removelast l) `prefix_of` clean l.
Proof.
  destruct l as [|x l] using rev_ind; [reflexivity|].
  rewrite List.removelast_last, clean_app. apply prefix_app_r. reflexivity.
Qed.

Lemma makedirs_outside (root : path) (s : string) :
  (forall q, resolve s = Some q -> exists p, q `prefix_of` p /\ root `prefix_of` p) ->
  sat (outside_kept root) (os_makedirs s).
Proof.
  intros Hs w w' r H k Hk.
  destruct (os_makedirs_effect _ _ _ _ H) as [_ [(q & Hq & Hmk & _)|[-> _]]];
    [|split; auto].
  destruct (makedirs_from_spec _ _ _ _ Hmk) as (Hmono & Hnew & _).
  split; [intros v; apply Hmono|].
  intros v Hv. destruct (Hnew _ _ Hv) as [Hold|(-> & r1 & r2 & Hr1ne & Hsplit & Hk1)];
    [left; exact Hold|].
  right. split; [reflexivity|]. simpl in Hk1. subst k.
  destruct (Hs q Hq) as (p & Hqp & Hrp).
  assert (Hr1 : r1 `prefix_of` p).
  { etrans; [|exact Hqp]. rewrite Hsplit. apply prefix_app_r. reflexivity. }
  destruct (prefix_weak_total _ _ _ Hr1 Hrp) as [[t Ht]|?]; [|contradiction].
  exists t. split; [assumption|]. split; [|exact Ht].
  intros ->. apply Hk. rewrite Ht, app_nil_r. reflexivity.
Qed.

Lemma resolve_lies_below (root : path) (s : string) (p : path) :
  lies_below root s -> resolve s = Some p -> root `prefix_of` p.
Proof. intros Hs (Ha & -> & _)%resolve_Some. apply Hs, Ha. Qed.

Lemma dirname_absolute (s : string) :
  is_absolute s = true -> is_absolute (os_path_dirname s) = true.
Proof.
  destruct s as [|c s]; [discriminate|]. simpl. intros Hc.
  unfold os_path_dirname. simpl. destruct (head_upto_slash s) as [h|].
  - rewrite rstrip_slash_cons, Hc. destruct (rstrip_slash h); simpl; exact Hc.
  - rewrite Hc. simpl. rewrite Hc. simpl. exact Hc.
Qed.

Lemma makedirs_dirname_outside (root : path) (s : string) :
  lies_below root s ->
  sat (outside_kept root) (os_makedirs (os_path_dirname s)).
Proof.
  intros Hs. apply makedirs_outside. intros q (Ha & -> & _)%resolve_Some.
  assert (Ha' : is_absolute s = false).
  { destruct (is_absolute s) eqn:E; [|reflexivity].
    rewrite (dirname_absolute s E) in Ha. discriminate. }
  exists (clean (split_slash s)). split; [|apply Hs, Ha'].
  rewrite clean_dirname. apply clean_removelast_prefix.
Qed.

Lemma write_outside (root : path) (st : site) (s : string) (c : content) :
  lies_below root s -> sat (outside_kept root) (write_file st s c).
Proof.
  intros Hs w w' r H k Hk.
  destruct (write_file_effect _ _ _ _ _ _ H)
    as [(p & Hp & _ & _ & _ & -> & _)|[-> _]]; [|split; auto].
  simpl. assert (p <> k) by (intros <-; eapply Hk, resolve_lies_below; eassumption).
  rewrite lookup_insert_ne by assumption. split; auto.
Qed.

Lemma save_outside (root : path) (st : site) (f : string) (c : json) :
  lies_below root (os_path_join meta_dir f) ->
  sat (outside_kept root) (save_to_storage st f c).
Proof.
  intros Hf. unfold save_to_storage. apply sat_bind; [apply _| |].
  - apply makedirs_dirname_outside, Hf.
  - intros _. destruct c; apply write_outside, Hf.
Qed.

Lemma remove_outside (root : path) (s : string) :
  lies_below root s -> sat (outside_kept root) (os_remove s).
Proof.
  intros Hs w w' r H k Hk.
  destruct (os_remove_effect _ _ _ _ H) as [(p & c & Hp & _ & -> & _)|[-> _]];
    [|split; auto].
  simpl. assert (p <> k) by (intros <-; eapply Hk, resolve_lies_below; eassumption).
  rewrite lookup_delete_ne by assumption. split; auto.
Qed.

Lemma rmtree_outside (root : path) (s : string) :
  lies_below root s -> sat (outside_kept root) (shutil_rmtree s).
Proof.
  intros Hs w w' r H k Hk.
  destruct (shutil_rmtree_effect _ _ _ _ H) as [(p & Hp & _ & -> & _)|[-> _]];
    [|split; auto].
  simpl. split.
  - intros v Hv. apply map_lookup_filter_Some. split; [exact Hv|].
    simpl. intros Hpk. apply Hk. etrans; [|exact Hpk].
    eapply resolve_lies_below; eassumption.
  - intros v Hv. apply map_lookup_filter_Some in Hv as [Hv _]. left; exact Hv.
Qed.

Lemma log_same_fs (l : level) (m : log_msg) : sat same_fs (log l m).
Proof. apply emit_same_fs. Qed.

(** The paths of a namespace lead through the directory of the
    namespace. *)
Lemma lies_below_meta (rest : string) :
  lies_below ["storage"; ".meta"] (meta_dir +:+ "/" +:+ rest).
Proof.
  intros _. rewrite split_meta.
  change (["storage"; ".meta"] ++ split_slash rest)
    with ("storage" :: ".meta" :: split_slash rest).
  rewrite !clean_cons_proper by reflexivity.
  exists (clean (split_slash rest)). reflexivity.
Qed.

Lemma lies_below_join_meta (f : string) :
  lies_below ["storage"; ".meta"] (os_path_join meta_dir f).
Proof.
  unfold os_path_join. destruct (is_absolute f) eqn:E.
  - intros Ha. congruence.
  - apply lies_below_meta.
Qed.

Lemma lies_below_namespace (namespace rest : string) (nsdir : path) :
  resolve (meta_dir +:+ "/" +:+ namespace) = Some nsdir ->
  lies_below nsdir (meta_dir +:+ "/" +:+ namespace +:+ "/" +:+ rest).
Proof.
  intros (_ & -> & _)%resolve_Some _.
  rewrite !split_meta.
  change (namespace +:+ "/" +:+ rest) with (namespace +:+ String "/" rest).
  rewrite split_slash_app, app_assoc, !clean_app.
  apply prefix_app_r. reflexivity.
Qed.

Lemma lies_below_join_namespace (namespace rest : string) (nsdir : path) :
  resolve (meta_dir +:+ "/" +:+ namespace) = Some nsdir ->
  lies_below nsdir (os_path_join meta_dir (namespace +:+ "/" +:+ rest)).
Proof.
  intros Hns. unfold os_path_join.
  destruct (is_absolute (namespace +:+ "/" +:+ rest)) eqn:E.
  - intros Ha. congruence.
  - apply lies_below_namespace, Hns.
Qed.

Lemma namespace_paths_below (namespace : string) (nsdir : path) :
  resolve (meta_dir +:+ "/" +:+ namespace) = Some nsdir ->
  namespace_paths_ok
    (fun _ f => lies_below nsdir (os_path_join meta_dir f))
    (lies_below nsdir) namespace.
Proof.
  intros Hns. unfold namespace_paths_ok.
  split; [|split; [|split; [|split]]].
  - intros name.
    apply (lies_below_join_namespace namespace ("docs/" +:+ name +:+ ".json")), Hns.
  - apply (lies_below_join_namespace namespace "docs.json"), Hns.
  - apply (lies_below_join_namespace namespace "toc.yaml"), Hns.
  - apply (lies_below_join_namespace namespace "repo.json"), Hns.
  - intros x. apply (lies_below_namespace namespace (x +:+ ".json")), Hns.
Qed.

Lemma crawl_repo_outside (parse : string -> option datetime) (sdk : remote)
    (namespace : string) (nsdir : path) :
  resolve (meta_dir +:+ "/" +:+ namespace) = Some nsdir ->
  sat (outside_kept nsdir) (crawl_repo parse sdk namespace).
Proof.
  intros Hns.
  apply (crawl_repo_gen parse sdk (outside_kept nsdir)
           (fun _ f => lies_below nsdir (os_path_join meta_dir f))
           (lies_below nsdir)).
  - intros l m. apply same_fs_outside, log_same_fs.
  - intros api. apply same_fs_outside, request_same_fs.
  - intros st f c Hf. apply save_outside, Hf.
  - intros s Hs. apply remove_outside, Hs.
  - apply namespace_paths_below, Hns.
Qed.

(** X10: [crawl_repo] works inside the directory of its namespace.
    Whatever the remote answers and however the call ends, as long as it
    stays in the modelled fragment, every entry of the store that is not
    below that directory is kept as it was, and the only entries it adds
    outside are the directories that lead to it. *)
Theorem crawl_repo_stays_in_namespace (parse : string -> option datetime)
    (sdk : remote) (namespace : string) (nsdir : path) (w w' : world)
    (r : result unit) :
  resolve (meta_dir +:+ "/" +:+ namespace) = Some nsdir ->
  crawl_repo parse sdk namespace w = (w', r) ->
  r <> Raise OutsideModel ->
  forall k, ~ nsdir `prefix_of` k ->
    (forall v, w_fs w !! k = Some v -> w_fs w' !! k = Some v)
    /\ (forall v, w_fs w' !! k = Some v ->
          w_fs w !! k = Some v \/ (v = NDir /\ ancestor k nsdir)).
Proof.
  intros Hns H _. exact (crawl_repo_outside parse sdk namespace nsdir Hns _ _ _ H).
Qed.

Lemma crawl_repo_stays_in_namespace_witness :
  (forall v, w_fs account_dir_world !! ["storage"; ".meta"; "u"] = Some v ->
             w_fs (fst (crawl_repo iso_parse one_doc_remote "u/r"
                          account_dir_world)) !! ["storage"; ".meta"; "u"]
             = Some v)
  /\ (forall v,
        w_fs (fst (crawl_repo iso_parse one_doc_remote "u/r"
                     account_dir_world)) !! ["storage"; ".meta"; "u"] = Some v ->
        w_fs account_dir_world !! ["storage"; ".meta"; "u"] = Some v
        \/ (v = NDir
            /\ ancestor ["storage"; ".meta"; "u"] ["storage"; ".meta"; "u"; "r"])).
Proof.
  apply (crawl_repo_stays_in_namespace iso_parse one_doc_remote "u/r"
           ["storage"; ".meta"; "u"; "r"] account_dir_world
           (fst (crawl_repo iso_parse one_doc_remote "u/r" account_dir_world))
           (snd (crawl_repo iso_parse one_doc_remote "u/r" account_dir_world))).
  - reflexivity.
  - apply run_eq.
  - vm_compute. discriminate.
  - intros [t Ht]. discriminate.
Defined.

(** *** [main], for a family of relations and the paths it uses *)

Section MainPaths.

Context (parse : string -> option datetime) (sdk : remote).
Context (Rel : world -> world -> option exn -> Prop) `{!StepRel Rel}.
Variable ok_save : site -> string -> Prop.
Variable ok_remove : string -> Prop.
Variable ok_rmtree : string -> Prop.
Hypothesis H_log : forall l m, sat Rel (log l m).
Hypothesis H_request : forall api, sat Rel (SDK.request sdk api).
Hypothesis H_save :
  forall st f c, ok_save st f -> sat Rel (save_to_storage st f c).
Hypothesis H_remove : forall s, ok_remove s -> sat Rel (os_remove s).
Hypothesis H_rmtree : forall s, ok_rmtree s -> sat Rel (shutil_rmtree s).
Hypothesis H_makedirs : sat Rel (os_makedirs meta_dir).
Hypothesis ok_user : ok_save SUser "user.json".
Hypothesis ok_namespace :
  forall namespace, namespace_paths_ok ok_save ok_remove namespace.
Hypothesis ok_old_repo :
  forall login x, ok_rmtree (meta_dir +:+ "/" +:+ login +:+ "/" +:+ x).
Hypothesis ok_repo_list :
  forall login, ok_save SRepoList (login +:+ "/repos.json").

Lemma main_paths_gen : sat Rel (main parse sdk).
Proof.
  unfold main.
  apply sat_bind; [apply _|exact H_makedirs|]; intros _.
  apply sat_bind;
    [apply _
    |apply (readonly_sat Rel (Cache.request "user" None)), cache_request_readonly
    |].
  intros cached.
  apply sat_bind; [apply _|apply H_request|]; intros user_info.
  apply sat_bind; [apply _| |].
  { destruct cached; first [apply sat_ret, _ | apply sat_lift, _]. }
  intros updated.
  apply sat_bind; [apply _| |].
  { destruct updated; [apply H_save, ok_user|apply sat_ret, _]. }
  intros _.
  apply sat_bind_lift; [apply _|]; intros login _.
  apply sat_bind; [apply _|apply H_request|]; intros repos.
  apply sat_bind_lift; [apply _|]; intros items _.
  apply sat_bind_lift; [apply _|]; intros repo_names _.
  apply sat_bind;
    [apply _|apply readonly_sat, get_local_repo_names_readonly; apply _|].
  intros local_names.
  apply sat_bind; [apply _| |].
  { apply sat_for_each; [apply _|]. intros x _.
    apply (remove_old_repo_gen Rel ok_rmtree H_log H_rmtree), ok_old_repo. }
  intros _.
  apply sat_bind;
    [apply _
    |apply (readonly_sat Rel (Cache.request (login +:+ "/repos") None)),
       cache_request_readonly
    |].
  intros cached_repos.
  apply sat_bind; [apply _| |].
  { apply sat_for_enum; [apply _|]. intros j x _.
    apply (crawl_repo_entry_gen parse sdk Rel ok_save ok_remove
             H_log H_request H_save H_remove).
    intros ns _. apply ok_namespace. }
  intros _. apply H_save, ok_repo_list.
Qed.

End MainPaths.

Lemma namespace_paths_below_meta (namespace : string) :
  namespace_paths_ok (fun _ _ => True) (lies_below ["storage"; ".meta"]) namespace.
Proof.
  unfold namespace_paths_ok. repeat split.
  intros x. apply (lies_below_meta (namespace +:+ "/" +:+ x +:+ ".json")).
Qed.

Lemma main_outside (parse : string -> option datetime) (sdk : remote) :
  sat (outside_kept ["storage"; ".meta"]) (main parse sdk).
Proof.
  apply (main_paths_gen parse sdk (outside_kept ["storage"; ".meta"])
           (fun _ _ => True) (lies_below ["storage"; ".meta"])
           (lies_below ["storage"; ".meta"])).
  - intros l m. apply same_fs_outside, log_same_fs.
  - intros api. apply same_fs_outside, request_same_fs.
  - intros st f c _. apply save_outside, lies_below_join_meta.
  - intros s Hs. apply remove_outside, Hs.
  - intros s Hs. apply rmtree_outside, Hs.
  - apply makedirs_outside. intros q Hq. exists q. split; [reflexivity|].
    vm_compute in Hq. injection Hq as <-. reflexivity.
  - exact I.
  - apply namespace_paths_below_meta.
  - intros login x. apply (lies_below_meta (login +:+ "/" +:+ x)).
  - intros login. exact I.
Qed.

(** X11: a run of [main] works inside [storage/.meta].  Whatever the
    remote answers and however the run ends, as long as it stays in the
    modelled fragment, every entry of the store outside that directory
    is kept as it was, and the only entry a run can add outside is the
    directory [storage] itself. *)
Theorem main_stays_in_meta_dir (parse : string -> option datetime)
    (sdk : remote) (w w' : world) (r : result unit) :
  main parse sdk w = (w', r) ->
  r <> Raise OutsideModel ->
  forall k, ~ ["storage"; ".meta"] `prefix_of` k ->
    (forall v, w_fs w !! k = Some v -> w_fs w' !! k = Some v)
    /\ (forall v, w_fs w' !! k = Some v ->
          w_fs w !! k = Some v \/ (v = NDir /\ k = ["storage"])).
Proof.
  intros H _ k Hk. destruct (main_outside parse sdk _ _ _ H k Hk) as [Hkeep Hnew].
  split; [exact Hkeep|].
  intros v Hv. destruct (Hnew v Hv) as [Hold|[-> (t & Hne & Ht & Hsplit)]];
    [left; exact Hold|].
  right. split; [reflexivity|].
  destruct k as [|a [|b k]]; [contradiction| |].
  - injection Hsplit as <- _. reflexivity.
  - exfalso. destruct k as [|c k].
    + injection Hsplit as _ _ Hn. symmetry in Hn. contradiction.
    + simpl in Hsplit. discriminate.
Qed.

Lemma main_stays_in_meta_dir_witness :
  (forall v, w_fs empty_world !! ["storage"] = Some v ->
             w_fs (after_sync one_doc_remote empty_world) !! ["storage"] = Some v)
  /\ (forall v,
        w_fs (after_sync one_doc_remote empty_world) !! ["storage"] = Some v ->
        w_fs empty_world !! ["storage"] = Some v
        \/ (v = NDir /\ ["storage"] = ["storage"])).
Proof.
  apply (main_stays_in_meta_dir iso_parse one_doc_remote empty_world
           (after_sync one_doc_remote empty_world)
           (snd (main iso_parse one_doc_remote empty_world))).
  - apply run_eq.
  - vm_compute. discriminate.
  - intros [t Ht]. discriminate.
Defined.

(** ** What a run leaves in the cache *)

Lemma main_last_save (parse : string -> option datetime) (sdk : remote)
    (user_info : json) (login : string) (repos : json) (w w' : world) :
  sdk "user" = Some user_info ->
  rbind (py_getitem user_info "login") py_str = Ok login ->
  sdk ("users/" +:+ login +:+ "/repos") = Some repos ->
  main parse sdk w = (w', Ok tt) ->
  exists wd, save_to_storage SRepoList (login +:+ "/repos.json") repos wd = (w', Ok tt).
Proof.
  intros Huser Hlogin Hrepos H. unfold main in H.
  apply bind_inv in H as (wa & [] & _ & H).
  apply bind_inv in H as (w1 & cached & _ & H).
  apply bind_inv in H as (w2 & ui & Hgu & H).
  apply (request_inv _ _ _ _ _ _ Huser) in Hgu as [_ ->].
  apply bind_inv in H as (w3 & updated & _ & H).
  apply bind_inv in H as (wb & [] & _ & H).
  apply bind_inv in H as (w4 & login' & Hlg & H).
  apply lift_inv in Hlg as [_ Hlg]. rewrite Hlogin in Hlg. injection Hlg as <-.
  apply bind_inv in H as (w5 & repos' & Hgr & H).
  apply (request_inv _ _ _ _ _ _ Hrepos) in Hgr as [_ ->].
  apply bind_inv in H as (w6 & items & _ & H).
  apply bind_inv in H as (w7 & names & _ & H).
  apply bind_inv in H as (w8 & local & _ & H).
  apply bind_inv in H as (wc & [] & _ & H).
  apply bind_inv in H as (w9 & cached_repos & _ & H).
  apply bind_inv in H as (wd & [] & _ & H).
  exists wd. exact H.
Qed.

(** X12: when a run of [main] returns, the cache holds the repository
    list the remote answered with: [Cache.get_repos] for the login of
    the account returns that list from then on. *)
Theorem returned_run_caches_repository_list (parse : string -> option datetime)
    (sdk : remote) (user_info : json) (login : string) (repos : json)
    (w w' : world) :
  sdk "user" = Some user_info ->
  rbind (py_getitem user_info "login") py_str = Ok login ->
  sdk ("users/" +:+ login +:+ "/repos") = Some repos ->
  (forall s, repos <> JStr s) ->
  main parse sdk w = (w', Ok tt) ->
  Cache.get_repos login w' = (w', Ok repos).
Proof.
  intros Huser Hlogin Hrepos Hstr H.
  destruct (main_last_save _ _ _ _ _ _ _ Huser Hlogin Hrepos H) as [wd Hsave].
  unfold Cache.get_repos.
  apply (save_then_request SRepoList (login +:+ "/repos") repos wd w' Hstr).
  rewrite append_assoc. exact Hsave.
Qed.

Lemma returned_run_caches_repository_list_witness :
  Cache.get_repos "u" (after_sync one_doc_remote account_dir_world)
  = (after_sync one_doc_remote account_dir_world, Ok (JArr [repo_entry_r T0])).
Proof.
  apply (returned_run_caches_repository_list iso_parse one_doc_remote user_u "u"
           (JArr [repo_entry_r T0]) account_dir_world).
  - reflexivity.
  - reflexivity.
  - reflexivity.
  - discriminate.
  - exact first_sync_returns.
Defined.

(** X13: when a run of [main] on a well-formed store returns, for a
    remote of the data model, every directory left under the account is
    the directory of a repository of the remote list: the directories of
    the repositories that are gone from the remote have been removed. *)
Theorem returned_run_leaves_listed_repositories
    (parse : string -> option datetime) (sdk : remote) (user_info : json)
    (login : string) (items : list json) (slugs : list string)
    (w w' : world) :
  fs_wf (w_fs w) ->
  account_model sdk user_info login items slugs ->
  main parse sdk w = (w', Ok tt) ->
  forall x, w_fs w' !! (account_dir login ++ [x]) = Some NDir -> In x slugs.
Proof.
  intros Hwf Hmodel Hrun.
  destruct (first_run_synced parse sdk user_info login items slugs w w'
              Hwf Hmodel Hrun) as (_ & _ & _ & _ & Hdirs).
  exact Hdirs.
Qed.

Lemma stale_repo_world_wf : fs_wf (w_fs stale_repo_world).
Proof.
  intros k v Hk. simpl in Hk.
  repeat (apply lookup_insert_Some in Hk as [[<- _]|[_ Hk]];
          [repeat constructor; discriminate|]).
  apply lookup_singleton_Some in Hk as [<- _].
  repeat constructor; discriminate.
Qed.

Lemma stale_sync_returns :
  main iso_parse one_doc_remote stale_repo_world
  = (after_sync one_doc_remote stale_repo_world, Ok tt).
Proof. vm_compute. reflexivity. Qed.

Lemma returned_run_leaves_listed_repositories_witness :
  w_fs stale_repo_world !! (account_dir "u" ++ ["gone"]) = Some NDir
  /\ w_fs (after_sync one_doc_remote stale_repo_world)
       !! (account_dir "u" ++ ["gone"]) <> Some NDir
  /\ w_fs (after_sync one_doc_remote stale_repo_world)
       !! (account_dir "u" ++ ["r"]) = Some NDir.
Proof.
  split; [vm_compute; reflexivity|]. split; [|vm_compute; reflexivity].
  intros Hdir.
  pose proof (returned_run_leaves_listed_repositories iso_parse one_doc_remote
                user_u "u" [repo_entry_r T0] ["r"] stale_repo_world
                (after_sync one_doc_remote stale_repo_world)
                stale_repo_world_wf one_doc_remote_model stale_sync_returns
                "gone" Hdir) as Hin.
  destruct Hin as [E|[]]. discriminate.
Defined.

(** A file that a call of [save_to_storage] does not target is kept. *)
Lemma save_keeps_file (st : site) (f : string) (c : json) (w w' : world)
    (p k : path) (v : node) :
  save_to_storage st f c w = (w', Ok tt) ->
  resolve (os_path_join meta_dir f) = Some p ->
  k <> p ->
  w_fs w !! k = Some v -> w_fs w' !! k = Some v.
Proof.
  intros H Hp Hk Hv.
  destruct (save_ok_effect _ _ _ _ _ H) as (q & p' & fsa & _ & Hmk & Hp' & _ & ->).
  rewrite Hp in Hp'. injection Hp' as <-.
  destruct (makedirs_from_spec _ _ _ _ Hmk) as (Hmono & _ & _).
  simpl. rewrite lookup_insert_ne by congruence. apply Hmono, Hv.
Qed.

Lemma save_target (st : site) (f : string) (c : json) (w w' : world) :
  save_to_storage st f c w = (w', Ok tt) ->
  exists p, resolve (os_path_join meta_dir f) = Some p
            /\ w_fs w' !! p = Some (NFile (content_of c)).
Proof.
  intros H.
  destruct (save_ok_effect _ _ _ _ _ H) as (q & p & fsa & _ & _ & Hp & _ & ->).
  exists p. split; [exact Hp|]. simpl. apply lookup_insert_eq.
Qed.

(** Where the files of a namespace are. *)
Lemma resolve_namespace_file (namespace x : string) (p : path) :
  plain x ->
  resolve (os_path_join meta_dir (namespace +:+ "/" +:+ x)) = Some p ->
  p = ("storage" :: ".meta" :: clean (split_slash namespace)) ++ [x].
Proof.
  intros Hx Hp. destruct (resolve_join_meta _ _ Hp) as [_ ->].
  change (namespace +:+ "/" +:+ x) with (namespace +:+ String "/" x).
  rewrite split_slash_app, clean_app.
  destruct Hx as (Hs & Hpr & _). rewrite Hs, clean_cons_proper by exact Hpr.
  reflexivity.
Qed.

Lemma plain_docs_json : plain "docs.json".
Proof. repeat split; discriminate || reflexivity. Qed.

Lemma plain_toc_yaml : plain "toc.yaml".
Proof. repeat split; discriminate || reflexivity. Qed.

Lemma plain_repo_json : plain "repo.json".
Proof. repeat split; discriminate || reflexivity. Qed.

(** The three writes that end a scan of [crawl_repo]. *)
Lemma crawl_repo_tail (namespace : string) (docs repo : json) (w w' : world) :
  (forall s, docs <> JStr s) ->
  (do! save_to_storage SDocList (namespace +:+ "/docs.json") docs in
   let! toc := lift (py_getitem repo "toc_yml") in
   do! save_to_storage SToc (namespace +:+ "/toc.yaml") toc in
   save_to_storage SRepoDetail (namespace +:+ "/repo.json") repo) w = (w', Ok tt) ->
  Cache.get_docs namespace w' = (w', Ok docs)
  /\ Cache.get_repo_detail namespace w' = (w', Ok repo).
Proof.
  intros Hdocs H.
  apply bind_inv in H as (w1 & [] & Hs1 & H).
  apply bind_inv in H as (w2 & toc & Htoc & H).
  apply lift_inv in Htoc as [-> Htoc].
  apply bind_inv in H as (w3 & [] & Hs2 & Hs3).
  split.
  - destruct (save_target _ _ _ _ _ Hs1) as (p1 & Hp1 & Hv1).
    destruct (save_target _ _ _ _ _ Hs2) as (p2 & Hp2 & _).
    destruct (save_target _ _ _ _ _ Hs3) as (p3 & Hp3 & _).
    pose proof (resolve_namespace_file namespace "docs.json" p1 plain_docs_json Hp1) as E1.
    pose proof (resolve_namespace_file namespace "toc.yaml" p2 plain_toc_yaml Hp2) as E2.
    pose proof (resolve_namespace_file namespace "repo.json" p3 plain_repo_json Hp3) as E3.
    assert (H12 : p1 <> p2).
    { rewrite E1, E2. intros E. apply app_inv_head in E. discriminate. }
    assert (H13 : p1 <> p3).
    { rewrite E1, E3. intros E. apply app_inv_head in E. discriminate. }
    pose proof (save_keeps_file _ _ _ _ _ _ _ _ Hs2 Hp2 H12 Hv1) as Hv2.
    pose proof (save_keeps_file _ _ _ _ _ _ _ _ Hs3 Hp3 H13 Hv2) as Hv3.
    unfold Cache.get_docs. apply (cache_request_value _ _ p1).
    + destruct (resolve_join_meta _ _ Hp1) as [Hjoin _].
      unfold Cache.cache_path. rewrite append_assoc.
      change (meta_dir +:+ "/" +:+ namespace +:+ "/docs" +:+ ".json")
        with (meta_dir +:+ "/" +:+ namespace +:+ "/docs.json").
      rewrite <- Hjoin. exact Hp1.
    + rewrite E1. discriminate.
    + rewrite Hv3, (content_of_json docs Hdocs). reflexivity.
  - unfold Cache.get_repo_detail.
    apply (save_then_request SRepoDetail (namespace +:+ "/repo") repo w3 w').
    + intros s ->. discriminate.
    + rewrite append_assoc. exact Hs3.
Qed.

(** X14: when [crawl_repo] returns for a repository that has no cached
    record, or whose cached record is older than the remote one, the
    cache holds the document list and the repository record the remote
    answered with: [Cache.get_docs] and [Cache.get_repo_detail] return
    them from then on. *)
Theorem crawl_repo_caches_list_and_record (parse : string -> option datetime)
    (sdk : remote) (namespace : string) (cached repo docs : json)
    (w w' : world) :
  Cache.get_repo_detail namespace w = (w, Ok cached) ->
  cached = JNull \/ has_update parse cached repo = Ok true ->
  sdk ("repos/" +:+ namespace) = Some repo ->
  sdk ("repos/" +:+ namespace +:+ "/docs") = Some docs ->
  (forall s, docs <> JStr s) ->
  crawl_repo parse sdk namespace w = (w', Ok tt) ->
  Cache.get_docs namespace w' = (w', Ok docs)
  /\ Cache.get_repo_detail namespace w' = (w', Ok repo).
Proof.
  intros Hcached Hold Hrepo Hdocs Hstr H. unfold crawl_repo in H.
  apply bind_inv in H as (w1 & cached' & Hc & H).
  rewrite Hcached in Hc. injection Hc as <- <-.
  apply bind_inv in H as (w2 & repo' & Hr & H).
  apply (request_inv _ _ _ _ _ _ Hrepo) in Hr as [-> ->].
  apply bind_inv in H as (w3 & proceed & Hp & H).
  assert (Hgo : proceed = true).
  { destruct Hold as [->|Hup].
    - unfold ret in Hp. injection Hp as _ <-. reflexivity.
    - destruct cached;
        first [ apply lift_inv in Hp as [_ Hp]; congruence
              | unfold ret in Hp; injection Hp as _ <-; reflexivity ]. }
  subst proceed. simpl in H.
  apply bind_inv in H as (w4 & docs' & Hd & H).
  assert (Hd' : docs' = docs).
  { unfold SDK.get_docs in Hd. rewrite <- append_assoc in Hd.
    eapply request_inv in Hd as [_ ->]; [reflexivity|].
    rewrite append_assoc. exact Hdocs. }
  subst docs'.
  apply bind_inv in H as (w5 & items & _ & H).
  apply bind_inv in H as (w6 & names & _ & H).
  apply bind_inv in H as (w7 & local & _ & H).
  apply bind_inv in H as (w8 & [] & _ & H).
  apply bind_inv in H as (w9 & cached_docs & _ & H).
  apply bind_inv in H as (w10 & [] & _ & H).
  exact (crawl_repo_tail namespace docs repo w10 w' Hstr H).
Qed.

Lemma crawl_repo_caches_list_and_record_witness :
  Cache.get_docs "u/r"
    (fst (crawl_repo iso_parse one_doc_remote "u/r" account_dir_world))
  = (fst (crawl_repo iso_parse one_doc_remote "u/r" account_dir_world),
     Ok (JArr [doc_entry "d" T0]))
  /\ Cache.get_repo_detail "u/r"
       (fst (crawl_repo iso_parse one_doc_remote "u/r" account_dir_world))
     = (fst (crawl_repo iso_parse one_doc_remote "u/r" account_dir_world),
        Ok (repo_detail_r T0)).
Proof.
  apply (crawl_repo_caches_list_and_record iso_parse one_doc_remote "u/r" JNull
           (repo_detail_r T0) (JArr [doc_entry "d" T0]) account_dir_world).
  - reflexivity.
  - left. reflexivity.
  - reflexivity.
  - reflexivity.
  - discriminate.
  - vm_compute. reflexivity.
Defined.

(** ** Where the content of the cache comes from *)

#[global] Instance all_accounted_inv (sdk : remote) : TraceInv (all_accounted sdk).
Proof.
  split; unfold all_accounted.
  - intros _. constructor.
  - intros d1 d2 _ H1 H2. apply Forall_app. split; assumption.
Qed.

Lemma silent_accounted (sdk : remote) {A} (m : M A) :
  sat unchanged m -> sat (trace_rel (all_accounted sdk)) m.
Proof. apply readonly_sat, _. Qed.

Lemma log_accounted (sdk : remote) (l : level) (m : log_msg) :
  sat (trace_rel (all_accounted sdk)) (log l m).
Proof.
  intros w w' r H. unfold log, emit in H. injection H as <- _.
  exists [ELog l m]. split; [reflexivity|]. repeat constructor.
Qed.

(** A request whose answer the rest of the computation uses. *)
Lemma request_accounted (sdk : remote) {B} (api : string) (k : json -> M B) :
  (forall j, sdk api = Some j -> sat (trace_rel (all_accounted sdk)) (k j)) ->
  sat (trace_rel (all_accounted sdk)) (bind (SDK.request sdk api) k).
Proof.
  intros Hk w w' r H. unfold bind, SDK.request, emit, lift in H. simpl in H.
  destruct (sdk api) as [j|] eqn:Hj; simpl in H.
  - destruct (Hk j eq_refl _ _ _ H) as (d & Htr & Hd). simpl in Htr.
    exists (EGet api :: d). split.
    + rewrite Htr, <- app_assoc. reflexivity.
    + constructor; [constructor|exact Hd].
  - injection H as <- <-. exists [EGet api]. split; [reflexivity|].
    repeat constructor.
Qed.

(** The one event of a call of [save_to_storage]. *)
Lemma save_trace (st : site) (f : string) (c : json) (w w' : world)
    (r : result unit) :
  save_to_storage st f c w = (w', r) ->
  w_trace w' = w_trace w
               ++ match r with
                  | Ok _ => [EWrite st (meta_dir +:+ "/" +:+ f) (content_of c)]
                  | Raise _ => []
                  end.
Proof.
  intros H. destruct r as [[]|e].
  - destruct (save_ok_effect _ _ _ _ _ H) as (q & p & fsa & _ & _ & Hp & _ & ->).
    destruct (resolve_join_meta _ _ Hp) as [-> _]. reflexivity.
  - unfold save_to_storage, bind in H.
    destruct (os_makedirs _ w) as [wa [[]|e']] eqn:Emk.
    + destruct (os_makedirs_effect _ _ _ _ Emk) as [Htr _].
      assert (Hw : write_file st (os_path_join meta_dir f) (content_of c) wa
                   = (w', Raise e)).
      { destruct c; exact H. }
      destruct (write_file_effect _ _ _ _ _ _ Hw)
        as [(p & _ & _ & _ & _ & _ & ?)|[-> _]]; [discriminate|].
      rewrite Htr, app_nil_r. reflexivity.
    + injection H as <- _.
      destruct (os_makedirs_effect _ _ _ _ Emk) as [Htr _].
      rewrite Htr, app_nil_r. reflexivity.
Qed.

Lemma save_accounted (sdk : remote) (st : site) (f : string) (c : json) :
  accounted sdk (EWrite st (meta_dir +:+ "/" +:+ f) (content_of c)) ->
  sat (trace_rel (all_accounted sdk)) (save_to_storage st f c).
Proof.
  intros Hacc w w' r H. eexists. split; [exact (save_trace _ _ _ _ _ _ H)|].
  destruct r as [[]|e]; repeat constructor. exact Hacc.
Qed.

Lemma remove_accounted (sdk : remote) (s : string) :
  accounted sdk (ERemove s) -> sat (trace_rel (all_accounted sdk)) (os_remove s).
Proof.
  intros Hacc w w' r H.
  destruct (os_remove_effect _ _ _ _ H) as [(p & c & _ & _ & -> & _)|[-> _]].
  - exists [ERemove s]. split; [reflexivity|]. repeat constructor. exact Hacc.
  - exists []. split; [symmetry; apply app_nil_r|constructor].
Qed.

Lemma rmtree_accounted (sdk : remote) (s : string) :
  accounted sdk (ERmtree s) -> sat (trace_rel (all_accounted sdk)) (shutil_rmtree s).
Proof.
  intros Hacc w w' r H.
  destruct (shutil_rmtree_effect _ _ _ _ H) as [(p & _ & _ & -> & _)|[-> _]].
  - exists [ERmtree s]. split; [reflexivity|]. repeat constructor. exact Hacc.
  - exists []. split; [symmetry; apply app_nil_r|constructor].
Qed.

Section Accounted.

Context (parse : string -> option datetime) (sdk : remote).

Local Abbreviation Acc := (trace_rel (all_accounted sdk)).

Lemma fetch_doc_accounted (namespace : string) (n i : nat) (doc : json) :
  sat Acc (fetch_doc sdk namespace n i doc).
Proof.
  unfold fetch_doc.
  apply sat_bind_lift; [apply _|]; intros title _.
  apply sat_bind; [apply _|apply log_accounted|]; intros _.
  apply sat_bind_lift; [apply _|]; intros name _.
  unfold SDK.get_doc_detail. apply request_accounted. intros j Hj.
  apply save_accounted.
  apply (acc_doc_detail sdk namespace name j Hj).
Qed.

Lemma crawl_doc_accounted (namespace : string) (cached_docs : json) (n i : nat)
    (doc : json) :
  sat Acc (crawl_doc parse sdk namespace cached_docs n i doc).
Proof.
  unfold crawl_doc.
  assert (Hgo : sat Acc
    (let! cs := lift (candidates cached_docs doc doc_id_key) in
     match cs with
     | [] => fetch_doc sdk namespace n i doc
     | cached_doc :: _ =>
         let! updated := lift (has_update parse cached_doc doc) in
         if updated then fetch_doc sdk namespace n i doc
         else
           let! title := lift (rbind (py_getitem doc "title") py_str) in
           log Info (MsgDocNoUpdate title (i + 1) n)
     end)).
  { apply sat_bind_lift; [apply _|]; intros [|c cs] _.
    - apply fetch_doc_accounted.
    - apply sat_bind_lift; [apply _|]; intros [] _.
      + apply fetch_doc_accounted.
      + apply sat_bind_lift; [apply _|]; intros title _. apply log_accounted. }
  destruct cached_docs; try exact Hgo. apply fetch_doc_accounted.
Qed.

Lemma remove_old_doc_accounted (namespace : string) (docs : json)
    (items doc_names : list json) (x : string) :
  sdk ("repos/" +:+ namespace +:+ "/docs") = Some docs ->
  py_iter docs = Ok items ->
  map_result (fun y => py_getitem y doc_id_key) items = Ok doc_names ->
  sat Acc (remove_old_doc namespace doc_names x).
Proof.
  intros Hdocs Hitems Hnames. unfold remove_old_doc.
  destruct (py_in (JStr x) doc_names) eqn:Hin; simpl; [apply sat_ret, _|].
  apply sat_bind; [apply _|apply silent_accounted, os_path_exists_readonly|].
  intros []; [|apply sat_ret, _].
  apply sat_bind; [apply _|apply log_accounted|]; intros _.
  apply remove_accounted. apply (acc_remove sdk namespace docs x Hdocs).
  exists items, doc_names. auto.
Qed.

Lemma crawl_repo_accounted (namespace : string) :
  sat Acc (crawl_repo parse sdk namespace).
Proof.
  unfold crawl_repo.
  apply sat_bind;
    [apply _
    |apply (silent_accounted sdk (Cache.request (namespace +:+ "/repo") None)),
       cache_request_readonly
    |].
  intros cached_repo.
  unfold SDK.get_repo_detail. apply request_accounted. intros repo Hrepo.
  apply sat_bind; [apply _| |].
  { destruct cached_repo; first [apply sat_ret, _ | apply sat_lift, _]. }
  intros []; simpl; [|apply sat_ret, _].
  unfold SDK.get_docs. rewrite <- append_assoc.
  apply request_accounted. intros docs Hdocs. rewrite append_assoc in Hdocs.
  apply sat_bind_lift; [apply _|]; intros items Hitems.
  apply sat_bind_lift; [apply _|]; intros doc_names Hnames.
  apply sat_bind; [apply _|apply silent_accounted, get_doc_names_readonly|].
  intros local_names.
  apply sat_bind; [apply _| |].
  { apply sat_for_each; [apply _|]. intros x _.
    apply (remove_old_doc_accounted namespace docs items doc_names x);
      assumption. }
  intros _.
  apply sat_bind;
    [apply _
    |apply (silent_accounted sdk (Cache.request (namespace +:+ "/docs") None)),
       cache_request_readonly
    |].
  intros cached_docs.
  apply sat_bind; [apply _| |].
  { apply sat_for_enum; [apply _|]. intros j x _. apply crawl_doc_accounted. }
  intros _.
  apply sat_bind; [apply _| |].
  { apply save_accounted. apply (acc_doc_list sdk namespace docs Hdocs). }
  intros _.
  apply sat_bind_lift; [apply _|]; intros toc Htoc.
  apply sat_bind; [apply _| |].
  { apply save_accounted. apply (acc_toc sdk namespace repo toc Hrepo Htoc). }
  intros _.
  apply save_accounted. apply (acc_repo_detail sdk namespace repo Hrepo).
Qed.

Lemma crawl_repo_entry_accounted (cached_repos : json) (n i : nat) (repo : json) :
  sat Acc (crawl_repo_entry parse sdk cached_repos n i repo).
Proof.
  assert (Hns : sat Acc (crawl_namespace_of parse sdk repo)).
  { unfold crawl_namespace_of. apply sat_bind_lift; [apply _|]; intros ns _.
    apply crawl_repo_accounted. }
  unfold crawl_repo_entry.
  apply sat_bind_lift; [apply _|]; intros name _.
  apply sat_bind; [apply _|apply log_accounted|]; intros _.
  assert (Hgo : sat Acc
    (let! cs := lift (candidates cached_repos repo repo_id_key) in
     match cs with
     | [] => crawl_namespace_of parse sdk repo
     | cached_repo :: _ =>
         let! updated := lift (has_update parse cached_repo repo) in
         if updated then crawl_namespace_of parse sdk repo
         else log Warning MsgNoUpdate
     end)).
  { apply sat_bind_lift; [apply _|]; intros [|c cs] _; [exact Hns|].
    apply sat_bind_lift; [apply _|]; intros [] _; [exact Hns|apply log_accounted]. }
  destruct cached_repos; try exact Hgo. exact Hns.
Qed.

Lemma remove_old_repo_accounted (login : string) (repos : json)
    (items repo_names : list json) (x : string) :
  sdk ("users/" +:+ login +:+ "/repos") = Some repos ->
  py_iter repos = Ok items ->
  map_result (fun y => py_getitem y repo_id_key) items = Ok repo_names ->
  sat Acc (remove_old_repo login repo_names x).
Proof.
  intros Hrepos Hitems Hnames. unfold remove_old_repo.
  destruct (py_in (JStr x) repo_names) eqn:Hin; simpl; [apply sat_ret, _|].
  apply sat_bind; [apply _|apply log_accounted|]; intros _.
  apply rmtree_accounted. apply (acc_rmtree sdk login repos x Hrepos).
  exists items, repo_names. auto.
Qed.

Lemma main_accounted : sat Acc (main parse sdk).
Proof.
  unfold main.
  apply sat_bind; [apply _|apply os_makedirs_sat, _|]; intros _.
  apply sat_bind;
    [apply _
    |apply (silent_accounted sdk (Cache.request "user" None)),
       cache_request_readonly
    |].
  intros cached.
  unfold SDK.get_user. apply request_accounted. intros user_info Huser.
  apply sat_bind; [apply _| |].
  { destruct cached; first [apply sat_ret, _ | apply sat_lift, _]. }
  intros updated.
  apply sat_bind; [apply _| |].
  { destruct updated; [|apply sat_ret, _].
    apply save_accounted. apply (acc_user sdk user_info Huser). }
  intros _.
  apply sat_bind_lift; [apply _|]; intros login _.
  unfold SDK.get_repos. apply request_accounted. intros repos Hrepos.
  apply sat_bind_lift; [apply _|]; intros items Hitems.
  apply sat_bind_lift; [apply _|]; intros repo_names Hnames.
  apply sat_bind;
    [apply _|apply silent_accounted, get_local_repo_names_readonly|].
  intros local_names.
  apply sat_bind; [apply _| |].
  { apply sat_for_each; [apply _|]. intros x _.
    apply (remove_old_repo_accounted login repos items repo_names x);
      assumption. }
  intros _.
  apply sat_bind;
    [apply _
    |apply (silent_accounted sdk (Cache.request (login +:+ "/repos") None)),
       cache_request_readonly
    |].
  intros cached_repos.
  apply sat_bind; [apply _| |].
  { apply sat_for_enum; [apply _|]. intros j x _.
    apply crawl_repo_entry_accounted. }
  intros _.
  apply save_accounted. apply (acc_repo_list sdk login repos Hrepos).
Qed.

End Accounted.

(** X15: the remote accounts for everything a run of [main] does to the
    cache, however the run ends, as long as it stays in the modelled
    fragment.  Every write stores the answer of the remote to the
    request that belongs to the file (the [toc_yml] field of the
    repository record for [toc.yaml]), every directory removed is named
    by no repository of the list the remote answered with, and every
    file removed is named by no document of the list the remote answered
    with. *)
Theorem run_writes_what_the_remote_answered (parse : string -> option datetime)
    (sdk : remote) (w w' : world) (r : result unit) :
  main parse sdk w = (w', r) ->
  r <> Raise OutsideModel ->
  exists d, w_trace w' = w_trace w ++ d /\ Forall (accounted sdk) d.
Proof. intros H _. exact (main_accounted parse sdk _ _ _ H). Qed.

Lemma run_writes_what_the_remote_answered_witness :
  exists d,
    w_trace (after_sync one_doc_remote account_dir_world)
    = w_trace account_dir_world ++ d
    /\ Forall (accounted one_doc_remote) d.
Proof.
  apply (run_writes_what_the_remote_answered iso_parse one_doc_remote
           account_dir_world (after_sync one_doc_remote account_dir_world)
           (snd (main iso_parse one_doc_remote account_dir_world))).
  - apply run_eq.
  - vm_compute. discriminate.
Defined.

#[global] Instance all_accounted_in_inv (sdk : remote) (namespace : string) :
  TraceInv (all_accounted_in sdk namespace).
Proof.
  split; unfold all_accounted_in.
  - intros _. constructor.
  - intros d1 d2 _ H1 H2. apply Forall_app. split; assumption.
Qed.

Section AccountedIn.

Context (parse : string -> option datetime) (sdk : remote) (namespace : string).

Local Abbreviation AccIn := (trace_rel (all_accounted_in sdk namespace)).

Lemma silent_accounted_in {A} (m : M A) : sat unchanged m -> sat AccIn m.
Proof. apply readonly_sat, _. Qed.

Lemma log_accounted_in (l : level) (m : log_msg) : sat AccIn (log l m).
Proof.
  intros w w' r H. unfold log, emit in H. injection H as <- _.
  exists [ELog l m]. split; [reflexivity|]. repeat constructor.
Qed.

Lemma request_accounted_in {B} (api : string) (k : json -> M B) :
  accounted_in sdk namespace (EGet api) ->
  (forall j, sdk api = Some j -> sat AccIn (k j)) ->
  sat AccIn (bind (SDK.request sdk api) k).
Proof.
  intros Hget Hk w w' r H. unfold bind, SDK.request, emit, lift in H. simpl in H.
  destruct (sdk api) as [j|] eqn:Hj; simpl in H.
  - destruct (Hk j eq_refl _ _ _ H) as (d & Htr & Hd). simpl in Htr.
    exists (EGet api :: d). split.
    + rewrite Htr, <- app_assoc. reflexivity.
    + constructor; [exact Hget|exact Hd].
  - injection H as <- <-. exists [EGet api]. split; [reflexivity|].
    constructor; [exact Hget|constructor].
Qed.

Lemma save_accounted_in (st : site) (f : string) (c : json) :
  accounted_in sdk namespace (EWrite st (meta_dir +:+ "/" +:+ f) (content_of c)) ->
  sat AccIn (save_to_storage st f c).
Proof.
  intros Hacc w w' r H. eexists. split; [exact (save_trace _ _ _ _ _ _ H)|].
  destruct r as [[]|e]; repeat constructor. exact Hacc.
Qed.

Lemma remove_accounted_in (s : string) :
  accounted_in sdk namespace (ERemove s) -> sat AccIn (os_remove s).
Proof.
  intros Hacc w w' r H.
  destruct (os_remove_effect _ _ _ _ H) as [(p & c & _ & _ & -> & _)|[-> _]].
  - exists [ERemove s]. split; [reflexivity|]. repeat constructor. exact Hacc.
  - exists []. split; [symmetry; apply app_nil_r|constructor].
Qed.

Lemma fetch_doc_accounted_in (n i : nat) (doc : json) :
  sat AccIn (fetch_doc sdk namespace n i doc).
Proof.
  unfold fetch_doc.
  apply sat_bind_lift; [apply _|]; intros title _.
  apply sat_bind; [apply _|apply log_accounted_in|]; intros _.
  apply sat_bind_lift; [apply _|]; intros name _.
  unfold SDK.get_doc_detail.
  apply request_accounted_in; [apply in_get_doc|]. intros j Hj.
  apply save_accounted_in.
  apply (in_doc_detail sdk namespace name j Hj).
Qed.

Lemma crawl_doc_accounted_in (cached_docs : json) (n i : nat) (doc : json) :
  sat AccIn (crawl_doc parse sdk namespace cached_docs n i doc).
Proof.
  unfold crawl_doc.
  assert (Hgo : sat AccIn
    (let! cs := lift (candidates cached_docs doc doc_id_key) in
     match cs with
     | [] => fetch_doc sdk namespace n i doc
     | cached_doc :: _ =>
         let! updated := lift (has_update parse cached_doc doc) in
         if updated then fetch_doc sdk namespace n i doc
         else
           let! title := lift (rbind (py_getitem doc "title") py_str) in
           log Info (MsgDocNoUpdate title (i + 1) n)
     end)).
  { apply sat_bind_lift; [apply _|]; intros [|c cs] _.
    - apply fetch_doc_accounted_in.
    - apply sat_bind_lift; [apply _|]; intros [] _.
      + apply fetch_doc_accounted_in.
      + apply sat_bind_lift; [apply _|]; intros title _. apply log_accounted_in. }
  destruct cached_docs; try exact Hgo. apply fetch_doc_accounted_in.
Qed.

Lemma remove_old_doc_accounted_in (docs : json) (items doc_names : list json)
    (x : string) :
  sdk ("repos/" +:+ namespace +:+ "/docs") = Some docs ->
  py_iter docs = Ok items ->
  map_result (fun y => py_getitem y doc_id_key) items = Ok doc_names ->
  sat AccIn (remove_old_doc namespace doc_names x).
Proof.
  intros Hdocs Hitems Hnames. unfold remove_old_doc.
  destruct (py_in (JStr x) doc_names) eqn:Hin; simpl; [apply sat_ret, _|].
  apply sat_bind; [apply _|apply silent_accounted_in, os_path_exists_readonly|].
  intros []; [|apply sat_ret, _].
  apply sat_bind; [apply _|apply log_accounted_in|]; intros _.
  apply remove_accounted_in. apply (in_remove sdk namespace docs x Hdocs).
  exists items, doc_names. auto.
Qed.

Lemma crawl_repo_accounted_in : sat AccIn (crawl_repo parse sdk namespace).
Proof.
  unfold crawl_repo.
  apply sat_bind;
    [apply _
    |apply (silent_accounted_in (Cache.request (namespace +:+ "/repo") None)),
       cache_request_readonly
    |].
  intros cached_repo.
  unfold SDK.get_repo_detail.
  apply request_accounted_in; [apply in_get_repo|]. intros repo Hrepo.
  apply sat_bind; [apply _| |].
  { destruct cached_repo; first [apply sat_ret, _ | apply sat_lift, _]. }
  intros []; simpl; [|apply sat_ret, _].
  unfold SDK.get_docs. rewrite <- append_assoc.
  apply request_accounted_in;
    [rewrite append_assoc; apply in_get_docs|].
  intros docs Hdocs. rewrite append_assoc in Hdocs.
  apply sat_bind_lift; [apply _|]; intros items Hitems.
  apply sat_bind_lift; [apply _|]; intros doc_names Hnames.
  apply sat_bind; [apply _|apply silent_accounted_in, get_doc_names_readonly|].
  intros local_names.
  apply sat_bind; [apply _| |].
  { apply sat_for_each; [apply _|]. intros x _.
    apply (remove_old_doc_accounted_in docs items doc_names x); assumption. }
  intros _.
  apply sat_bind;
    [apply _
    |apply (silent_accounted_in (Cache.request (namespace +:+ "/docs") None)),
       cache_request_readonly
    |].
  intros cached_docs.
  apply sat_bind; [apply _| |].
  { apply sat_for_enum; [apply _|]. intros j x _. apply crawl_doc_accounted_in. }
  intros _.
  apply sat_bind; [apply _| |].
  { apply save_accounted_in. apply (in_doc_list sdk namespace docs Hdocs). }
  intros _.
  apply sat_bind_lift; [apply _|]; intros toc Htoc.
  apply sat_bind; [apply _| |].
  { apply save_accounted_in. apply (in_toc sdk namespace repo toc Hrepo Htoc). }
  intros _.
  apply save_accounted_in. apply (in_repo_detail sdk namespace repo Hrepo).
Qed.

End AccountedIn.

(** X16: the remote accounts, for the namespace of the call, for
    everything a call of [crawl_repo] does to the cache, however it ends
    (as long as it stays in the modelled fragment).  Every request is
    for the repository of that namespace, its document list or one of
    its documents; every write is one
    of the four kinds of file of that namespace and stores the answer of
    the remote to the request for that namespace that belongs to the
    file (the [toc_yml] field of the repository record for [toc.yaml]);
    every removal is of [{namespace}/{x}.json] with [x] the slug of no
    document of the list the remote answered with for that namespace;
    the call writes no account or repository-list file and removes no
    directory. *)
Theorem crawl_repo_writes_what_the_remote_answered
    (parse : string -> option datetime) (sdk : remote) (namespace : string)
    (w w' : world) (r : result unit) :
  crawl_repo parse sdk namespace w = (w', r) ->
  r <> Raise OutsideModel ->
  exists d,
    w_trace w' = w_trace w ++ d /\ Forall (accounted_in sdk namespace) d.
Proof. intros H _. exact (crawl_repo_accounted_in parse sdk namespace _ _ _ H). Qed.

Lemma crawl_repo_writes_what_the_remote_answered_witness :
  exists d,
    w_trace (fst (crawl_repo iso_parse one_doc_remote "u/r" orphan_world))
    = w_trace orphan_world ++ d
    /\ Forall (accounted_in one_doc_remote "u/r") d.
Proof.
  apply (crawl_repo_writes_what_the_remote_answered iso_parse one_doc_remote
           "u/r" orphan_world
           (fst (crawl_repo iso_parse one_doc_remote "u/r" orphan_world))
           (snd (crawl_repo iso_parse one_doc_remote "u/r" orphan_world))).
  - apply run_eq.
  - vm_compute. discriminate.
Defined.

(** ** The document details are never removed *)

#[global] Instance entries_stay_step (dir : path) : StepRel (entries_stay dir).
Proof.
  split; unfold entries_stay.
  - intros w _ Hwf. split; auto.
  - intros w1 w2 w3 o H12 H23 Hwf.
    destruct (H12 Hwf) as [Hwf2 Hk2]. destruct (H23 Hwf2) as [Hwf3 Hk3].
    split; [exact Hwf3|]. intros k Hk Hs. apply Hk3, Hk2; assumption.
Qed.

Lemma same_fs_entries_stay (dir : path) {A} (m : M A) :
  sat same_fs m -> sat (entries_stay dir) m.
Proof.
  intros H w w' r E Hwf. pose proof (H _ _ _ E) as Hfs. unfold same_fs in Hfs.
  rewrite Hfs. split; [exact Hwf|]. intros k _ Hs. exact Hs.
Qed.

Lemma unchanged_same_fs {A} (m : M A) : sat unchanged m -> sat same_fs m.
Proof. intros H w w' r E. rewrite (H _ _ _ E). reflexivity. Qed.

(** [save_to_storage] removes nothing. *)
Lemma save_entries_stay (dir : path) (st : site) (f : string) (c : json) :
  sat (entries_stay dir) (save_to_storage st f c).
Proof.
  intros w w' r H Hwf. split; [exact (save_to_storage_wf st f c _ _ _ H Hwf)|].
  intros k _ [v Hv]. unfold save_to_storage, bind in H.
  destruct (os_makedirs _ w) as [wa [[]|e]] eqn:Emk.
  - assert (Hva : w_fs wa !! k = Some v).
    { destruct (os_makedirs_effect _ _ _ _ Emk) as [_ [(q & _ & Hmk & _)|[-> _]]];
        [|exact Hv].
      destruct (makedirs_from_spec _ _ _ _ Hmk) as (Hmono & _). apply Hmono, Hv. }
    assert (Hw : exists c', write_file st (os_path_join meta_dir f) c' wa = (w', r)).
    { destruct c; eauto. }
    destruct Hw as [c' Hw].
    destruct (write_file_effect _ _ _ _ _ _ Hw)
      as [(p & _ & _ & _ & _ & -> & _)|[-> _]]; [|eauto].
    simpl. destruct (decide (p = k)) as [->|Hne].
    + rewrite lookup_insert_eq. eauto.
    + rewrite lookup_insert_ne by exact Hne. eauto.
  - injection H as <- _.
    destruct (os_makedirs_effect _ _ _ _ Emk) as [_ [(q & _ & _ & ?)|[-> _]]];
      [discriminate|eauto].
Qed.

(** A file directly in the directory of the namespace is not below its
    [docs] directory. *)
Lemma remove_entries_stay (namespace x : string) (nsdir : path) :
  resolve (meta_dir +:+ "/" +:+ namespace) = Some nsdir ->
  plain (x +:+ ".json") ->
  sat (entries_stay (nsdir ++ ["docs"]))
      (os_remove (meta_dir +:+ "/" +:+ namespace +:+ "/" +:+ x +:+ ".json")).
Proof.
  intros Hns Hx w w' r H Hwf. split; [exact (os_remove_wf _ _ _ _ H Hwf)|].
  intros k Hk Hs.
  destruct (os_remove_effect _ _ _ _ H) as [(p & c & Hp & _ & -> & _)|[-> _]];
    [|exact Hs].
  simpl. rewrite lookup_delete_ne; [exact Hs|].
  intros <-. apply resolve_Some in Hp as (_ & -> & _).
  apply resolve_Some in Hns as (_ & -> & _).
  revert Hk. rewrite !split_meta.
  change (namespace +:+ "/" +:+ x +:+ ".json")
    with (namespace +:+ String "/" (x +:+ ".json")).
  rewrite split_slash_app, app_assoc, !clean_app.
  destruct Hx as (Hsplit & Hproper & _).
  rewrite Hsplit, (clean_cons_proper _ [] Hproper).
  intros Hk. apply prefix_app_inv in Hk.
  destruct Hk as [t Ht]. injection Ht as Ht _.
  pose proof (ends_with_append ".json" x) as He. rewrite Ht in He. discriminate.
Qed.

(** The names [get_doc_names] returns on a well-formed store. *)
Lemma get_doc_names_plain (namespace : string) (w w1 : world)
    (names : list string) :
  fs_wf (w_fs w) ->
  Cache.get_doc_names namespace w = (w1, Ok names) ->
  w1 = w /\ Forall (fun x => plain (x +:+ ".json")) names.
Proof.
  intros Hwf H.
  split; [exact (get_doc_names_readonly namespace _ _ _ H)|].
  unfold Cache.get_doc_names in H.
  apply bind_inv in H as (w2 & found & Hex & H).
  assert (w2 = w) as -> by (eapply readonly_inv, Hex; apply os_path_exists_readonly).
  apply bind_inv in H as (w3 & entries & Hls & H).
  unfold ret in H. injection H as _ <-.
  apply List.Forall_forall. intros x Hx. apply doc_names_In in Hx.
  destruct found.
  - apply bind_inv in Hls as (w4 & xs & Hls & Hret).
    unfold ret in Hret. injection Hret as _ <-.
    apply os_listdir_Ok in Hls as (p & _ & _ & ->).
    rewrite sorted_In, children_spec in Hx.
    eapply wf_child_plain; eassumption.
  - unfold ret in Hls. injection Hls as _ <-. destruct Hx.
Qed.

Lemma crawl_repo_entries_stay (parse : string -> option datetime) (sdk : remote)
    (namespace : string) (nsdir : path) :
  resolve (meta_dir +:+ "/" +:+ namespace) = Some nsdir ->
  sat (entries_stay (nsdir ++ ["docs"])) (crawl_repo parse sdk namespace).
Proof.
  intros Hns. set (Rel := entries_stay (nsdir ++ ["docs"])).
  assert (Hlog : forall l m, sat Rel (log l m)).
  { intros l m. apply same_fs_entries_stay, log_same_fs. }
  assert (Hreq : forall api, sat Rel (SDK.request sdk api)).
  { intros api. apply same_fs_entries_stay, request_same_fs. }
  assert (Hsave : forall st f c, True -> sat Rel (save_to_storage st f c)).
  { intros st f c _. apply save_entries_stay. }
  assert (Hread : forall A (m : M A), sat unchanged m -> sat Rel m).
  { intros A m Hm. apply same_fs_entries_stay, unchanged_same_fs, Hm. }
  unfold crawl_repo.
  apply sat_bind;
    [apply _
    |apply (Hread _ (Cache.request (namespace +:+ "/repo") None)),
       cache_request_readonly
    |].
  intros cached_repo.
  apply sat_bind; [apply _|apply Hreq|]; intros repo.
  apply sat_bind; [apply _| |].
  { destruct cached_repo; first [apply sat_ret, _ | apply sat_lift, _]. }
  intros []; simpl; [|apply sat_ret, _].
  apply sat_bind; [apply _|apply Hreq|]; intros docs.
  apply sat_bind_lift; [apply _|]; intros items _.
  apply sat_bind_lift; [apply _|]; intros doc_names _.
  intros w w' r H Hwf. unfold bind in H at 1.
  destruct (Cache.get_doc_names namespace w) as [w1 [local_names|e]] eqn:Hloc.
  - destruct (get_doc_names_plain _ _ _ _ Hwf Hloc) as [-> Hplain].
    assert (Hrest : sat Rel
      (do! for_each (remove_old_doc namespace doc_names) local_names in
       let! cached_docs := Cache.get_docs namespace in
       do! for_enum (crawl_doc parse sdk namespace cached_docs (length items)) 0
             items in
       do! save_to_storage SDocList (namespace +:+ "/docs.json") docs in
       let! toc := lift (py_getitem repo "toc_yml") in
       do! save_to_storage SToc (namespace +:+ "/toc.yaml") toc in
       save_to_storage SRepoDetail (namespace +:+ "/repo.json") repo)).
    { apply sat_bind; [apply _| |].
      { apply sat_for_each; [apply _|]. intros x Hx.
        rewrite List.Forall_forall in Hplain.
        apply (remove_old_doc_gen Rel
                 (fun s => exists y, plain (y +:+ ".json")
                                     /\ s = meta_dir +:+ "/" +:+ namespace +:+ "/"
                                            +:+ y +:+ ".json")).
        - exact Hlog.
        - intros s (y & Hy & ->). apply remove_entries_stay; assumption.
        - exists x. split; [apply Hplain, Hx|reflexivity]. }
      intros _.
      apply sat_bind;
        [apply _
        |apply (Hread _ (Cache.request (namespace +:+ "/docs") None)),
           cache_request_readonly
        |].
      intros cached_docs.
      apply sat_bind; [apply _| |].
      { apply sat_for_enum; [apply _|]. intros j x _.
        apply (crawl_doc_gen parse sdk Rel (fun _ _ => True) Hlog Hreq Hsave).
        intros name. exact I. }
      intros _.
      apply sat_bind; [apply _|apply save_entries_stay|]; intros _.
      apply sat_bind_lift; [apply _|]; intros toc _.
      apply sat_bind; [apply _|apply save_entries_stay|]; intros _.
      apply save_entries_stay. }
    exact (Hrest _ _ _ H Hwf).
  - injection H as <- _.
    pose proof (get_doc_names_readonly namespace _ _ _ Hloc) as E.
    unfold unchanged in E. subst w1. split; [exact Hwf|].
    intros k _ Hs. exact Hs.
Qed.

(** X17: [crawl_repo] never removes a document detail.  On a
    well-formed store, every entry below the [docs] directory of the
    namespace that was there before the call is there after it, whatever
    the remote lists and however the call ends: the file the removal
    loop looks for is beside the [docs] directory, not in it. *)
Theorem crawl_repo_keeps_document_details (parse : string -> option datetime)
    (sdk : remote) (namespace : string) (nsdir : path) (w w' : world)
    (r : result unit) :
  fs_wf (w_fs w) ->
  resolve (meta_dir +:+ "/" +:+ namespace) = Some nsdir ->
  crawl_repo parse sdk namespace w = (w', r) ->
  r <> Raise OutsideModel ->
  forall k, (nsdir ++ ["docs"]) `prefix_of` k ->
            is_Some (w_fs w !! k) -> is_Some (w_fs w' !! k).
Proof.
  intros Hwf Hns H _.
  exact (proj2 (crawl_repo_entries_stay parse sdk namespace nsdir Hns _ _ _ H Hwf)).
Qed.

Lemma orphan_world_wf : fs_wf (w_fs orphan_world).
Proof.
  intros k v Hk. simpl in Hk.
  repeat (apply lookup_insert_Some in Hk as [[<- _]|[_ Hk]];
          [repeat constructor; discriminate|]).
  apply lookup_singleton_Some in Hk as [<- _].
  repeat constructor; discriminate.
Qed.

Lemma crawl_repo_keeps_document_details_witness :
  is_Some (w_fs (fst (crawl_repo iso_parse one_doc_remote "u/r" orphan_world))
             !! ["storage"; ".meta"; "u"; "r"; "docs"; "old.json"]).
Proof.
  apply (crawl_repo_keeps_document_details iso_parse one_doc_remote "u/r"
           ["storage"; ".meta"; "u"; "r"] orphan_world
           (fst (crawl_repo iso_parse one_doc_remote "u/r" orphan_world))
           (snd (crawl_repo iso_parse one_doc_remote "u/r" orphan_world))).
  - exact orphan_world_wf.
  - reflexivity.
  - apply run_eq.
  - vm_compute. discriminate.
  - exists ["old.json"]. reflexivity.
  - vm_compute. eexists. reflexivity.
Defined.

(** ** The first crawl of a repository *)

#[global] Instance shrinks_step : StepRel shrinks.
Proof.
  split; unfold shrinks.
  - auto.
  - intros w1 w2 w3 _ H12 H23 k v Hk. apply H12, H23, Hk.
Qed.

Lemma same_fs_shrinks {A} (m : M A) : sat same_fs m -> sat shrinks m.
Proof.
  intros H w w' r E k v Hk. pose proof (H _ _ _ E) as Hfs.
  unfold same_fs in Hfs. rewrite <- Hfs. exact Hk.
Qed.

Lemma remove_shrinks (s : string) : sat shrinks (os_remove s).
Proof.
  intros w w' r H k v Hk.
  destruct (os_remove_effect _ _ _ _ H) as [(p & c & _ & _ & -> & _)|[-> _]];
    [|exact Hk].
  simpl in Hk. apply lookup_delete_Some in Hk as [_ Hk]. exact Hk.
Qed.

Lemma removal_loop_shrinks (namespace : string) (doc_names : list json)
    (local_names : list string) :
  sat shrinks (for_each (remove_old_doc namespace doc_names) local_names).
Proof.
  apply sat_for_each; [apply _|]. intros x _.
  apply (remove_old_doc_gen shrinks (fun _ => True)).
  - intros l m. apply same_fs_shrinks, log_same_fs.
  - intros s _. apply remove_shrinks.
  - exact I.
Qed.

Lemma json_load_at (s : string) (p : path) (w : world) :
  resolve s = Some p ->
  json_load s w
  = (w, match node_at (w_fs w) p with
        | Some (NFile (CJson j)) => Ok j
        | Some (NFile (CText _)) => Raise OutsideModel
        | Some NDir => Raise IsADirectoryError
        | None => Raise FileNotFoundError
        end).
Proof.
  intros Hp. unfold json_load, with_path. rewrite Hp.
  unfold bind, get_fs, ret, raise. simpl.
  destruct (node_at (w_fs w) p) as [[[t|j]|]|]; reflexivity.
Qed.

(** A record the cache does not have is not there after removals
    either. *)
Lemma cache_request_none_shrinks (api : string) (w w2 : world) :
  Cache.request api None w = (w, Ok JNull) ->
  (forall k v, w_fs w2 !! k = Some v -> w_fs w !! k = Some v) ->
  Cache.request api None w2 = (w2, Ok JNull).
Proof.
  intros H Hsub. unfold Cache.request, bind in *.
  destruct (resolve (Cache.cache_path api None)) as [p|] eqn:Hp.
  - rewrite (os_path_exists_at _ p _ Hp) in H.
    rewrite (os_path_exists_at _ p _ Hp).
    assert (Hnode : forall v, node_at (w_fs w2) p = Some v ->
                              node_at (w_fs w) p = Some v).
    { intros v. destruct p; [auto|apply Hsub]. }
    destruct (node_at (w_fs w2) p) as [v|] eqn:Hv; [|reflexivity].
    rewrite (Hnode v eq_refl) in H.
    rewrite (json_load_at _ p _ Hp) in H. rewrite (json_load_at _ p _ Hp).
    rewrite (Hnode v eq_refl) in H. rewrite Hv.
    destruct v as [[t|j]|]; try discriminate.
    injection H as ->. reflexivity.
  - unfold os_path_exists, with_path in H. rewrite Hp in H. discriminate.
Qed.

Lemma split_slash_no_slash_append (a b : string) :
  split_slash a = [a] -> split_slash b = [b] ->
  split_slash (a +:+ b) = [a +:+ b].
Proof.
  intros Ha Hb. induction a as [|c a IH]; [exact Hb|].
  change (split_slash (String c (a +:+ b)) = [String c (a +:+ b)]).
  simpl in Ha |- *. destruct (Ascii.eqb c "/"); [discriminate|].
  pose proof (split_slash_nonempty a) as Hne.
  destruct (split_slash a) as [|seg segs]; [contradiction|].
  injection Ha as -> ->. rewrite IH by reflexivity. reflexivity.
Qed.

Lemma plain_json_name (slug : string) :
  split_slash slug = [slug] -> plain (slug +:+ ".json").
Proof.
  intros Hs. assert (Hlen := length_append slug ".json"). simpl in Hlen.
  split; [apply split_slash_no_slash_append; [exact Hs|reflexivity]|].
  split.
  - unfold proper_segment. apply andb_true_intro. split; apply negb_true_iff;
      apply String.eqb_neq; intros E; rewrite E in Hlen; simpl in Hlen; lia.
  - intros E. rewrite E in Hlen. simpl in Hlen. lia.
Qed.

Lemma json_name_inj (a b : string) : a +:+ ".json" = b +:+ ".json" -> a = b.
Proof.
  intros E. rewrite <- (strip_append a), <- (strip_append b), E. reflexivity.
Qed.

Lemma resolve_doc_detail (namespace slug : string) (p : path) :
  split_slash slug = [slug] ->
  resolve (os_path_join meta_dir (namespace +:+ "/docs/" +:+ slug +:+ ".json"))
  = Some p ->
  resolve (meta_dir +:+ "/" +:+ namespace +:+ "/docs/" +:+ slug +:+ ".json")
  = Some p
  /\ p = ("storage" :: ".meta" :: clean (split_slash namespace))
         ++ ["docs"; slug +:+ ".json"].
Proof.
  intros Hs Hp. destruct (resolve_join_meta _ _ Hp) as [Hjoin ->].
  rewrite <- Hjoin. split; [exact Hp|].
  change (namespace +:+ "/docs/" +:+ slug +:+ ".json")
    with (namespace +:+ String "/" ("docs" +:+ String "/" (slug +:+ ".json"))).
  rewrite !split_slash_app, !clean_app.
  destruct (plain_json_name slug Hs) as (Hsplit & Hproper & _).
  rewrite Hsplit, (clean_cons_proper _ [] Hproper). reflexivity.
Qed.

Section FirstCrawl.

Context (parse : string -> option datetime) (sdk : remote) (namespace : string).

Lemma fetch_doc_caches (n i : nat) (doc : json) (slug : string) (w w' : world) :
  doc_record doc slug ->
  fetch_doc sdk namespace n i doc w = (w', Ok tt) ->
  detail_cached sdk namespace (w_fs w') slug
  /\ forall t, detail_cached sdk namespace (w_fs w) t ->
               detail_cached sdk namespace (w_fs w') t.
Proof.
  intros [Hslug Hs] H. unfold fetch_doc in H.
  apply bind_inv in H as (w1 & title & Htitle & H).
  apply lift_inv in Htitle as [-> _].
  apply bind_inv in H as (w2 & [] & Hlog & H).
  apply bind_inv in H as (w3 & name & Hname & H).
  apply lift_inv in Hname as [-> Hname]. rewrite Hslug in Hname.
  simpl in Hname. injection Hname as <-.
  apply bind_inv in H as (w4 & detail & Hreq & H).
  assert (Hfs : w_fs w4 = w_fs w).
  { pose proof (request_same_fs sdk _ _ _ _ Hreq) as E1.
    pose proof (log_same_fs _ _ _ _ _ Hlog) as E2.
    unfold same_fs in E1, E2. congruence. }
  assert (Hdetail : sdk ("repos/" +:+ namespace +:+ "/docs/" +:+ slug) = Some detail).
  { unfold SDK.get_doc_detail, SDK.request, bind, emit, lift in Hreq.
    simpl in Hreq. destruct (sdk _) as [j|]; simpl in Hreq; [|discriminate].
    injection Hreq as _ ->. reflexivity. }
  destruct (save_target _ _ _ _ _ H) as (p & Hp & Hv).
  destruct (resolve_doc_detail namespace slug p Hs Hp) as [Hres Hkey].
  split.
  - exists p. split; [exact Hres|]. split; [exact Hkey|].
    intros detail' Hd'. rewrite Hdetail in Hd'. injection Hd' as <-. exact Hv.
  - intros t (pt & Hrt & Hkt & Hvt). exists pt. split; [exact Hrt|].
    split; [exact Hkt|]. intros dt Hdt.
    destruct (decide (pt = p)) as [E|Hne].
    + assert (t = slug) as ->.
      { rewrite Hkt, Hkey in E. apply app_inv_head in E.
        injection E as E. apply json_name_inj, E. }
      rewrite Hdetail in Hdt. injection Hdt as <-. rewrite E. exact Hv.
    + apply (save_keeps_file _ _ _ _ _ _ _ _ H Hp Hne).
      rewrite Hfs. apply Hvt, Hdt.
Qed.

Lemma fetch_loop_caches (n : nat) (items : list json) (slugs : list string) :
  Forall2 doc_record items slugs ->
  forall i w w',
    for_enum (crawl_doc parse sdk namespace JNull n) i items w = (w', Ok tt) ->
    (forall t, In t slugs -> detail_cached sdk namespace (w_fs w') t)
    /\ (forall t, detail_cached sdk namespace (w_fs w) t ->
                  detail_cached sdk namespace (w_fs w') t).
Proof.
  induction 1 as [|doc slug items slugs Hrec _ IH]; intros i w w' H.
  - simpl in H. injection H as <-. split; [intros t []|auto].
  - simpl in H. apply bind_inv in H as (w1 & [] & Hstep & H).
    destruct (fetch_doc_caches n i doc slug w w1 Hrec Hstep) as [Hnew Hkeep].
    destruct (IH _ _ _ H) as [Hall Hkeep'].
    split.
    + intros t [<-|Ht]; [apply Hkeep', Hnew|apply Hall, Ht].
    + intros t Ht. apply Hkeep', Hkeep, Ht.
Qed.

Lemma save_keeps_detail (st : site) (x : string) (c : json) (w w' : world)
    (t : string) :
  plain x ->
  save_to_storage st (namespace +:+ "/" +:+ x) c w = (w', Ok tt) ->
  detail_cached sdk namespace (w_fs w) t ->
  detail_cached sdk namespace (w_fs w') t.
Proof.
  intros Hx H (pt & Hrt & Hkt & Hvt).
  destruct (save_target _ _ _ _ _ H) as (p & Hp & _).
  pose proof (resolve_namespace_file namespace x p Hx Hp) as Hkey.
  exists pt. split; [exact Hrt|]. split; [exact Hkt|]. intros dt Hdt.
  apply (save_keeps_file _ _ _ _ _ _ _ _ H Hp); [|apply Hvt, Hdt].
  rewrite Hkt, Hkey. intros E. apply app_inv_head in E. discriminate.
Qed.

Lemma first_crawl_details (repo : json) (items : list json)
    (slugs : list string) (w w' : world) :
  Cache.get_repo_detail namespace w = (w, Ok JNull) ->
  Cache.get_docs namespace w = (w, Ok JNull) ->
  sdk ("repos/" +:+ namespace) = Some repo ->
  sdk ("repos/" +:+ namespace +:+ "/docs") = Some (JArr items) ->
  Forall2 doc_record items slugs ->
  crawl_repo parse sdk namespace w = (w', Ok tt) ->
  forall t, In t slugs -> detail_cached sdk namespace (w_fs w') t.
Proof.
  intros Hcached Hnodocs Hrepo Hdocs Hrec H. unfold crawl_repo in H.
  apply bind_inv in H as (w1 & cached' & Hc & H).
  rewrite Hcached in Hc. injection Hc as <- <-.
  apply bind_inv in H as (w2 & repo' & Hr & H).
  apply (request_inv _ _ _ _ _ _ Hrepo) in Hr as [-> ->].
  apply bind_inv in H as (w3 & proceed & Hp & H).
  unfold ret in Hp. injection Hp as <- <-. simpl in H.
  apply bind_inv in H as (w4 & docs' & Hd & H).
  assert (Hd' : w4 = add_events (add_events w [EGet ("repos/" +:+ namespace)])
                       [EGet ("repos/" +:+ namespace +:+ "/docs")]
                /\ docs' = JArr items).
  { unfold SDK.get_docs in Hd. rewrite <- append_assoc in Hd.
    eapply request_inv in Hd as [-> ->].
    - rewrite append_assoc. auto.
    - rewrite append_assoc. exact Hdocs. }
  destruct Hd' as [-> ->].
  apply bind_inv in H as (w5 & items' & Hit & H).
  apply lift_inv in Hit as [-> Hit]. simpl in Hit. injection Hit as <-.
  apply bind_inv in H as (w6 & names & Hnm & H).
  apply lift_inv in Hnm as [-> _].
  apply bind_inv in H as (w7 & local & Hloc & H).
  pose proof (get_doc_names_readonly namespace _ _ _ Hloc) as E.
  unfold unchanged in E. subst w7.
  apply bind_inv in H as (w8 & [] & Hrm & H).
  pose proof (removal_loop_shrinks namespace names local _ _ _ Hrm) as Hsub.
  apply bind_inv in H as (w9 & cached_docs & Hcd & H).
  assert (Hnone : Cache.get_docs namespace w8 = (w8, Ok JNull)).
  { apply (cache_request_none_shrinks _ w w8 Hnodocs). exact Hsub. }
  rewrite Hnone in Hcd. injection Hcd as <- <-.
  apply bind_inv in H as (w10 & [] & Hloop & H).
  destruct (fetch_loop_caches (length items) items slugs Hrec _ _ _ Hloop)
    as [Hall _].
  apply bind_inv in H as (w11 & [] & Hs1 & H).
  apply bind_inv in H as (w12 & toc & Htoc & H).
  apply lift_inv in Htoc as [-> _].
  apply bind_inv in H as (w13 & [] & Hs2 & Hs3).
  intros t Ht.
  apply (save_keeps_detail _ "repo.json" _ _ _ t plain_repo_json Hs3).
  apply (save_keeps_detail _ "toc.yaml" _ _ _ t plain_toc_yaml Hs2).
  apply (save_keeps_detail _ "docs.json" _ _ _ t plain_docs_json Hs1).
  apply Hall, Ht.
Qed.

End FirstCrawl.

(** X18: the first crawl of a repository mirrors every document.  When
    the cache has neither the record nor the document list of the
    repository, the slugs of the remote list have no slash, and
    [crawl_repo] returns, then for every listed document
    [Cache.get_doc_detail] returns from then on the detail the remote
    answers with. *)
Theorem first_crawl_caches_every_document (parse : string -> option datetime)
    (sdk : remote) (namespace : string) (repo : json) (items : list json)
    (slugs : list string) (w w' : world) :
  Cache.get_repo_detail namespace w = (w, Ok JNull) ->
  Cache.get_docs namespace w = (w, Ok JNull) ->
  sdk ("repos/" +:+ namespace) = Some repo ->
  sdk ("repos/" +:+ namespace +:+ "/docs") = Some (JArr items) ->
  Forall2 doc_record items slugs ->
  crawl_repo parse sdk namespace w = (w', Ok tt) ->
  forall slug detail,
    In slug slugs ->
    sdk ("repos/" +:+ namespace +:+ "/docs/" +:+ slug) = Some detail ->
    (forall s, detail <> JStr s) ->
    Cache.get_doc_detail namespace slug w' = (w', Ok detail).
Proof.
  intros Hcached Hnodocs Hrepo Hdocs Hrec H slug detail Hin Hdetail Hstr.
  destruct (first_crawl_details parse sdk namespace repo items slugs w w'
              Hcached Hnodocs Hrepo Hdocs Hrec H slug Hin) as (p & Hp & Hkey & Hv).
  unfold Cache.get_doc_detail. apply (cache_request_value _ _ p).
  - unfold Cache.cache_path. rewrite !append_assoc. exact Hp.
  - rewrite Hkey. discriminate.
  - rewrite (Hv detail Hdetail), (content_of_json detail Hstr). reflexivity.
Qed.

Lemma first_crawl_caches_every_document_witness :
  Cache.get_doc_detail "u/r" "b"
    (fst (crawl_repo iso_parse three_docs_remote "u/r" account_dir_world))
  = (fst (crawl_repo iso_parse three_docs_remote "u/r" account_dir_world),
     Ok (doc_detail "b" "B")).
Proof.
  apply (first_crawl_caches_every_document iso_parse three_docs_remote "u/r"
           (repo_detail_r T0) three_docs ["a"; "b"; "c"] account_dir_world).
  - reflexivity.
  - reflexivity.
  - reflexivity.
  - reflexivity.
  - repeat constructor.
  - vm_compute. reflexivity.
  - right. left. reflexivity.
  - reflexivity.
  - discriminate.
Defined.

(** ** Documents that have not changed *)

#[global] Instance only_logs_step : StepRel only_logs.
Proof.
  split; unfold only_logs.
  - intros w _. split; [reflexivity|]. exists []. rewrite app_nil_r.
    split; [reflexivity|constructor].
  - intros w1 w2 w3 _ (E1 & d1 & T1 & F1) (E2 & d2 & T2 & F2).
    split; [congruence|]. exists (d1 ++ d2).
    rewrite T2, T1, app_assoc. split; [reflexivity|].
    apply Forall_app. split; assumption.
Qed.

Lemma log_only_logs (l : level) (m : log_msg) : sat only_logs (log l m).
Proof.
  intros w w' r H. unfold log, emit in H. injection H as <- _.
  split; [reflexivity|]. exists [ELog l m]. split; [reflexivity|].
  repeat constructor.
Qed.

Lemma filter_result_no_match (doc : json) (s : string) (items : list json)
    (slugs : list string) :
  Forall2 (fun x sx => py_getitem x "slug" = Ok (JStr sx)) items slugs ->
  py_getitem doc "slug" = Ok (JStr s) ->
  ~ In s slugs ->
  filter_result (id_matches "slug" doc) items = Ok [].
Proof.
  intros Hrec Hs. induction Hrec as [|x sx items slugs Hx _ IH]; intros Hnot.
  - reflexivity.
  - apply (filter_result_cons _ _ _ _ false).
    + rewrite (id_matches_slugs _ _ _ _ Hs Hx). f_equal.
      apply String.eqb_neq. intros ->. apply Hnot. left; reflexivity.
    + apply IH. intros Hin. apply Hnot. right; exact Hin.
Qed.

(** In a list whose slugs are pairwise distinct, an item is the only
    candidate for itself. *)
Lemma candidates_self (doc : json) (items : list json) (slugs : list string) :
  Forall2 (fun x sx => py_getitem x "slug" = Ok (JStr sx)) items slugs ->
  NoDup slugs ->
  In doc items ->
  candidates (JArr items) doc "slug" = Ok [doc].
Proof.
  intros Hrec Hnd Hin. unfold candidates. simpl.
  induction Hrec as [|x sx items slugs Hx Hrec IH]; [contradiction|].
  apply NoDup_cons in Hnd as [Hsx Hnd].
  destruct Hin as [<-|Hin].
  - apply (filter_result_cons _ _ _ _ true).
    + rewrite (id_matches_slugs _ _ _ _ Hx Hx), String.eqb_refl. reflexivity.
    + eapply filter_result_no_match; eauto. rewrite <- list_elem_of_In. exact Hsx.
  - destruct (Forall2_In_l _ _ _ _ Hrec Hin) as (s & Hs & Hr).
    apply (filter_result_cons _ _ _ _ false).
    + rewrite (id_matches_slugs _ _ _ _ Hr Hx). f_equal.
      apply String.eqb_neq. intros ->. apply Hsx. rewrite list_elem_of_In. exact Hs.
    + apply IH; assumption.
Qed.

Lemma crawl_doc_same_list (parse : string -> option datetime) (sdk : remote)
    (namespace : string) (items : list json) (slugs : list string) (n i : nat)
    (doc : json) :
  Forall2 (fun x sx => py_getitem x "slug" = Ok (JStr sx)) items slugs ->
  NoDup slugs ->
  In doc items ->
  sat only_logs (crawl_doc parse sdk namespace (JArr items) n i doc).
Proof.
  intros Hrec Hnd Hin. unfold crawl_doc, doc_id_key.
  apply sat_bind_lift; [apply _|]. intros cands Hc.
  rewrite (candidates_self doc items slugs Hrec Hnd Hin) in Hc.
  injection Hc as <-.
  apply sat_bind_lift; [apply _|]. intros updated Hu.
  apply has_update_same in Hu. subst updated.
  apply sat_bind_lift; [apply _|]. intros title _. apply log_only_logs.
Qed.

(** X19: when the cached document list is the list the remote answers
    with, and its slugs are pairwise distinct, the loop of [crawl_repo]
    over the documents fetches nothing: it makes no request and no
    write, leaves the store as it was and only logs, whether it runs to
    its end or stops at a record whose timestamp cannot be read (as long
    as it stays in the modelled fragment). *)
Theorem same_document_list_fetches_nothing (parse : string -> option datetime)
    (sdk : remote) (namespace : string) (items : list json)
    (slugs : list string) (n i : nat) (w w' : world) (r : result unit) :
  Forall2 (fun x sx => py_getitem x doc_id_key = Ok (JStr sx)) items slugs ->
  NoDup slugs ->
  for_enum (crawl_doc parse sdk namespace (JArr items) n) i items w = (w', r) ->
  r <> Raise OutsideModel ->
  w_fs w' = w_fs w
  /\ exists d, w_trace w' = w_trace w ++ d /\ Forall is_log d.
Proof.
  intros Hrec Hnd H _.
  assert (Hsat : sat only_logs
                   (for_enum (crawl_doc parse sdk namespace (JArr items) n) i items)).
  { apply sat_for_enum; [apply _|]. intros j x Hx.
    apply (crawl_doc_same_list parse sdk namespace items slugs); assumption. }
  exact (Hsat _ _ _ H).
Qed.

Lemma same_document_list_fetches_nothing_witness :
  w_fs (fst (for_enum (crawl_doc iso_parse three_docs_remote "u/r"
                         (JArr three_docs) 3) 0 three_docs empty_world))
  = w_fs empty_world
  /\ exists d,
       w_trace (fst (for_enum (crawl_doc iso_parse three_docs_remote "u/r"
                                 (JArr three_docs) 3) 0 three_docs empty_world))
       = w_trace empty_world ++ d
       /\ Forall is_log d.
Proof.
  apply (same_document_list_fetches_nothing iso_parse three_docs_remote "u/r"
           three_docs ["a"; "b"; "c"] 3 0 empty_world _
           (snd (for_enum (crawl_doc iso_parse three_docs_remote "u/r"
                             (JArr three_docs) 3) 0 three_docs empty_world))).
  - repeat constructor.
  - repeat constructor; rewrite ?list_elem_of_In; simpl; intuition discriminate.
  - apply run_eq.
  - vm_compute. discriminate.
Defined.

(** ** Saving where something is in the way *)

Lemma makedirs_from_blocked (rest1 : path) :
  forall (pre : path) (x : string) (rest2 : path) (fs : gmap path node)
         (c : content),
    (forall r1 r2, r1 <> [] -> rest1 = r1 ++ r2 -> fs !! (pre ++ r1) = Some NDir) ->
    fs !! (pre ++ rest1 ++ [x]) = Some (NFile c) ->
    makedirs_from pre (rest1 ++ x :: rest2) fs
    = Raise (match rest2 with
             | [] => FileExistsError
             | _ => NotADirectoryError
             end).
Proof.
  induction rest1 as [|y rest1 IH]; intros pre x rest2 fs c Hdirs Hfile.
  - simpl in *. rewrite Hfile. reflexivity.
  - simpl. rewrite (Hdirs [y] rest1) by (discriminate || reflexivity).
    apply (IH (pre ++ [y]) x rest2 fs c).
    + intros r1 r2 Hne ->. rewrite <- app_assoc.
      apply (Hdirs (y :: r1) r2); [discriminate|reflexivity].
    + rewrite <- app_assoc. exact Hfile.
Qed.

Lemma os_makedirs_raises (s : string) (p : path) (w : world) (e : exn) :
  resolve s = Some p -> p <> [] ->
  makedirs_from [] p (w_fs w) = Raise e ->
  os_makedirs s w = (w, Raise e).
Proof.
  intros Hp Hne Hmk. unfold os_makedirs, with_path. rewrite Hp.
  unfold bind, get_fs, lift. simpl.
  destruct p as [|x p]; [contradiction|]. rewrite Hmk. reflexivity.
Qed.

Lemma ancestor_nil (q : path) : ~ ancestor q [].
Proof.
  intros (rest & Hq & _ & E). destruct q; [contradiction|discriminate].
Qed.

Lemma ancestor_cons (q : path) (a : string) (l : path) :
  ancestor q (a :: l) ->
  (q = [a] /\ l <> []) \/ (exists q', q = a :: q' /\ ancestor q' l).
Proof.
  intros (rest & Hq & Hrest & E). destruct q as [|b q]; [contradiction|].
  injection E as <- ->. destruct q as [|c q].
  - left. split; [reflexivity|exact Hrest].
  - right. exists (c :: q). split; [reflexivity|].
    exists rest. split; [discriminate|]. split; [exact Hrest|reflexivity].
Qed.

(** The directories above a given path, one by one. *)
Ltac each_ancestor H :=
  repeat (apply ancestor_cons in H as [[-> ?]|(? & -> & H)];
          [first [vm_compute; reflexivity | exfalso; auto]|]);
  exfalso; exact (ancestor_nil _ H).

(** X20: [save_to_storage] cannot go through a regular file.  When the
    first entry on the way to the target that is not a directory is a
    regular file, the call raises and leaves the world as it was:
    [FileExistsError] when the file is where the parent directory of
    the target has to be, [NotADirectoryError] when it is higher up. *)
Theorem save_to_storage_blocked_by_file (st : site) (f : string) (c : json)
    (w : world) (q : path) (x : content) :
  relative_name f ->
  ancestor q (storage_key f) ->
  w_fs w !! q = Some (NFile x) ->
  (forall q', ancestor q' q -> w_fs w !! q' = Some NDir) ->
  exists e,
    save_to_storage st f c w = (w, Raise e)
    /\ (q = removelast (storage_key f) -> e = FileExistsError)
    /\ (q <> removelast (storage_key f) -> e = NotADirectoryError).
Proof.
  intros Hf Hq Hfile Hdirs.
  apply ancestor_removelast in Hq as (r2 & Hqne & Hsplit & Hkey).
  destruct (exists_last Hqne) as (q0 & y & E). subst q.
  assert (Hmk : makedirs_from [] (removelast (storage_key f)) (w_fs w)
                = Raise (match r2 with
                         | [] => FileExistsError
                         | _ => NotADirectoryError
                         end)).
  { rewrite Hsplit, <- app_assoc. simpl.
    apply (makedirs_from_blocked q0 [] y r2 (w_fs w) x); [|exact Hfile].
    intros r1 r3 Hne ->. simpl. apply Hdirs.
    exists (r3 ++ [y]). split; [exact Hne|]. split; [destruct r3; discriminate|].
    rewrite app_assoc. reflexivity. }
  assert (Hpne : removelast (storage_key f) <> []).
  { rewrite Hsplit. destruct q0; discriminate. }
  eexists. split; [|split].
  - unfold save_to_storage, bind.
    rewrite (os_makedirs_raises _ _ w _ (resolve_storage_key_dir f Hf) Hpne Hmk).
    reflexivity.
  - intros E. rewrite Hsplit in E.
    rewrite <- (app_nil_r (q0 ++ [y])) in E at 1.
    apply app_inv_head in E. subst r2. reflexivity.
  - intros Hne. destruct r2; [|reflexivity].
    exfalso. apply Hne. rewrite Hsplit, app_nil_r. reflexivity.
Qed.

(** A store where the repository list of the account [u] is in place. *)
Lemma save_to_storage_blocked_by_file_witness :
  exists e,
    save_to_storage SDocList "u/repos.json/docs.json" (JArr [])
      (forget_trace (after_sync one_doc_remote account_dir_world))
    = (forget_trace (after_sync one_doc_remote account_dir_world), Raise e)
    /\ (["storage"; ".meta"; "u"; "repos.json"]
        = removelast (storage_key "u/repos.json/docs.json") ->
        e = FileExistsError)
    /\ (["storage"; ".meta"; "u"; "repos.json"]
        <> removelast (storage_key "u/repos.json/docs.json") ->
        e = NotADirectoryError).
Proof.
  apply (save_to_storage_blocked_by_file SDocList "u/repos.json/docs.json"
           (JArr []) (forget_trace (after_sync one_doc_remote account_dir_world))
           ["storage"; ".meta"; "u"; "repos.json"]
           (CJson (JArr [repo_entry_r T0]))).
  - unfold relative_name. simpl. repeat constructor; discriminate.
  - exists ["docs.json"]. repeat split; discriminate.
  - vm_compute. reflexivity.
  - intros q' Hq'. each_ancestor Hq'.
Defined.

Lemma write_file_onto_directory (st : site) (s : string) (c : content)
    (p : path) (w : world) :
  resolve s = Some p -> p <> [] ->
  node_at (w_fs w) (removelast p) = Some NDir ->
  w_fs w !! p = Some NDir ->
  write_file st s c w = (w, Raise IsADirectoryError).
Proof.
  intros Hp Hne Hpar Hdir. unfold write_file, with_path. rewrite Hp.
  unfold bind, get_fs, raise. simpl.
  destruct p as [|x p]; [contradiction|]. rewrite Hpar, Hdir. reflexivity.
Qed.

(** X21: [save_to_storage] cannot replace a directory.  When the
    directories above the target exist and the target itself is a
    directory, the call raises [IsADirectoryError] and leaves the world
    as it was. *)
Theorem save_to_storage_onto_directory (st : site) (f : string) (c : json)
    (w : world) :
  relative_name f ->
  (forall q, ancestor q (storage_key f) -> w_fs w !! q = Some NDir) ->
  w_fs w !! storage_key f = Some NDir ->
  save_to_storage st f c w = (w, Raise IsADirectoryError).
Proof.
  intros Hf Hdirs Hdir.
  pose proof (storage_key_long f) as Hlen.
  assert (Hne : storage_key f <> [])
    by (intros E; rewrite E in Hlen; simpl in Hlen; lia).
  assert (Hqne : removelast (storage_key f) <> []).
  { intros E. pose proof (removelast_length (storage_key f)) as Hl.
    rewrite E in Hl. simpl in Hl. lia. }
  assert (Hnoop : makedirs_from [] (removelast (storage_key f)) (w_fs w)
                  = Ok (w_fs w)).
  { apply makedirs_from_noop. intros r1 r2 Hr1 Hsplit. simpl.
    apply Hdirs, ancestor_removelast. exists r2. auto. }
  unfold save_to_storage, bind.
  rewrite (os_makedirs_ok _ _ w _ (resolve_storage_key_dir f Hf) Hqne Hnoop).
  assert (Hw : forall c', write_file st (os_path_join meta_dir f) c'
                            (World (w_fs w) (w_trace w))
                          = (w, Raise IsADirectoryError)).
  { intros c'. replace (World (w_fs w) (w_trace w)) with w by (destruct w; reflexivity).
    apply (write_file_onto_directory st _ c' (storage_key f) w);
      [apply resolve_storage_key, Hf|exact Hne| |exact Hdir].
    rewrite node_at_ne by exact Hqne.
    apply Hdirs, ancestor_removelast. exists []. rewrite app_nil_r. auto. }
  destruct c; apply Hw.
Qed.

Lemma save_to_storage_onto_directory_witness :
  save_to_storage SRepoList "u/r" (JArr [])
    (forget_trace (after_sync one_doc_remote account_dir_world))
  = (forget_trace (after_sync one_doc_remote account_dir_world),
     Raise IsADirectoryError).
Proof.
  apply (save_to_storage_onto_directory SRepoList "u/r" (JArr [])
           (forget_trace (after_sync one_doc_remote account_dir_world))).
  - unfold relative_name. simpl. repeat constructor; discriminate.
  - intros q Hq. unfold storage_key in Hq. simpl in Hq. each_ancestor Hq.
  - vm_compute. reflexivity.
Defined.

(** ** A cache without the directory of the account *)

Lemma plain_user_json : plain "user.json".
Proof. repeat split; discriminate || reflexivity. Qed.

Lemma relative_user_json : relative_name "user.json".
Proof. unfold relative_name. simpl. repeat constructor; discriminate. Qed.

(** Neither [os.makedirs(meta_dir)] nor the write of [user.json] makes
    the directory of the account. *)
Lemma makedirs_meta_no_account (login : string) (w w' : world) :
  w_fs w !! account_dir login <> Some NDir ->
  os_makedirs meta_dir w = (w', Ok tt) ->
  w_fs w' !! account_dir login <> Some NDir.
Proof.
  intros Hno H Hdir.
  destruct (os_makedirs_effect _ _ _ _ H) as [_ [(q & Hq & Hmk & _)|[_ [e He]]]];
    [|discriminate].
  vm_compute in Hq. injection Hq as <-.
  destruct (makedirs_from_spec _ _ _ _ Hmk) as (_ & Hnew & _).
  destruct (Hnew _ _ Hdir) as [Hold|(_ & r1 & r2 & _ & Hsplit & Hk)];
    [contradiction|].
  simpl in Hk. apply (f_equal (@length string)) in Hsplit, Hk.
  rewrite length_app in Hsplit. unfold account_dir in Hk. simpl in Hsplit, Hk. lia.
Qed.

Lemma save_user_no_account (login : string) (c : json) (w w' : world) :
  w_fs w !! account_dir login <> Some NDir ->
  save_to_storage SUser "user.json" c w = (w', Ok tt) ->
  w_fs w' !! account_dir login <> Some NDir.
Proof.
  intros Hno H Hdir.
  destruct (save_ok_effect _ _ _ _ _ H) as (q & p & fsa & Hq & Hmk & Hp & _ & ->).
  rewrite (resolve_storage_key_dir _ relative_user_json) in Hq. injection Hq as <-.
  rewrite (resolve_storage_key _ relative_user_json) in Hp. injection Hp as <-.
  simpl in Hdir. destruct (decide (storage_key "user.json" = account_dir login)) as [E|Hne].
  - rewrite E, lookup_insert_eq in Hdir. discriminate.
  - rewrite lookup_insert_ne in Hdir by exact Hne.
    destruct (makedirs_from_spec _ _ _ _ Hmk) as (_ & Hnew & _).
    destruct (Hnew _ _ Hdir) as [Hold|(_ & r1 & r2 & _ & Hsplit & Hk)];
      [contradiction|].
    simpl in Hk. apply (f_equal (@length string)) in Hsplit, Hk.
    rewrite length_app in Hsplit. unfold account_dir in Hk.
    simpl in Hsplit, Hk. lia.
Qed.

Lemma get_local_repo_names_needs_directory (login : string) (w w' : world)
    (local : list string) :
  plain login ->
  Cache.get_local_repo_names login w = (w', Ok local) ->
  w_fs w !! account_dir login = Some NDir.
Proof.
  intros Hl H. unfold Cache.get_local_repo_names in H.
  apply bind_inv in H as (w1 & names & Hls & _).
  rewrite (os_listdir_at _ _ w (resolve_account_dir login Hl)) in Hls.
  change (node_at (w_fs w) (account_dir login)) with (w_fs w !! account_dir login) in Hls.
  destruct (w_fs w !! account_dir login) as [[c|]|]; try discriminate. reflexivity.
Qed.

(** X22: a run of [main] on a cache that does not have the directory of
    the account cannot return.  Nothing before the listing of the local
    repositories creates that directory, and [get_local_repo_names]
    lists it without a guard: whatever the remote holds, the run ends
    with an exception, and the repositories are not crawled.  A first
    run on an empty store is the case in point. *)
Theorem run_without_account_directory_raises (parse : string -> option datetime)
    (sdk : remote) (user_info : json) (login : string) (w w' : world)
    (r : result unit) :
  sdk "user" = Some user_info ->
  rbind (py_getitem user_info "login") py_str = Ok login ->
  plain login ->
  w_fs w !! account_dir login <> Some NDir ->
  main parse sdk w = (w', r) ->
  r <> Ok tt.
Proof.
  intros Huser Hlogin Hl Hno H ->. unfold main in H.
  apply bind_inv in H as (wa & [] & Hmk & H).
  pose proof (makedirs_meta_no_account login _ _ Hno Hmk) as Hnoa.
  apply bind_inv in H as (w1 & cached & Hcu & H).
  assert (w1 = wa) as ->.
  { eapply readonly_inv, Hcu. apply (cache_request_readonly "user" None). }
  apply bind_inv in H as (w2 & ui & Hgu & H).
  apply (request_inv _ _ _ _ _ _ Huser) in Hgu as [-> ->].
  apply bind_inv in H as (w3 & updated & Hup & H).
  assert (w3 = add_events wa [EGet "user"]) as ->.
  { destruct cached; first [apply lift_inv in Hup as [-> _]; reflexivity
                           | unfold ret in Hup; injection Hup as <- _; reflexivity]. }
  apply bind_inv in H as (wb & [] & Hsave & H).
  assert (Hnob : w_fs wb !! account_dir login <> Some NDir).
  { destruct updated.
    - apply (save_user_no_account login user_info
               (add_events wa [EGet "user"]) wb Hnoa Hsave).
    - unfold ret in Hsave. injection Hsave as <-. exact Hnoa. }
  apply bind_inv in H as (w4 & login' & Hlg & H).
  apply lift_inv in Hlg as [-> Hlg]. rewrite Hlogin in Hlg. injection Hlg as <-.
  apply bind_inv in H as (w5 & repos & Hgr & H).
  assert (Hfs5 : w_fs w5 = w_fs wb).
  { exact (request_same_fs sdk _ _ _ _ Hgr). }
  apply bind_inv in H as (w6 & items & Hit & H).
  apply lift_inv in Hit as [-> _].
  apply bind_inv in H as (w7 & names & Hnm & H).
  apply lift_inv in Hnm as [-> _].
  apply bind_inv in H as (w8 & local & Hloc & _).
  apply (get_local_repo_names_needs_directory login _ _ _ Hl) in Hloc.
  rewrite Hfs5 in Hloc. contradiction.
Qed.

Lemma run_without_account_directory_raises_witness :
  snd (main iso_parse one_doc_remote empty_world) <> Ok tt.
Proof.
  apply (run_without_account_directory_raises iso_parse one_doc_remote user_u "u"
           empty_world (fst (main iso_parse one_doc_remote empty_world))).
  - reflexivity.
  - reflexivity.
  - exact plain_u.
  - simpl. rewrite lookup_empty. discriminate.
  - apply run_eq.
Defined.

(** ** A request that fails: what the run leaves *)

Lemma makedirs_from_raises (rest : path) :
  forall (pre : path) (fs : gmap path node) (e : exn),
    makedirs_from pre rest fs = Raise e ->
    e = FileExistsError \/ e = NotADirectoryError.
Proof.
  induction rest as [|x rest IH]; intros pre fs e H; simpl in H; [discriminate|].
  destruct (fs !! (pre ++ [x])) as [[c|]|].
  - injection H as <-. destruct rest; auto.
  - eapply IH, H.
  - eapply IH, H.
Qed.

Lemma os_makedirs_not_request_failed (s : string) (w w' : world) (e : exn) :
  os_makedirs s w = (w', Raise e) -> e <> RequestFailed.
Proof.
  unfold os_makedirs, with_path. destruct (resolve s) as [p|].
  - unfold bind, get_fs, raise, ret, lift, put_fs. simpl. destruct p as [|x p].
    + destruct (String.eqb s ""); intros H; inversion H; discriminate.
    + destruct (makedirs_from [] (x :: p) (w_fs w)) as [fs'|e'] eqn:E;
        intros H; inversion H; subst.
      destruct (makedirs_from_raises _ _ _ _ E) as [->| ->]; discriminate.
  - intros H; inversion H; discriminate.
Qed.

Lemma write_file_not_request_failed (st : site) (s : string) (c : content)
    (w w' : world) (e : exn) :
  write_file st s c w = (w', Raise e) -> e <> RequestFailed.
Proof.
  unfold write_file, with_path. destruct (resolve s) as [p|];
    [|intros H; inversion H; discriminate].
  unfold bind, get_fs, raise, put_fs, emit. simpl.
  destruct p as [|x p]; [intros H; inversion H; discriminate|].
  destruct (node_at (w_fs w) (removelast (x :: p))) as [[?|]|];
    try (intros H; inversion H; discriminate).
  destruct (w_fs w !! (x :: p)) as [[?|]|]; intros H; inversion H; discriminate.
Qed.

Lemma bind_raise_inv {A B} (m : M A) (k : A -> M B) (w w' : world) (e : exn) :
  bind m k w = (w', Raise e) ->
  m w = (w', Raise e) \/ exists w1 a, m w = (w1, Ok a) /\ k a w1 = (w', Raise e).
Proof.
  unfold bind. destruct (m w) as [w1 [a|e']]; intros H.
  - right. eauto.
  - left. injection H as -> ->. reflexivity.
Qed.

Lemma save_not_request_failed (st : site) (f : string) (c : json)
    (w w' : world) (e : exn) :
  save_to_storage st f c w = (w', Raise e) -> e <> RequestFailed.
Proof.
  intros H. unfold save_to_storage in H.
  apply bind_raise_inv in H as [H|(w1 & [] & _ & H)].
  - eapply os_makedirs_not_request_failed, H.
  - destruct c; eapply write_file_not_request_failed, H.
Qed.

Lemma py_getitem_not_request_failed (d : json) (key : string) (e : exn) :
  py_getitem d key = Raise e -> e <> RequestFailed.
Proof.
  destruct d; simpl; try (intros H; inversion H; discriminate).
  destruct (assoc key fields); simpl; intros H; inversion H; discriminate.
Qed.

#[global] Instance any_trace_inv : TraceInv (fun _ _ => True).
Proof. split; auto. Qed.

(** The three writes that end a scan never raise [RequestFailed]. *)
Lemma crawl_repo_tail_outcome (namespace : string) (docs repo : json) :
  sat (trace_rel no_tail_if_request_failed)
    (do! save_to_storage SDocList (namespace +:+ "/docs.json") docs in
     let! toc := lift (py_getitem repo "toc_yml") in
     do! save_to_storage SToc (namespace +:+ "/toc.yaml") toc in
     save_to_storage SRepoDetail (namespace +:+ "/repo.json") repo).
Proof.
  intros w w' r H.
  assert (Htr : sat (trace_rel (fun _ _ => True))
    (do! save_to_storage SDocList (namespace +:+ "/docs.json") docs in
     let! toc := lift (py_getitem repo "toc_yml") in
     do! save_to_storage SToc (namespace +:+ "/toc.yaml") toc in
     save_to_storage SRepoDetail (namespace +:+ "/repo.json") repo)).
  { assert (Hs : forall st f c, sat (trace_rel (fun _ _ => True))
                                    (save_to_storage st f c)).
    { intros st f c w0 w1 r0 H0. eexists. split; [exact (save_trace _ _ _ _ _ _ H0)|].
      exact I. }
    apply sat_bind; [apply _|apply Hs|]; intros _.
    apply sat_bind_lift; [apply _|]; intros toc _.
    apply sat_bind; [apply _|apply Hs|]; intros _. apply Hs. }
  destruct (Htr _ _ _ H) as (d & Hd & _). exists d. split; [exact Hd|]. right.
  destruct r as [[]|e]; [discriminate|]. simpl. intros E. injection E as ->.
  apply bind_raise_inv in H as [H|(w1 & [] & _ & H)].
  { exact (save_not_request_failed _ _ _ _ _ _ H eq_refl). }
  apply bind_raise_inv in H as [H|(w2 & toc & _ & H)].
  { unfold lift in H. injection H as _ H.
    exact (py_getitem_not_request_failed _ _ _ H eq_refl). }
  apply bind_raise_inv in H as [H|(w3 & [] & _ & H)].
  { exact (save_not_request_failed _ _ _ _ _ _ H eq_refl). }
  exact (save_not_request_failed _ _ _ _ _ _ H eq_refl).
Qed.

(** What a call of [crawl_repo] that raises [RequestFailed] has
    written: document details only. *)
Lemma crawl_repo_failed_writes (parse : string -> option datetime) (sdk : remote)
    (namespace : string) (w : world) (d : list event) :
  w_trace (fst (crawl_repo parse sdk namespace w)) = w_trace w ++ d ->
  snd (crawl_repo parse sdk namespace w) = Raise RequestFailed ->
  Forall (writes_from (fun st => st = SDocDetail)) d.
Proof.
  intros Hd Hr.
  assert (Hsat : sat (trace_rel (then_only (fun st => st = SDocDetail)
                                   no_tail_if_request_failed))
                   (crawl_repo parse sdk namespace)).
  { apply (crawl_repo_scan_sat parse sdk (quiet (fun st => st = SDocDetail))
             (fun st => st = SDocDetail)).
    - intros; repeat constructor.
    - intros; repeat constructor.
    - intros st s c Hst. constructor; [exact Hst|constructor].
    - apply request_quiet.
    - reflexivity.
    - intros w0 o. exists []. rewrite app_nil_r. split; [reflexivity|].
      exists [], []. repeat split; [constructor|left; reflexivity].
    - intros A m B k. apply then_only_bind. intros e. left. reflexivity.
    - intros docs repo. apply then_only_last, crawl_repo_tail_outcome. }
  destruct (Hsat _ _ _ (run_eq _ w)) as (d1 & E & d0 & fin & -> & Q0 & Qfin).
  rewrite E in Hd. apply app_inv_head in Hd. subst d.
  rewrite Hr in Qfin. destruct Qfin as [->|Hne]; [|contradiction Hne; reflexivity].
  rewrite app_nil_r. exact Q0.
Qed.

(** What a run of [main] that raises has written: not the repository
    list. *)
Lemma main_raised_writes (parse : string -> option datetime) (sdk : remote)
    (w : world) (d : list event) (e : exn) :
  w_trace (fst (main parse sdk w)) = w_trace w ++ d ->
  snd (main parse sdk w) = Raise e ->
  Forall (writes_from (fun st => st <> SRepoList)) d.
Proof.
  intros Hd Hr.
  assert (Hsat : sat (trace_rel (then_only (fun st => st <> SRepoList)
                                   (one_write_if_ok SRepoList)))
                   (main parse sdk)).
  { apply (main_scan_sat parse sdk (quiet (fun st => st <> SRepoList))
             (fun st => st <> SRepoList)).
    - intros; repeat constructor.
    - intros; repeat constructor.
    - intros; repeat constructor.
    - intros st s c Hst. constructor; [exact Hst|constructor].
    - apply request_quiet.
    - discriminate.
    - discriminate.
    - discriminate.
    - discriminate.
    - discriminate.
    - intros A m B k. apply then_only_bind. intros e0. left.
      split; [reflexivity|discriminate].
    - intros login repos. apply then_only_last, save_to_storage_one_write. }
  destruct (Hsat _ _ _ (run_eq _ w)) as (d1 & E & d0 & fin & -> & Q0 & Qfin).
  rewrite E in Hd. apply app_inv_head in Hd. subst d.
  rewrite Hr in Qfin. destruct Qfin as [[-> _]|(file & c & _ & Hno)];
    [|discriminate].
  rewrite app_nil_r. exact Q0.
Qed.

(** The step of the loop over the documents for a document that is
    fetched and whose detail the remote does not answer. *)
Lemma crawl_doc_request_fails (parse : string -> option datetime) (sdk : remote)
    (namespace : string) (cached_docs doc : json) (n i : nat)
    (title name : string) (w : world) :
  rbind (py_getitem doc "title") py_str = Ok title ->
  rbind (py_getitem doc "slug") py_str = Ok name ->
  sdk ("repos/" +:+ namespace +:+ "/docs/" +:+ name) = None ->
  to_fetch parse cached_docs doc ->
  crawl_doc parse sdk namespace cached_docs n i doc w
  = (add_events w [ELog Info (MsgDoc title (i + 1) n);
                   EGet ("repos/" +:+ namespace +:+ "/docs/" +:+ name)],
     Raise RequestFailed).
Proof.
  intros Htitle Hname Hnone Hfetch.
  assert (Hf : forall w0,
            fetch_doc sdk namespace n i doc w0
            = (add_events w0 [ELog Info (MsgDoc title (i + 1) n);
                              EGet ("repos/" +:+ namespace +:+ "/docs/" +:+ name)],
               Raise RequestFailed)).
  { intros w0. unfold fetch_doc, doc_id_key.
    rewrite (bind_lift_ok _ _ _ _ Htitle).
    unfold bind at 1, log, emit; simpl.
    rewrite (bind_lift_ok _ _ _ _ Hname).
    unfold SDK.get_doc_detail, SDK.request, bind, emit, lift; simpl.
    rewrite Hnone; simpl. unfold add_events; simpl.
    rewrite <- app_assoc. reflexivity. }
  unfold crawl_doc. destruct Hfetch as [->|[Hnn [Hnone'|(c & rest & Hc & Hup)]]].
  - apply Hf.
  - destruct cached_docs; try congruence;
      rewrite (bind_lift_ok _ _ _ _ Hnone'); apply Hf.
  - destruct cached_docs; try congruence;
      rewrite (bind_lift_ok _ _ _ _ Hc), (bind_lift_ok _ _ _ _ Hup); apply Hf.
Qed.

(** C4 amended: nothing catches the exception of a failed request.  In
    [main] and in [crawl_repo], a request the remote does not answer is
    the last event, every request before it was answered, and the run
    ends with [RequestFailed]; such a run of [main] has not written the
    repository list, and such a call of [crawl_repo] has written
    document details only: no [docs.json], [toc.yaml] or [repo.json].
    When the request is for the detail of a document that is to be
    fetched, the loop over the documents ends there, in the store the
    documents before it left, and takes no step for the siblings after
    it. *)
Theorem failed_request_ends_run (parse : string -> option datetime)
    (sdk : remote) (api : string) :
  sdk api = None ->
  (forall w d,
      w_trace (fst (main parse sdk w)) = w_trace w ++ d ->
      In (EGet api) d ->
      snd (main parse sdk w) = Raise RequestFailed
      /\ (exists d', d = d' ++ [EGet api] /\ Forall (answered sdk) d')
      /\ Forall (writes_from (fun st => st <> SRepoList)) d)
  /\ (forall namespace w d,
        w_trace (fst (crawl_repo parse sdk namespace w)) = w_trace w ++ d ->
        In (EGet api) d ->
        snd (crawl_repo parse sdk namespace w) = Raise RequestFailed
        /\ (exists d', d = d' ++ [EGet api] /\ Forall (answered sdk) d')
        /\ Forall (writes_from (fun st => st = SDocDetail)) d)
  /\ (forall namespace cached_docs n pre doc post title name w w1,
        rbind (py_getitem doc "title") py_str = Ok title ->
        rbind (py_getitem doc "slug") py_str = Ok name ->
        api = "repos/" +:+ namespace +:+ "/docs/" +:+ name ->
        to_fetch parse cached_docs doc ->
        for_enum (crawl_doc parse sdk namespace cached_docs n) 0 pre w
        = (w1, Ok tt) ->
        for_enum (crawl_doc parse sdk namespace cached_docs n) 0
          (pre ++ doc :: post) w
        = (add_events w1 [ELog Info (MsgDoc title (length pre + 1) n);
                          EGet api],
           Raise RequestFailed)).
Proof.
  intros Hapi.
  assert (Hgen : forall (m : M unit) w d,
            sat (trace_rel (fail_last sdk)) m ->
            w_trace (fst (m w)) = w_trace w ++ d ->
            In (EGet api) d ->
            snd (m w) = Raise RequestFailed
            /\ exists d', d = d' ++ [EGet api] /\ Forall (answered sdk) d').
  { intros m w d Hsat Hd Hin.
    destruct (Hsat _ _ _ (run_eq m w)) as (d1 & E & HJ).
    rewrite E in Hd. apply app_inv_head in Hd. subst d1.
    destruct (fail_last_event _ _ _ _ HJ Hin Hapi) as [Ho Hlast].
    split; [|exact Hlast].
    destruct (snd (m w)) as [[]|e]; simpl in Ho; congruence. }
  split; [|split].
  - intros w d Hd Hin.
    assert (Hsat : sat (trace_rel (fail_last sdk)) (main parse sdk)).
    { apply (main_sat parse sdk (fail_last sdk) (fun _ => True)).
      + intros; left; repeat constructor.
      + intros; left; repeat constructor.
      + intros; left; repeat constructor.
      + intros; left; repeat constructor.
      + apply request_fail_last.
      + intros; exact I. }
    destruct (Hgen _ w d Hsat Hd Hin) as [Hr Hlast].
    split; [exact Hr|]. split; [exact Hlast|].
    exact (main_raised_writes parse sdk w d _ Hd Hr).
  - intros namespace w d Hd Hin.
    assert (Hsat : sat (trace_rel (fail_last sdk)) (crawl_repo parse sdk namespace)).
    { apply (crawl_repo_sat parse sdk (fail_last sdk) (fun _ => True)); try exact I.
      + intros; left; repeat constructor.
      + intros; left; repeat constructor.
      + intros; left; repeat constructor.
      + apply request_fail_last. }
    destruct (Hgen _ w d Hsat Hd Hin) as [Hr Hlast].
    split; [exact Hr|]. split; [exact Hlast|].
    exact (crawl_repo_failed_writes parse sdk namespace w d Hd Hr).
  - intros namespace cached_docs n pre doc post title name w w1
      Htitle Hname -> Hfetch Hpre.
    apply (for_enum_app_raise _ _ _ _ _ _ _ _ _ Hpre).
    apply crawl_doc_request_fails; assumption.
Qed.

Lemma failed_request_ends_run_witness :
  (snd (main iso_parse failing_detail_remote account_dir_world)
   = Raise RequestFailed
   /\ (exists d',
         w_trace (after_sync failing_detail_remote account_dir_world)
         = d' ++ [EGet "repos/u/r/docs/b"]
         /\ Forall (answered failing_detail_remote) d')
   /\ Forall (writes_from (fun st => st <> SRepoList))
        (w_trace (after_sync failing_detail_remote account_dir_world)))
  /\ for_enum (crawl_doc iso_parse failing_detail_remote "u/r" JNull 3) 0
       ([doc_entry "a" T0_plus_2s] ++ doc_entry "b" T0_plus_2s
          :: [doc_entry "c" T0_plus_2s]) account_dir_world
     = (add_events
          (fst (for_enum (crawl_doc iso_parse failing_detail_remote "u/r" JNull 3)
                  0 [doc_entry "a" T0_plus_2s] account_dir_world))
          [ELog Info (MsgDoc "b" (length [doc_entry "a" T0_plus_2s] + 1) 3);
           EGet "repos/u/r/docs/b"],
        Raise RequestFailed).
Proof.
  split.
  - refine (proj1 (failed_request_ends_run iso_parse failing_detail_remote
                     "repos/u/r/docs/b" _) account_dir_world
              (w_trace (after_sync failing_detail_remote account_dir_world)) _ _).
    + reflexivity.
    + reflexivity.
    + vm_compute. do 10 right. left. reflexivity.
  - refine (proj2 (proj2 (failed_request_ends_run iso_parse failing_detail_remote
                            "repos/u/r/docs/b" _)) "u/r" JNull 3
              [doc_entry "a" T0_plus_2s] (doc_entry "b" T0_plus_2s)
              [doc_entry "c" T0_plus_2s] "b" "b" account_dir_world _ _ _ _ _ _).
    + reflexivity.
    + reflexivity.
    + reflexivity.
    + reflexivity.
    + left. reflexivity.
    + vm_compute. reflexivity.
Defined.
